(** * MSUtils.ClassESW: noise statistics and weights of a measurement set

    A shallow embedding of [MSUtils/ClassESW.py] (class [MSNoise]) and the
    properties of its three parts: the frequency axis built by [__init__],
    [estimate_weights] and [write_toms].

    Conventions of the embedding.
    - Python integers are [Z].  The integer division [self.nrows/10] is the
      floor division of Python 2, the dialect in which [range] accepts its
      result.
    - numpy's floating-point numbers are the type [float] below: rationals
      extended with IEEE's [inf], [-inf] and [nan].  There is one zero, which
      behaves as [+0], and finite results are kept in lowest terms, so that
      equal numbers are equal terms.  [round_to] rounds a number to the
      nearest one of binary64 or binary32, ties to even, with the gradual
      underflow and the overflow to an infinity of IEEE 754.  The frequency
      axis ([__init__], double arithmetic stored as [float32]) and the
      weights (line 127, in the precision of the noise array) are computed
      with it, operation by operation.  The other operations on arrays (the
      division by the maximum, the scaling to MHz, Horner's scheme, the sums
      over the channels) are the exact ones: what is proved of them does not
      depend on the rounding.
    - A Python exception is a value of [exn]; code that can raise returns a
      [result].
    - The routines of numpy, scipy, pylab and the table of the storage engine
      are not part of the repository: they are parameters of the sections
      below. *)

From Stdlib Require Import ZArith QArith Qreduction Qround Qabs Qpower.
From Stdlib Require Import List Sorted Lia Lqa.
From Stdlib Require SpecFloat.
From stdpp Require Import base list strings sorting.
Import ListNotations.

Local Open Scope Z_scope.

(** ** Exceptions and results

    [NotModelled] is no Python exception: it marks the inputs on which a
    routine given below for evaluation has no model. *)

Inductive exn : Type :=
  | IndexError
  | ValueError
  | TypeError
  | ZeroDivisionError
  | UnboundLocalError
  | IOError
  | MaskError
  | RuntimeError
  | NotModelled.

Inductive result (A : Type) : Type :=
  | Ok (a : A)
  | Error (e : exn).

Arguments Ok {A} a.
Arguments Error {A} e.

Definition rbind {A B : Type} (r : result A) (k : A -> result B) : result B :=
  match r with
  | Ok a => k a
  | Error e => Error e
  end.

Declare Scope result_scope.
Delimit Scope result_scope with result.
Notation "'let!' x ':=' r 'in' k" := (rbind r (fun x => k))
  (at level 10, x pattern, r at level 200, k at level 200,
   format "'[v' 'let!'  x  ':='  r  'in' '/' k ']'") : result_scope.


(** [l[i]] on a Python list or a numpy axis, for a non-negative index. *)
Definition getitem {A : Type} (l : list A) (i : nat) : result A :=
  match l !! i with
  | Some a => Ok a
  | None => Error IndexError
  end.

(** ** Floating-point numbers *)

Inductive float : Type :=
  | Fin (q : Q)
  | PInf
  | NInf
  | NaN.

Definition Qsgn (q : Q) : comparison := (Qnum q ?= 0)%Z.

Definition fzero : float := Fin 0.
Definition fone : float := Fin 1.

Definition of_int (z : Z) : float := Fin (inject_Z z).

Definition finf_of (c : comparison) : float :=
  match c with
  | Gt => PInf
  | Lt => NInf
  | Eq => NaN
  end.


Definition fadd (a b : float) : float :=
  match a, b with
  | NaN, _ | _, NaN => NaN
  | Fin x, Fin y => Fin (Qred (x + y))
  | PInf, NInf | NInf, PInf => NaN
  | PInf, _ | _, PInf => PInf
  | NInf, _ | _, NInf => NInf
  end.

Definition fmul (a b : float) : float :=
  match a, b with
  | NaN, _ | _, NaN => NaN
  | Fin x, Fin y => Fin (Qred (x * y))
  | Fin x, PInf | PInf, Fin x => finf_of (Qsgn x)
  | Fin x, NInf | NInf, Fin x => finf_of (CompOpp (Qsgn x))
  | PInf, PInf | NInf, NInf => PInf
  | PInf, NInf | NInf, PInf => NInf
  end.

(** numpy's true division: dividing by zero gives an infinity or [nan] (and a
    warning), never an exception. *)
Definition fdiv (a b : float) : float :=
  match a, b with
  | NaN, _ | _, NaN => NaN
  | Fin x, Fin y =>
      match Qsgn y with
      | Eq => finf_of (Qsgn x)
      | _ => Fin (Qred (x / y))
      end
  | Fin _, (PInf | NInf) => Fin 0
  | PInf, Fin y => match Qsgn y with Lt => NInf | _ => PInf end
  | NInf, Fin y => match Qsgn y with Lt => PInf | _ => NInf end
  | (PInf | NInf), (PInf | NInf) => NaN
  end.

(** *** Rounding

    The two formats of the program: [numpy.float32] (binary32) and Python's
    [float], numpy's [float64] (binary64). *)
Inductive dtype : Type :=
  | float32
  | float64.

(** The number of bits of the significand, and the exponent [emax] with
    [2^emax] the first power of two that is too large. *)
Definition prec (t : dtype) : Z :=
  match t with float32 => 24 | float64 => 53 end.

Definition emax (t : dtype) : Z :=
  match t with float32 => 128 | float64 => 1024 end.

(** The exponent of the smallest positive number: [2^-149], [2^-1074]. *)
Definition emin (t : dtype) : Z := 3 - emax t - prec t.

Definition pow2 (e : Z) : Q := (2 ^ e)%Q.

(** [floor (log2 q)] for [q > 0]. *)
Definition ilog2 (q : Q) : Z :=
  let e := Z.log2 (Qnum q) - Z.log2 (Zpos (Qden q)) in
  if Qle_bool (pow2 e) q then e else e - 1.

(** The nearest integer, the even one of the two when [q] is halfway. *)
Definition rne (q : Q) : Z :=
  let f := Qfloor q in
  match (q - inject_Z f ?= 1 # 2)%Q with
  | Lt => f
  | Gt => f + 1
  | Eq => if Z.even f then f else f + 1
  end.

(** The exponent of the last bit of the significand of [q > 0]: numbers
    below [2^(emin + prec - 1)] are subnormal and share the exponent
    [emin]. *)
Definition ulp_exp (t : dtype) (q : Q) : Z :=
  Z.max (ilog2 q - prec t + 1) (emin t).

(** [q > 0] rounded to a multiple of its last bit. *)
Definition round_pos (t : dtype) (q : Q) : Q :=
  (inject_Z (rne (q / pow2 (ulp_exp t q))) * pow2 (ulp_exp t q))%Q.

(** Rounding to nearest, ties to even: a result of magnitude [2^emax] or
    more is an infinity. *)
Definition round_to (t : dtype) (a : float) : float :=
  match a with
  | Fin q =>
      match Qsgn q with
      | Eq => Fin 0
      | Gt => let r := round_pos t q in
              if Qle_bool (pow2 (emax t)) r then PInf else Fin (Qred r)
      | Lt => let r := round_pos t (- q) in
              if Qle_bool (pow2 (emax t)) r then NInf else Fin (Qred (- r))
      end
  | _ => a
  end.

(** What [round_to] gives on a number, by the sign of the number. *)
Variant rounded (t : dtype) (q : Q) : float -> Prop :=
  | rounded_zero : (q == 0)%Q -> rounded t q (Fin 0)
  | rounded_pos_inf :
      (0 < q)%Q -> (pow2 (emax t) <= round_pos t q)%Q -> rounded t q PInf
  | rounded_pos (r : Q) :
      (0 < q)%Q -> (r == round_pos t q)%Q -> (r < pow2 (emax t))%Q ->
      rounded t q (Fin r)
  | rounded_neg_inf :
      (q < 0)%Q -> (pow2 (emax t) <= round_pos t (- q))%Q ->
      rounded t q NInf
  | rounded_neg (r : Q) :
      (q < 0)%Q -> (r == - round_pos t (- q))%Q ->
      (- pow2 (emax t) < r)%Q -> rounded t q (Fin r).

(** The value of a number of [SpecFloat], the specification of IEEE 754
    the standard library gives for its primitive floats. *)
Definition spec_value (x : SpecFloat.spec_float) : float :=
  match x with
  | SpecFloat.S754_zero _ => Fin 0
  | SpecFloat.S754_infinity s => if s then NInf else PInf
  | SpecFloat.S754_nan => NaN
  | SpecFloat.S754_finite s m e =>
      Fin (Qred ((if s then -1 else 1) * inject_Z (Zpos m) * pow2 e))
  end.

(** The operations of IEEE 754: the exact result, rounded. *)
Definition fadd_r (t : dtype) (a b : float) : float := round_to t (fadd a b).
Definition fmul_r (t : dtype) (a b : float) : float := round_to t (fmul a b).
Definition fdiv_r (t : dtype) (a b : float) : float := round_to t (fdiv a b).

(** An integer as a double: exact up to [2^53] in magnitude. *)
Definition int_to_float (z : Z) : float := round_to float64 (of_int z).

(** Python's [float / int] on scalars: a zero divisor raises. *)
Definition py_truediv (a : float) (n : Z) : result float :=
  if n =? 0 then Error ZeroDivisionError
  else Ok (fdiv_r float64 a (int_to_float n)).



(** [a < b], false as soon as one side is [nan]. *)
Definition fltb (a b : float) : bool :=
  match a, b with
  | NaN, _ | _, NaN => false
  | Fin x, Fin y => match (x ?= y)%Q with Lt => true | _ => false end
  | NInf, NInf => false
  | NInf, _ => true
  | _, NInf => false
  | PInf, _ => false
  | Fin _, PInf => true
  end.

Definition flt (a b : float) : Prop := fltb a b = true.

(** [a <= b], false as soon as one side is [nan]. *)
Definition fleb (a b : float) : bool :=
  match a, b with
  | NaN, _ | _, NaN => false
  | NInf, _ | _, PInf => true
  | Fin x, Fin y => Qle_bool x y
  | _, _ => false
  end.

Definition fle (a b : float) : Prop := fleb a b = true.

(** [numpy.maximum]: [nan] wins. *)
Definition fmax (a b : float) : float :=
  match a, b with
  | NaN, _ | _, NaN => NaN
  | _, _ => if fltb a b then b else a
  end.

(** [a.max()] of a one-dimensional array. *)
Definition amax (a : list float) : result float :=
  match a with
  | [] => Error ValueError
  | v :: a' => Ok (fold_left fmax a' v)
  end.

(** [numpy.arange(n)] for an integer [n]: empty when [n <= 0]. *)
Definition arange (n : Z) : list Z :=
  map Z.of_nat (seq 0 (Z.to_nat n)).

(** ** The frequency axis ([MSNoise.__init__]) *)

(** What [msutils.summary] hands to [__init__]: the entries of [msinfo] the
    class reads, as Python lists of floats and integers. *)
Record spw_info : Type := mk_spw_info {
  REF_FREQUENCY : list float;
  TOTAL_BANDWIDTH : list float;
  NUM_CHAN : list Z
}.

Record ms_info : Type := mk_ms_info {
  NROW : Z;
  NCOR : Z;
  SPW : spw_info
}.

Record MSNoise : Type := mk_MSNoise {
  ms : string;
  msinfo : ms_info;
  nrows : Z;
  ncor : Z;
  nchan : Z;
  freqs : list float
}.

(** The body of [for spwid,nc in enumerate(nchan)], for one window: the
    entries of [msinfo] are Python floats and the array [numpy.arange(nc)]
    becomes one of doubles, so line 59 is double arithmetic. *)
Definition spw_freqs (freq0 bw : list float) (spwid : nat) (nc : Z)
  : result (list float) :=
  (let! b := getitem bw spwid in
   let! dfreq := py_truediv b nc in
   let! f0 := getitem freq0 spwid in
   Ok (map (fun j => fadd_r float64 f0 (fmul_r float64 (int_to_float j) dfreq))
           (arange nc)))%result.

(** The loop, from window [spwid] on, extending [acc] ([freqs += ...]). *)
Fixpoint combine_spws (freq0 bw : list float) (spwid : nat) (nchans : list Z)
    (acc : list float) : result (list float) :=
  match nchans with
  | [] => Ok acc
  | nc :: rest =>
      (let! fs := spw_freqs freq0 bw spwid nc in
       combine_spws freq0 bw (S spwid) rest (acc ++ fs))%result
  end.

(** Line 62 takes the length of the list, line 63 stores the list as an
    array of [float32]. *)
Definition __init__ (ms : string) (info : ms_info) : result MSNoise :=
  let freq0 := REF_FREQUENCY (SPW info) in
  let bw := TOTAL_BANDWIDTH (SPW info) in
  let nchan := NUM_CHAN (SPW info) in
  (let! freqs := combine_spws freq0 bw 0 nchan [] in
   Ok {| ms := ms; msinfo := info;
         nrows := NROW info; ncor := NCOR info;
         nchan := Z.of_nat (length freqs);
         freqs := map (round_to float32) freqs |})%result.

(** The axis as the specification words it: window [(ref_freq, bandwidth,
    nchan)] contributes [ref_freq + j * (bandwidth / nchan)] for
    [j = 0 .. nchan - 1]. *)
Definition window_axis (w : float * float * Z) : list float :=
  let '(ref_freq, bandwidth, n) := w in
  map (fun j => fadd ref_freq (fmul (of_int j) (fdiv bandwidth (of_int n))))
      (arange n).

Definition frequency_axis (spws : list (float * float * Z)) : list float :=
  concat (map window_axis spws).

(** The summary of a measurement set whose spectral windows are [spws]. *)
Definition summary_of (nrow ncor : Z) (spws : list (float * float * Z))
  : ms_info :=
  {| NROW := nrow; NCOR := ncor;
     SPW := {| REF_FREQUENCY := map (fun w => fst (fst w)) spws;
               TOTAL_BANDWIDTH := map (fun w => snd (fst w)) spws;
               NUM_CHAN := map snd spws |} |}.

Definition positive_bandwidth (w : float * float * Z) : Prop :=
  exists f b : Q, fst (fst w) = Fin f /\ snd (fst w) = Fin b /\ (0 < b)%Q.

(** The axis as the code computes it: the value of channel [j] of window
    [w] in double precision, and the [float32] that is stored. *)
Definition double_frequency (w : float * float * Z) (j : Z) : float :=
  let '(ref_freq, bandwidth, n) := w in
  fadd_r float64 ref_freq
    (fmul_r float64 (int_to_float j)
       (fdiv_r float64 bandwidth (int_to_float n))).

Definition channel_frequency (w : float * float * Z) (j : Z) : float :=
  round_to float32 (double_frequency w j).

Definition stored_window (w : float * float * Z) : list float :=
  map (channel_frequency w) (arange (snd w)).

(** Where the channels of window [i] start on the axis. *)
Definition window_start (spws : list (float * float * Z)) (i : nat) : nat :=
  length (concat (map stored_window (take i spws))).

(** A number a Python float can hold. *)
Definition python_float (a : float) : Prop := round_to float64 a = a.

(** A window of positive bandwidth as a measurement set has it: the
    bandwidth is a Python float and the channel count fits [numpy.arange]. *)
Definition regular_window (w : float * float * Z) : Prop :=
  positive_bandwidth w /\ python_float (snd (fst w)) /\ snd w < 2 ^ 63.

(** ** Arrays, the heap and the state monad *)

(** A numpy array of dimension 0, 1 or 2 (a two-dimensional one as its list of
    rows), or the nested Python list it is built from. *)
Inductive ndarray : Type :=
  | Arr0 (v : float)
  | Arr1 (a : list float)
  | Arr2 (rows : list (list float)).

(** Arrays are objects: the caller and the callee may hold the same one.  The
    heap maps a location to the array stored there; a fresh array is put at
    the end. *)
Definition loc : Type := nat.
Abbreviation heap := (list ndarray).

(** The argument [stats_data] is dynamically typed. *)
Inductive pyobj : Type :=
  | PyNone
  | PyBool (b : bool)
  | PyStr (s : string)
  | PyRef (l : loc).

(** Code with side effects threads a state (the heap here, the calls made on
    the table for the writer) and may raise. *)
Definition State (S A : Type) : Type := S -> result A * S.

Definition mret {S A : Type} (a : A) : State S A := fun s => (Ok a, s).

Definition mbind {S A B : Type} (m : State S A) (k : A -> State S B)
  : State S B :=
  fun s =>
    match m s with
    | (Ok a, s') => k a s'
    | (Error e, s') => (Error e, s')
    end.

Definition lift {S A : Type} (r : result A) : State S A := fun s => (r, s).

Definition M (A : Type) : Type := State heap A.

Declare Scope M_scope.
Delimit Scope M_scope with M.
Notation "'let!' x ':=' r 'in' k" := (mbind r (fun x => k)) : M_scope.

(** A new array object. *)
Definition new (a : ndarray) : M loc :=
  fun h => (Ok (length h), h ++ [a]).

Definition deref (l : loc) : M ndarray :=
  fun h => (getitem h l, h).

Definition assign (l : loc) (a : ndarray) : M unit :=
  fun h => (Ok tt, <[l := a]> h).

Fixpoint mapM {A B : Type} (f : A -> result B) (l : list A)
  : result (list B) :=
  match l with
  | [] => Ok []
  | a :: l' =>
      (let! b := f a in
       let! bs := mapM f l' in
       Ok (b :: bs))%result
  end.

(** All rows as long as the first one. *)
Definition rectangular (rows : list (list float)) : bool :=
  match rows with
  | [] => true
  | r :: rows' => forallb (fun r' => (length r' =? length r)%nat) rows'
  end.

(** [numpy.array(obj, dtype=numpy.float32)]: always a new array; a ragged
    nested list is refused. *)
Definition numpy_array (o : ndarray) : result ndarray :=
  match o with
  | Arr2 rows => if rectangular rows then Ok o else Error ValueError
  | _ => Ok o
  end.

(** [a[:,c]]: needs two dimensions and more than [c] columns. *)
Definition column (a : ndarray) (c : nat) : result (list float) :=
  match a with
  | Arr2 (r :: rows) => mapM (fun row => getitem row c) (r :: rows)
  | _ => Error IndexError
  end.

Fixpoint set_column_rows (rows : list (list float)) (c : nat)
    (vals : list float) : list (list float) :=
  match rows, vals with
  | r :: rows', v :: vals' => <[c := v]> r :: set_column_rows rows' c vals'
  | _, _ => rows
  end.

(** Writing through the view [a[:,c]]. *)
Definition set_column (a : ndarray) (c : nat) (vals : list float) : ndarray :=
  match a with
  | Arr2 rows => Arr2 (set_column_rows rows c vals)
  | _ => a
  end.

(** ** numpy.poly1d *)

Definition is_zero (a : float) : bool :=
  match a with
  | Fin q => (Qnum q =? 0)%Z
  | _ => false
  end.

(** [trim_zeros(c, trim='f')] *)
Fixpoint trim_zeros (c : list float) : list float :=
  match c with
  | [] => []
  | a :: c' => if is_zero a then trim_zeros c' else c
  end.

(** The coefficients [numpy.poly1d(c)] keeps, highest degree first. *)
Definition poly1d (c : list float) : list float :=
  match trim_zeros c with
  | [] => [fzero]
  | p => p
  end.

(** [numpy.polyval(p, x)] at one point: Horner's scheme from zero. *)
Definition polyval (p : list float) (x : float) : float :=
  fold_left (fun y pv => fadd (fmul y x) pv) p fzero.

(** ** The noise and weight estimator ([MSNoise.estimate_weights]) *)

Definition MHz : float := Fin (1 # 1000000).

(** [plot_stats] is a flag or the name of the file for the figure. *)
Inductive plot_arg : Type :=
  | PlotFlag (b : bool)
  | PlotFile (path : string).

(** [if plot_stats:] *)
Definition truthy (p : plot_arg) : bool :=
  match p with
  | PlotFlag b => b
  | PlotFile path => negb (String.eqb path "")
  end.

Section Estimator.

(** [numpy.load]: the array stored in a file, if it can be read. *)
Variable numpy_load : string -> result ndarray.
(** [numpy.polyfit(x, y, deg)]: coefficients, highest degree first. *)
Variable polyfit : list float -> list float -> Z -> result (list float).
(** [scipy.interpolate.splrep(x, y, s=...)] and [splev] at one point. *)
Variable tck : Type.
Variable splrep : list float -> list float -> Z -> result tck.
Variable splev1 : tck -> float -> result float.
(** Lines 131 to 149: the figure drawn from [x], [y], the frequencies, the
    noise, the weights and the fit order, saved under a file name. *)
Variable plot_noise_weights :
  list float -> list float -> list float -> list float -> list float ->
  Z -> string -> result unit.
(** The dtype of the array [noise] the fit returns: numpy computes
    [1.0/noise**2] in that precision. *)
Variable noise_dtype : dtype.

(** [numpy.array(stats_data, dtype=numpy.float32)] for an argument that is
    not a string. *)
Definition array_of (stats_data : pyobj) : M ndarray :=
  match stats_data with
  | PyNone => mret (Arr0 NaN)
  | PyBool b => mret (Arr0 (if b then fone else fzero))
  | PyStr _ => lift (Error ValueError)
  | PyRef l => (let! o := deref l in lift (numpy_array o))%M
  end.

(** Lines 100 to 104: [__data], a new array object in both branches. *)
Definition load_data (stats_data : pyobj) : M loc :=
  match stats_data with
  | PyStr path => (let! a := lift (numpy_load path) in new a)%M
  | _ => (let! a := array_of stats_data in new a)%M
  end.

(** Line 113, [y /= y.max()], where [y] is the view [__data[:,1]]. *)
Definition normalise_inplace (data : loc) : M unit :=
  (let! a := deref data in
   let! y := lift (column a 1) in
   let! m := lift (amax y) in
   assign data (set_column a 1 (map (fun v => fdiv v m) y)))%M.

(** Lines 118 to 125. *)
Definition fit_noise (smooth : string) (x y : list float) (fit_order : Z)
    (freqs : list float) : result (list float) :=
  if String.eqb smooth "polyn" then
    (let! fit_parms := polyfit x y fit_order in
     Ok (map (polyval (poly1d fit_parms)) freqs))%result
  else if String.eqb smooth "spline" then
    (let! fit_parms := splrep x y fit_order in
     mapM (splev1 fit_parms) freqs)%result
  else Error UnboundLocalError.

(** Line 127, [1.0/noise**2]: numpy squares each element and divides 1.0
    by the square in the precision of the array [noise]. *)
Definition weights_of_noise (noise : list float) : list float :=
  map (fun n => fdiv_r noise_dtype fone (fmul_r noise_dtype n n)) noise.

Definition plot_file (self : MSNoise) (plot_stats : plot_arg) : string :=
  match plot_stats with
  | PlotFile path => path
  | PlotFlag _ => (ms self ++ "-noise_weights.png")%string
  end.

Definition estimate_weights (self : MSNoise) (mode : string)
    (stats_data : pyobj) (normalise : bool) (smooth : string)
    (fit_order : Z) (plot_stats : plot_arg)
  : M (list float * list float) :=
  (let! data := load_data stats_data in
   let! a := deref data in
   let! x := lift (column a 0) in
   let! _ := lift (column a 1) in
   let! _ := (if normalise then normalise_inplace data else mret tt) in
   let x := map (fun v => fmul v MHz) x in
   let freqs' := map (fun v => fmul v MHz) (freqs self) in
   let! a := deref data in
   let! y := lift (column a 1) in
   let! noise := lift (fit_noise smooth x y fit_order freqs') in
   let weights := weights_of_noise noise in
   let! _ := (if truthy plot_stats
              then lift (plot_noise_weights x y (freqs self) noise weights
                           fit_order (plot_file self plot_stats))
              else mret tt) in
   mret (noise, weights))%M.

(** The sensitivity curve loads as the array [a], a new object, whose
    columns are [x] and [y], the maximum of [y] being [m]. *)
Definition curve_loads (stats_data : pyobj) (h : heap) (a : ndarray)
    (x y : list float) (m : float) : Prop :=
  load_data stats_data h = (Ok (length h), h ++ [a]) /\
  column a 0 = Ok x /\ column a 1 = Ok y /\ amax y = Ok m.

End Estimator.

(** What the fit is given as [y] when the column [__data[:,1]] holds [y] with
    maximum [m], and the array [__data] ends as. *)
Definition fitted_y (normalise : bool) (y : list float) (m : float)
  : list float :=
  if normalise then map (fun v => fdiv v m) y else y.

Definition final_data (normalise : bool) (a : ndarray) (y : list float)
    (m : float) : ndarray :=
  if normalise then set_column a 1 (fitted_y normalise y m) else a.

(** ** The weight writer ([MSNoise.write_toms]) *)

Definition cube (A : Type) : Type := list (list (list A)).

(** What [putcol] is given: the cube of the spectral column or the matrix of
    the scalar column. *)
Inductive coldata : Type :=
  | Spectral (c : cube float)
  | Scalar (m : list (list float)).

(** The calls made on the storage engine, in the order they are made. *)
Inductive call : Type :=
  | Addcol (msname colname : string) (shape : list Z)
  | Open (msname : string)
  | Getcol (colname : string) (row0 nr : Z)
  | Putcol (colname : string) (data : coldata) (row0 nr : Z)
  | Close.

Definition W (A : Type) : Type := State (list call) A.

(** [range(start, stop, step)] of Python 2: the list of its values. *)
Definition py_range (start stop step : Z) : result (list Z) :=
  if step =? 0 then Error ValueError
  else
    let n := if 0 <? step
             then (stop - start + step - 1) / step
             else (start - stop - step - 1) / (- step) in
    Ok (map (fun i => start + Z.of_nat i * step) (seq 0 (Z.to_nat n))).

(** The length of the broadcast of two axes. *)
Definition broadcast (a b : nat) : result nat :=
  if (a =? b)%nat then Ok a
  else if (a =? 1)%nat then Ok b
  else if (b =? 1)%nat then Ok a
  else Error ValueError.

(** Line 187: [numpy.ones(dshape) * data[newaxis,:,newaxis]]. *)
Definition ones_times (nr nchan ncor : Z) (data : list float)
  : result (cube float) :=
  if (nr <? 0) || (nchan <? 0) || (ncor <? 0) then Error ValueError
  else
    (let! c := broadcast (Z.to_nat nchan) (length data) in
     let at_chan := fun j =>
       fmul fone (nth (if (length data =? 1)%nat then 0%nat else j)
                      data fzero) in
     Ok (replicate (Z.to_nat nr)
           (map (fun j => replicate (Z.to_nat ncor) (at_chan j))
                (seq 0 c))))%result.

(** [k] consecutive pieces of length [n]. *)
Fixpoint chunks {A : Type} (n k : nat) (l : list A) : list (list A) :=
  match k with
  | O => []
  | S k' => take n l :: chunks n k' (drop n l)
  end.

Definition reshape3 {A : Type} (d1 d2 d3 : nat) (flat : list A) : cube A :=
  map (chunks d3 d2) (chunks (d2 * d3) d1 flat).

(** The mask [ma.masked_array(data, mask=flags)] gives to data of shape
    [(d1, d2, d3)]: a mask of the same size takes the shape of the data, a
    mask of one element is repeated, any other is refused. *)
Definition mask_for (d1 d2 d3 : nat) (flags : cube bool)
  : result (cube bool) :=
  let flat := concat (concat flags) in
  if (length flat =? d1 * d2 * d3)%nat then Ok (reshape3 d1 d2 d3 flat)
  else if (length flat =? 1)%nat
       then Ok (reshape3 d1 d2 d3 (replicate (d1 * d2 * d3) (nth 0 flat false)))
       else Error MaskError.

(** [mdata.filled(0)] *)
Definition filled0 (data : cube float) (mask : cube bool) : cube float :=
  zip_with (zip_with (zip_with (fun v (m : bool) => if m then fzero else v)))
           data mask.

(** [a.sum(axis=1)] of an array of shape [(_, _, d3)]. *)
Definition sum_axis1 (d3 : nat) (a : cube float) : list (list float) :=
  map (fun chans =>
         map (fun k => fold_left fadd (map (fun ch => nth k ch fzero) chans)
                                 fzero)
             (seq 0 d3))
      a.

(** [mdata.sum(axis=1).data]: the sum of the data with zero at the masked
    places. *)
Definition masked_sum (d3 : nat) (data : cube float) (mask : cube bool)
  : list (list float) :=
  sum_axis1 d3 (filled0 data mask).

Section Writer.

(** The storage engine.  Each routine sees the calls made before it. *)
Variable addcol : list call -> string -> string -> list Z -> result unit.
Variable table : list call -> string -> result unit.
Variable getcol : list call -> string -> Z -> Z -> result (cube bool).
Variable putcol : list call -> string -> coldata -> Z -> Z -> result unit.
Variable close : list call -> result unit.
(** [mdata.std(axis=1).data] *)
Variable masked_std : cube float -> cube bool -> list (list float).

Definition msutils_addcol (msname colname : string) (shape : list Z)
  : W unit :=
  fun tr => (addcol tr msname colname shape,
             tr ++ [Addcol msname colname shape]).

Definition table_open (msname : string) : W unit :=
  fun tr => (table tr msname, tr ++ [Open msname]).

Definition tab_getcol (colname : string) (row0 nr : Z) : W (cube bool) :=
  fun tr => (getcol tr colname row0 nr, tr ++ [Getcol colname row0 nr]).

Definition tab_putcol (colname : string) (data : coldata) (row0 nr : Z)
  : W unit :=
  fun tr => (putcol tr colname data row0 nr,
             tr ++ [Putcol colname data row0 nr]).

Definition tab_close : W unit :=
  fun tr => (close tr, tr ++ [Close]).

(** Lines 173 to 178: [zip] stops at the shorter of the two. *)
Fixpoint init_columns (msname : string) (cols : list (string * list Z))
  : W unit :=
  match cols with
  | [] => mret tt
  | (column, shape) :: rest =>
      (let! _ := msutils_addcol msname column shape in
       init_columns msname rest)%M
  end.

(** Lines 184 to 199: the body of the loop, for the chunk at [row0]. *)
Definition write_chunk (self : MSNoise) (data : list float)
    (columns : list string) (stat : string) (rowchunk row0 : Z) : W unit :=
  (let nr := Z.min rowchunk (nrows self - row0) in
   let! __data := lift (ones_times nr (nchan self) (ncor self) data) in
   let! flags := tab_getcol "FLAG" row0 nr in
   let! mask := lift (mask_for (length __data)
                        (length (nth 0 __data []))
                        (Z.to_nat (ncor self)) flags) in
   let! spectral := lift (getitem columns 1) in
   let! _ := tab_putcol spectral (Spectral __data) row0 nr in
   let! scalar := lift (getitem columns 0) in
   if String.eqb stat "stddev" then
     tab_putcol scalar (Scalar (masked_std __data mask)) row0 nr
   else if String.eqb stat "sum" then
     tab_putcol scalar
       (Scalar (masked_sum (Z.to_nat (ncor self)) __data mask)) row0 nr
   else mret tt)%M.

Fixpoint write_chunks (self : MSNoise) (data : list float)
    (columns : list string) (stat : string) (rowchunk : Z)
    (offsets : list Z) : W unit :=
  match offsets with
  | [] => mret tt
  | row0 :: rest =>
      (let! _ := write_chunk self data columns stat rowchunk row0 in
       write_chunks self data columns stat rowchunk rest)%M
  end.

(** [rowchunk or self.nrows/10] *)
Definition chunk_size (self : MSNoise) (rowchunk : option Z) : Z :=
  match rowchunk with
  | Some k => if k =? 0 then nrows self / 10 else k
  | None => nrows self / 10
  end.

Definition write_toms (self : MSNoise) (data : list float)
    (columns : list string) (stat : string) (rowchunk : option Z)
  : W unit :=
  (let shapes := [[ncor self]; [nchan self; ncor self]] in
   let! _ := init_columns (ms self) (zip columns shapes) in
   let! _ := table_open (ms self) in
   let rowchunk := chunk_size self rowchunk in
   let! offsets := lift (py_range 0 (nrows self) rowchunk) in
   let! _ := write_chunks self data columns stat rowchunk offsets in
   tab_close)%M.

End Writer.

(** ** Reading the calls made by the writer *)

(** What a chunk does with the table: it reads the flags of its rows, writes
    the spectral column, writes the scalar column. *)
Inductive phase : Type :=
  | ReadFlags
  | WriteSpectral
  | WriteScalar.

Definition phase_rank (p : phase) : Z :=
  match p with
  | ReadFlags => 0
  | WriteSpectral => 1
  | WriteScalar => 2
  end.

(** An access to the rows of the table: the row offset, the row count, and
    what is done. *)
Definition access : Type := Z * Z * phase.

Definition access_of (c : call) : option access :=
  match c with
  | Getcol _ row0 nr => Some (row0, nr, ReadFlags)
  | Putcol _ (Spectral _) row0 nr => Some (row0, nr, WriteSpectral)
  | Putcol _ (Scalar _) row0 nr => Some (row0, nr, WriteScalar)
  | _ => None
  end.

(** The accesses of a run, in the order they were made. *)
Definition accesses (tr : list call) : list access := omap access_of tr.

(** [a1] comes before [a2]: at a smaller row offset, or on the same rows and
    earlier in the order read, spectral write, scalar write. *)
Definition access_before (a1 a2 : access) : Prop :=
  let '(r1, n1, p1) := a1 in
  let '(r2, n2, p2) := a2 in
  r1 < r2 \/ (r1 = r2 /\ n1 = n2 /\ phase_rank p1 < phase_rank p2).

Definition phase_eqb (p q : phase) : bool := phase_rank p =? phase_rank q.

(** The rows [row0 .. row0 + nr - 1]. *)
Definition row_range (row0 nr : Z) : list Z :=
  map (fun i => row0 + Z.of_nat i) (seq 0 (Z.to_nat nr)).

(** The rows a run reads ([ReadFlags]) or writes to one of the two columns,
    in the order of the calls, a row as often as it is accessed. *)
Definition rows_accessed (p : phase) (tr : list call) : list Z :=
  flat_map (fun a : access =>
              if phase_eqb (snd a) p
              then row_range (fst (fst a)) (snd (fst a)) else [])
           (accesses tr).

(** The accesses of a chunk that goes through. *)
Definition chunk_accesses (self : MSNoise) (rowchunk row0 : Z) : list access :=
  let nr := Z.min rowchunk (nrows self - row0) in
  [(row0, nr, ReadFlags); (row0, nr, WriteSpectral); (row0, nr, WriteScalar)].


Definition is_setup (c : call) : Prop :=
  match c with
  | Addcol _ _ _ | Open _ => True
  | _ => False
  end.

Definition all_flagged (flags : cube bool) : Prop :=
  Forall (fun b => b = true) (concat (concat flags)).

Section WriterTraces.

Variable getcol : list call -> string -> Z -> Z -> result (cube bool).
Variable masked_std : cube float -> cube bool -> list (list float).
Variables (self : MSNoise) (data : list float) (stat : string)
          (rowchunk : Z).

(** The calls one chunk can make, after the calls [tr]: none when the cube
    cannot be built, else the read of the flags, then the spectral write,
    then the scalar write; a failure stops the chunk in between. *)
Inductive chunk_trace (tr : list call) (row0 : Z) : list call -> Prop :=
  | chunk_no_cube : chunk_trace tr row0 []
  | chunk_read (d : cube float) :
      ones_times (Z.min rowchunk (nrows self - row0)) (nchan self)
        (ncor self) data = Ok d ->
      chunk_trace tr row0
        [Getcol "FLAG" row0 (Z.min rowchunk (nrows self - row0))]
  | chunk_spectral (d : cube float) (c : string) :
      ones_times (Z.min rowchunk (nrows self - row0)) (nchan self)
        (ncor self) data = Ok d ->
      chunk_trace tr row0
        [Getcol "FLAG" row0 (Z.min rowchunk (nrows self - row0));
         Putcol c (Spectral d) row0 (Z.min rowchunk (nrows self - row0))]
  | chunk_scalar (d : cube float) (c c' : string) (flags mask : cube bool) :
      ones_times (Z.min rowchunk (nrows self - row0)) (nchan self)
        (ncor self) data = Ok d ->
      getcol tr "FLAG" row0 (Z.min rowchunk (nrows self - row0))
        = Ok flags ->
      mask_for (length d) (length (nth 0 d [])) (Z.to_nat (ncor self))
        flags = Ok mask ->
      chunk_trace tr row0
        [Getcol "FLAG" row0 (Z.min rowchunk (nrows self - row0));
         Putcol c (Spectral d) row0 (Z.min rowchunk (nrows self - row0));
         Putcol c'
           (Scalar (if String.eqb stat "stddev" then masked_std d mask
                    else masked_sum (Z.to_nat (ncor self)) d mask))
           row0 (Z.min rowchunk (nrows self - row0))].

(** The calls of the loop over the chunks at [offsets], after the calls
    [tr]: those of the chunks in turn, up to the last chunk or to the one
    that fails. *)
Inductive loop_trace : list call -> list Z -> list call -> Prop :=
  | loop_done (tr : list call) : loop_trace tr [] []
  | loop_stop (tr : list call) (row0 : Z) (rest : list Z)
      (ev : list call) :
      chunk_trace tr row0 ev -> loop_trace tr (row0 :: rest) ev
  | loop_next (tr : list call) (row0 : Z) (rest : list Z)
      (ev evs : list call) :
      chunk_trace tr row0 ev ->
      loop_trace (tr ++ ev) rest evs ->
      loop_trace tr (row0 :: rest) (ev ++ evs).

(** Where a scalar write comes from: two calls earlier the chunk read the
    flags of the same rows, one call earlier it wrote its cube to the
    spectral column, and the matrix written is the reduction of that cube
    under the mask made from those flags. *)
Definition scalar_write_at (tr0 evs : list call) (i : nat)
    (m : list (list float)) (row0 nr : Z) : Prop :=
  exists (j : nat) (c' : string) (d : cube float) (flags mask : cube bool),
    i = S (S j) /\
    evs !! j = Some (Getcol "FLAG" row0 nr) /\
    evs !! S j = Some (Putcol c' (Spectral d) row0 nr) /\
    ones_times nr (nchan self) (ncor self) data = Ok d /\
    getcol (tr0 ++ take j evs) "FLAG" row0 nr = Ok flags /\
    mask_for (length d) (length (nth 0 d [])) (Z.to_nat (ncor self)) flags
      = Ok mask /\
    m = (if String.eqb stat "stddev" then masked_std d mask
         else masked_sum (Z.to_nat (ncor self)) d mask).

End WriterTraces.

(** ** A store, for evaluation

    Every call on the table succeeds, except [putcol] on the chunk at
    [fail_at]; the rows below [flagged_below] are flagged everywhere.  The
    standard deviation needs square roots, which rationals do not have: it
    is not modelled, and the store is used with [stat='sum']. *)

Module Store.

Definition addcol (tr : list call) (msname colname : string)
    (shape : list Z) : result unit := Ok tt.

Definition table (tr : list call) (msname : string) : result unit := Ok tt.

Definition getcol (nchan ncor flagged_below : Z) (tr : list call)
    (colname : string) (row0 nr : Z) : result (cube bool) :=
  Ok (map (fun row =>
             replicate (Z.to_nat nchan)
               (replicate (Z.to_nat ncor) (row <? flagged_below)))
          (map (fun i => row0 + Z.of_nat i) (seq 0 (Z.to_nat nr)))).

Definition putcol (fail_at : option Z) (tr : list call) (colname : string)
    (data : coldata) (row0 nr : Z) : result unit :=
  match fail_at with
  | Some r => if r =? row0 then Error RuntimeError else Ok tt
  | None => Ok tt
  end.

Definition close (tr : list call) : result unit := Ok tt.

Definition masked_std (data : cube float) (mask : cube bool)
  : list (list float) := [].

Definition write_toms (nchan ncor flagged_below : Z) (fail_at : option Z) :=
  write_toms addcol table (getcol nchan ncor flagged_below)
    (putcol fail_at) close masked_std.

End Store.

(** A measurement set of 4 rows, 2 channels and 1 correlation, whose rows 0
    and 1 are flagged, and one of 5 rows. *)
Module SmallMS.

Definition self : MSNoise :=
  {| ms := "small.ms";
     msinfo := summary_of 4 1 [(of_int 1000000, of_int 2000000, 2)];
     nrows := 4; ncor := 1; nchan := 2;
     freqs := [of_int 1000000; of_int 2000000] |}.

Definition five_rows : MSNoise :=
  {| ms := "five.ms";
     msinfo := summary_of 5 1 [(of_int 1000000, of_int 2000000, 2)];
     nrows := 5; ncor := 1; nchan := 2;
     freqs := [of_int 1000000; of_int 2000000] |}.

Definition weights : list float := [Fin 4; Fin (1 # 4)].

Definition columns : list string := ["WEIGHT"; "WEIGHT_SPECTRUM"]%string.

Definition cube2 : cube float :=
  [[[Fin 4]; [Fin (1 # 4)]]; [[Fin 4]; [Fin (1 # 4)]]].

Definition setup : list call :=
  [Addcol "small.ms" "WEIGHT" [1];
   Addcol "small.ms" "WEIGHT_SPECTRUM" [2; 1];
   Open "small.ms"].

(** The calls of [write_toms(weights, stat='sum', rowchunk=2)]. *)
Definition calls : list call :=
  setup ++
  [Getcol "FLAG" 0 2;
   Putcol "WEIGHT_SPECTRUM" (Spectral cube2) 0 2;
   Putcol "WEIGHT" (Scalar [[Fin 0]; [Fin 0]]) 0 2;
   Getcol "FLAG" 2 2;
   Putcol "WEIGHT_SPECTRUM" (Spectral cube2) 2 2;
   Putcol "WEIGHT" (Scalar [[Fin (17 # 4)]; [Fin (17 # 4)]]) 2 2;
   Close].

End SmallMS.

(** ** An instance of the fit routines, for evaluation

    [numpy.polyfit] solves a least-squares problem.  Without rounding its
    answer, when the Vandermonde matrix has full column rank, is the solution
    of the normal equations, which [lstsq] below computes by Gauss-Jordan
    elimination on rationals.  On a matrix that is not of full rank numpy
    answers with a minimum-norm solution and a warning; that answer is not
    modelled and [polyfit] below raises [NotModelled] there, as it does on
    data that are not all finite.  The spline routines of FITPACK are not
    modelled either. *)

Module Exact.

Inductive no_tck : Type := .

Definition finite (a : float) : option Q :=
  match a with Fin q => Some q | _ => None end.

Fixpoint finites (l : list float) : option (list Q) :=
  match l with
  | [] => Some []
  | a :: l' =>
      match finite a, finites l' with
      | Some q, Some qs => Some (q :: qs)
      | _, _ => None
      end
  end.

(** [[x^(n-1); ...; x; 1]] *)
Fixpoint powers (x : Q) (n : nat) : list Q :=
  match n with
  | O => []
  | S n' => Qred (x ^ Z.of_nat n') :: powers x n'
  end.

Definition vander (x : list Q) (order : nat) : list (list Q) :=
  map (fun v => powers v order) x.

Definition dot (u v : list Q) : Q :=
  Qred (fold_left Qplus (zip_with Qmult u v) 0%Q).

(** Column [j] of a matrix given by rows. *)
Definition col (m : list (list Q)) (j : nat) : list Q :=
  map (fun r => nth j r 0%Q) m.

(** The augmented matrix [[V^T V | V^T y]] of the normal equations. *)
Definition normal_equations (v : list (list Q)) (y : list Q) (order : nat)
  : list (list Q) :=
  map (fun i =>
         map (fun j => dot (col v i) (col v j)) (seq 0 order)
         ++ [dot (col v i) y])
      (seq 0 order).

Definition row_scale (c : Q) (r : list Q) : list Q :=
  map (fun a => Qred (c * a)) r.

(** [r - r[j] * p] *)
Definition row_elim (j : nat) (p r : list Q) : list Q :=
  zip_with (fun a b => Qred (a - nth j r 0%Q * b)) r p.

(** The first row with a non-zero entry in column [j], and the others. *)
Fixpoint find_pivot (j : nat) (rows : list (list Q))
  : option (list Q * list (list Q)) :=
  match rows with
  | [] => None
  | r :: rows' =>
      if Qeq_bool (nth j r 0%Q) 0 then
        match find_pivot j rows' with
        | Some (p, others) => Some (p, r :: others)
        | None => None
        end
      else Some (r, rows')
  end.

(** Gauss-Jordan elimination: [done] holds the rows already reduced, for
    the columns before [j]; [n] columns are left. *)
Fixpoint gauss_jordan (n j : nat) (done rest : list (list Q))
  : option (list (list Q)) :=
  match n with
  | O => Some done
  | S n' =>
      match find_pivot j rest with
      | None => None
      | Some (p, others) =>
          let p' := row_scale (/ nth j p 0%Q) p in
          gauss_jordan n' (S j)
            (map (row_elim j p') done ++ [p'])
            (map (row_elim j p') others)
      end
  end.

Definition lstsq (x y : list Q) (order : nat) : result (list float) :=
  match gauss_jordan order 0 [] (normal_equations (vander x order) y order)
  with
  | Some rows => Ok (map (fun r => Fin (nth order r 0%Q)) rows)
  | None => Error NotModelled
  end.

Definition polyfit (x y : list float) (deg : Z) : result (list float) :=
  if deg <? 0 then Error ValueError
  else if (length x =? 0)%nat then Error TypeError
  else if negb (length x =? length y)%nat then Error TypeError
  else
    match finites x, finites y with
    | Some xs, Some ys => lstsq xs ys (Z.to_nat (deg + 1))
    | _, _ => Error NotModelled
    end.

Definition splrep (x y : list float) (s : Z) : result no_tck :=
  Error NotModelled.

Definition splev1 (t : no_tck) (x : float) : result float :=
  match t with end.

(** No file and no figure: [numpy.load] finds nothing; drawing succeeds. *)
Definition numpy_load (path : string) : result ndarray := Error IOError.

Definition plot_noise_weights (x y freqs noise weights : list float)
    (fit_order : Z) (file : string) : result unit := Ok tt.

(** The fit of doubles is an array of doubles. *)
Definition estimate_weights :=
  estimate_weights numpy_load polyfit no_tck splrep splev1
    plot_noise_weights float64.

End Exact.

(** ** A scenario

    The measurement set of the end-to-end scenario: one spectral window of 4
    channels, 100 MHz wide from 950 MHz, and sensitivity curves for it. *)

Module Scenario.

Definition Hz (z : Z) : float := of_int z.

Definition info : ms_info :=
  summary_of 100 4 [(Hz 950000000, Hz 100000000, 4)].

Definition self : MSNoise :=
  {| ms := "obs.ms"; msinfo := info; nrows := 100; ncor := 4; nchan := 4;
     freqs := [Hz 950000000; Hz 975000000; Hz 1000000000; Hz 1025000000] |}.

(** [[[900e6, 578], [1000e6, 540], [1100e6, 443]]] *)
Definition sefd : ndarray :=
  Arr2 [[Hz 900000000; Fin 578]; [Hz 1000000000; Fin 540];
        [Hz 1100000000; Fin 443]].

(** A curve that is zero everywhere, a constant one and a rising one. *)
Definition zero_curve : ndarray :=
  Arr2 [[Hz 900000000; Fin 0]; [Hz 1100000000; Fin 0]].


Definition rising_curve : ndarray :=
  Arr2 [[Hz 900000000; Fin 2]; [Hz 1100000000; Fin 4]].

(** A constant curve of 115. *)
Definition loud_curve : ndarray :=
  Arr2 [[Hz 900000000; Fin 115]; [Hz 1100000000; Fin 115]].

(** Noise and weights of the scenario, as [Exact.estimate_weights] returns
    them for [sefd], [normalise=True], [smooth='polyn'], [fit_order=2]: the
    fit is exact, the weights are rounded as line 127 rounds them. *)
Definition noise : list float :=
  [Fin (4531 # 4624); Fin (17761 # 18496); Fin (270 # 289);
   Fin (16681 # 18496)].

(** The weights are doubles: 1.0414718274428285, 1.0844781465959883,
    1.1456927297668038 and 1.229451691388341. *)
Definition weights : list float :=
  [Fin (586296516748549 # 562949953421312);
   Fin (4884055376901139 # 4503599627370496);
   Fin (322483834428679 # 281474976710656);
   Fin (5536958179206559 # 4503599627370496)].

Definition sefd_normalised : ndarray :=
  Arr2 [[Hz 900000000; Fin 1]; [Hz 1000000000; Fin (270 # 289)];
        [Hz 1100000000; Fin (443 # 578)]].

End Scenario.

(** ** Vocabulary of the further properties *)

(** [v] is a frequency of the band of window [w] as [float32] shows it:
    from the reference frequency to the reference frequency plus the
    bandwidth (a sum of doubles), both stored as [float32]. *)
Definition in_stored_band (w : float * float * Z) (v : float) : Prop :=
  fle (round_to float32 (fst (fst w))) v /\
  fle v (round_to float32 (fadd_r float64 (fst (fst w)) (snd (fst w)))).

(** A window as a measurement set has it: the reference frequency and the
    bandwidth are Python floats, the bandwidth is positive, the channel
    count is positive and a double holds it exactly, and the channel width
    is not a subnormal number. *)
Definition standard_window (w : float * float * Z) : Prop :=
  exists f b : Q,
    fst (fst w) = Fin f /\ snd (fst w) = Fin b /\
    python_float (Fin f) /\ python_float (Fin b) /\ (0 < b)%Q /\
    0 < snd w <= 2 ^ 53 /\
    (pow2 (2 - emax float64) <= b / inject_Z (snd w))%Q.

(** A weight that is zero or more, [+inf] or [nan]. *)
Definition not_negative (w : float) : Prop :=
  match w with
  | Fin q => (0 <= q)%Q
  | PInf | NaN => True
  | NInf => False
  end.

(** A display that cannot draw: the plotting block raises. *)
Definition no_display (x y freqs noise weights : list float) (fit_order : Z)
    (file : string) : result unit := Error IOError.

(** [stat] is one of the two statistics [write_toms] knows. *)
Definition known_stat (stat : string) : bool :=
  String.eqb stat "stddev" || String.eqb stat "sum".

(** What the chunk at [row0] does with the table when nothing fails: it reads
    the flags, writes the spectral column and, for a known statistic, the
    scalar column. *)
Definition chunk_plan (self : MSNoise) (stat : string) (rowchunk row0 : Z)
  : list access :=
  let nr := Z.min rowchunk (nrows self - row0) in
  (row0, nr, ReadFlags) :: (row0, nr, WriteSpectral)
  :: (if known_stat stat then [(row0, nr, WriteScalar)] else []).

(** The row offsets of the loop: the range of line 183, empty when [range]
    refuses its step. *)
Definition offsets_of (self : MSNoise) (rowchunk : option Z) : list Z :=
  match py_range 0 (nrows self) (chunk_size self rowchunk) with
  | Ok offsets => offsets
  | Error _ => []
  end.

(** What a whole run does with the rows of the table when nothing fails. *)
Definition plan (self : MSNoise) (stat : string) (rowchunk : option Z)
  : list access :=
  flat_map (chunk_plan self stat (chunk_size self rowchunk))
           (offsets_of self rowchunk).

(** A call as [write_toms] makes it: a column of [columns] is created with
    the shape of its place, flags are read from [FLAG], the spectral column
    [columns[1]] is given the cube built from the weights and the scalar
    column [columns[0]] a matrix. *)
Definition call_wf (self : MSNoise) (data : list float)
    (columns : list string) (c : call) : Prop :=
  match c with
  | Addcol msname name shape =>
      msname = ms self /\
      ((getitem columns 0 = Ok name /\ shape = [ncor self]) \/
       (getitem columns 1 = Ok name /\ shape = [nchan self; ncor self]))
  | Open msname => msname = ms self
  | Getcol name _ _ => name = "FLAG"%string
  | Putcol name (Spectral d) _ nr =>
      getitem columns 1 = Ok name /\
      ones_times nr (nchan self) (ncor self) data = Ok d
  | Putcol name (Scalar _) _ _ => getitem columns 0 = Ok name
  | Close => True
  end.



(** ** Properties of the rounding *)

Lemma pow2_pos (e : Z) : (0 < pow2 e)%Q.
Proof. apply Qpower_0_lt. reflexivity. Qed.

Lemma pow2_add (a b : Z) : (pow2 (a + b) == pow2 a * pow2 b)%Q.
Proof. apply Qpower_plus. discriminate. Qed.

Lemma pow2_le (a b : Z) : a <= b -> (pow2 a <= pow2 b)%Q.
Proof. intros H. apply Qpower_le_compat_l; [exact H | discriminate]. Qed.

Lemma pow2_lt (a b : Z) : a < b -> (pow2 a < pow2 b)%Q.
Proof. intros H. apply Qpower_lt_compat_l; [exact H | reflexivity]. Qed.

Lemma pow2_lt_inv (a b : Z) : (pow2 a < pow2 b)%Q -> a < b.
Proof. intros H. eapply Qpower_lt_compat_l_inv; [exact H | reflexivity]. Qed.

Lemma pow2_Z (e : Z) : 0 <= e -> (pow2 e == inject_Z (2 ^ e))%Q.
Proof. intros H. unfold pow2. now rewrite Zpower_Qpower. Qed.

Lemma pow2_succ (a : Z) : (pow2 (a + 1) == 2 * pow2 a)%Q.
Proof. rewrite pow2_add. unfold pow2 at 2. rewrite Qpower_1_r. ring. Qed.

(** [ilog2] *)
Lemma ilog2_spec (q : Q) :
  (0 < q)%Q -> (pow2 (ilog2 q) <= q)%Q /\ (q < pow2 (ilog2 q + 1))%Q.
Proof.
  intros Hq. unfold ilog2.
  destruct q as [n d]. cbn [Qnum Qden].
  assert (Hn : 0 < n) by (unfold Qlt in Hq; simpl in Hq; lia).
  set (a := Z.log2 n). set (b := Z.log2 (Z.pos d)).
  destruct (Z.log2_spec n Hn) as [Ha1 Ha2].
  destruct (Z.log2_spec (Z.pos d) eq_refl) as [Hb1 Hb2].
  fold a in Ha1, Ha2. fold b in Hb1, Hb2.
  assert (Ha0 : 0 <= a) by apply Z.log2_nonneg.
  assert (Hb0 : 0 <= b) by apply Z.log2_nonneg.
  assert (Hq' : (n # d == inject_Z n / inject_Z (Z.pos d))%Q)
    by apply Qmake_Qdiv.
  assert (Hd : (0 < inject_Z (Z.pos d))%Q) by reflexivity.
  (* bounds of n and d as rationals *)
  assert (Hna : (pow2 a <= inject_Z n)%Q)
    by (rewrite pow2_Z by lia; now rewrite <- Zle_Qle).
  assert (Hna' : (inject_Z n < pow2 (a + 1))%Q).
  { rewrite pow2_Z by lia. rewrite <- Zlt_Qlt.
    now replace (a + 1) with (Z.succ a) by lia. }
  assert (Hdb : (pow2 b <= inject_Z (Z.pos d))%Q)
    by (rewrite pow2_Z by lia; now rewrite <- Zle_Qle).
  assert (Hdb' : (inject_Z (Z.pos d) < pow2 (b + 1))%Q).
  { rewrite pow2_Z by lia. rewrite <- Zlt_Qlt.
    now replace (b + 1) with (Z.succ b) by lia. }
  pose proof (pow2_pos a) as Hpa. pose proof (pow2_pos b) as Hpb.
  pose proof (pow2_pos (a - b)) as Hpab.
  assert (Hup : (n # d < pow2 (a - b + 1))%Q).
  { rewrite Hq'. apply Qlt_shift_div_r; [exact Hd|].
    pose proof (pow2_add (a - b + 1) b) as Hsplit.
    replace (a - b + 1 + b) with (a + 1) in Hsplit by lia.
    pose proof (pow2_pos (a - b + 1)) as Hp1.
    nra. }
  assert (Hlow : (pow2 (a - b - 1) <= n # d)%Q).
  { rewrite Hq'. apply Qle_shift_div_l; [exact Hd|].
    pose proof (pow2_add (a - b - 1) (b + 1)) as Hsplit.
    replace (a - b - 1 + (b + 1)) with a in Hsplit by lia.
    pose proof (pow2_pos (a - b - 1)) as Hp1.
    nra. }
  destruct (Qle_bool (pow2 (a - b)) (n # d)) eqn:Hc.
  - apply Qle_bool_iff in Hc. split; assumption.
  - split; [exact Hlow|].
    replace (a - b - 1 + 1) with (a - b) by lia.
    apply Qnot_le_lt. intros Hle. apply Qle_bool_iff in Hle. congruence.
Qed.

(** [rne] *)
Lemma rne_cases (q : Q) :
  let f := Qfloor q in
  (inject_Z f <= q)%Q /\ (q < inject_Z f + 1)%Q /\
  ((rne q = f /\ (q - inject_Z f <= 1 # 2)%Q) \/
   (rne q = f + 1 /\ (1 # 2 <= q - inject_Z f)%Q)) /\
  ((q - inject_Z f < 1 # 2)%Q -> rne q = f) /\
  ((1 # 2 < q - inject_Z f)%Q -> rne q = f + 1) /\
  ((q - inject_Z f == 1 # 2)%Q -> rne q = if Z.even f then f else f + 1).
Proof.
  intros f. pose proof (Qfloor_le q) as Hlo. pose proof (Qlt_floor q) as Hhi.
  fold f in Hlo, Hhi. rewrite inject_Z_plus in Hhi.
  change (inject_Z 1) with 1%Q in Hhi.
  split; [exact Hlo|]. split; [exact Hhi|].
  unfold rne. fold f.
  destruct (Qcompare_spec (q - inject_Z f) (1 # 2)) as [He|Hl|Hg].
  - split; [|split; [|split]].
    + destruct (Z.even f); [left|right]; split; try reflexivity; lra.
    + intros H. lra.
    + intros H. lra.
    + reflexivity.
  - split; [|split; [|split]].
    + left. split; [reflexivity|lra].
    + reflexivity.
    + intros H. lra.
    + intros H. lra.
  - split; [|split; [|split]].
    + right. split; [reflexivity|lra].
    + intros H. lra.
    + reflexivity.
    + intros H. lra.
Qed.

Lemma rne_error (q : Q) :
  (inject_Z (rne q) - q <= 1 # 2)%Q /\ (q - inject_Z (rne q) <= 1 # 2)%Q.
Proof.
  destruct (rne_cases q) as (Hlo & Hhi & [[-> H]|[-> H]] & _).
  - split; lra.
  - rewrite inject_Z_plus. change (inject_Z 1) with 1%Q. split; lra.
Qed.

Lemma rne_Z (z : Z) : rne (inject_Z z) = z.
Proof.
  destruct (rne_cases (inject_Z z)) as (_ & _ & _ & H & _).
  rewrite Qfloor_Z in H. apply H. lra.
Qed.

Lemma rne_mono (p q : Q) : (p <= q)%Q -> rne p <= rne q.
Proof.
  intros Hpq.
  pose proof (Qfloor_resp_le _ _ Hpq) as Hf.
  destruct (rne_cases p) as (Hplo & Hphi & Hp & Hp1 & Hp2 & Hp3).
  destruct (rne_cases q) as (Hqlo & Hqhi & Hq & Hq1 & Hq2 & Hq3).
  destruct (Z.eq_dec (Qfloor p) (Qfloor q)) as [Heq|Hne].
  - rewrite Heq in *.
    destruct (Qcompare_spec (p - inject_Z (Qfloor q)) (1 # 2)) as [He|Hl|Hg].
    + rewrite (Hp3 He).
      destruct (Qcompare_spec (q - inject_Z (Qfloor q)) (1 # 2))
        as [He'|Hl'|Hg'].
      * rewrite (Hq3 He'). lia.
      * lra.
      * rewrite (Hq2 Hg'). destruct (Z.even (Qfloor q)); lia.
    + rewrite (Hp1 Hl). destruct Hq as [[-> _]|[-> _]]; lia.
    + rewrite (Hp2 Hg). rewrite Hq2 by lra. lia.
  - destruct Hp as [[-> _]|[-> _]], Hq as [[-> _]|[-> _]]; lia.
Qed.

#[global] Instance rne_comp : Proper (Qeq ==> eq) rne.
Proof.
  intros p q Hpq. apply Z.le_antisymm; apply rne_mono; rewrite Hpq; lra.
Qed.

(** [round_pos] *)
Lemma ulp_exp_normal (t : dtype) (q : Q) :
  (pow2 (emin t + prec t - 1) <= q)%Q ->
  ulp_exp t q = ilog2 q - prec t + 1.
Proof.
  intros Hq.
  assert (H0 : (0 < q)%Q)
    by (eapply Qlt_le_trans; [apply pow2_pos | exact Hq]).
  destruct (ilog2_spec q H0) as [_ Hup].
  assert (Hlt : (pow2 (emin t + prec t - 1) < pow2 (ilog2 q + 1))%Q)
    by (eapply Qle_lt_trans; eassumption).
  apply pow2_lt_inv in Hlt. unfold ulp_exp. lia.
Qed.

Lemma round_pos_error (t : dtype) (q : Q) :
  (0 < q)%Q ->
  (round_pos t q - q <= (1 # 2) * pow2 (ulp_exp t q))%Q /\
  (q - round_pos t q <= (1 # 2) * pow2 (ulp_exp t q))%Q.
Proof.
  intros H0. unfold round_pos.
  set (e := ulp_exp t q).
  pose proof (pow2_pos e) as He.
  destruct (rne_error (q / pow2 e)) as [H1 H2].
  assert (Hq : (q == q / pow2 e * pow2 e)%Q) by (field; lra).
  set (m := (q / pow2 e)%Q) in *.
  set (r := inject_Z (rne m)) in *.
  split; nra.
Qed.

(** In the normal range the relative error is at most [2^-prec]. *)
Lemma round_pos_relative (t : dtype) (q : Q) :
  (pow2 (emin t + prec t - 1) <= q)%Q ->
  (round_pos t q - q <= pow2 (- prec t) * q)%Q /\
  (q - round_pos t q <= pow2 (- prec t) * q)%Q.
Proof.
  intros Hq.
  assert (H0 : (0 < q)%Q)
    by (eapply Qlt_le_trans; [apply pow2_pos | exact Hq]).
  destruct (round_pos_error t q H0) as [H1 H2].
  rewrite (ulp_exp_normal t q Hq) in H1, H2.
  destruct (ilog2_spec q H0) as [Hlo _].
  assert (Hu : ((1 # 2) * pow2 (ilog2 q - prec t + 1)
                == pow2 (- prec t) * pow2 (ilog2 q))%Q).
  { replace (ilog2 q - prec t + 1) with ((- prec t + ilog2 q) + 1) by lia.
    rewrite pow2_succ, pow2_add. ring. }
  rewrite Hu in H1, H2.
  pose proof (pow2_pos (- prec t)) as Hp.
  split; nra.
Qed.

Lemma ilog2_mono (p q : Q) :
  (0 < p)%Q -> (p <= q)%Q -> ilog2 p <= ilog2 q.
Proof.
  intros Hp Hpq.
  assert (Hq : (0 < q)%Q) by lra.
  destruct (ilog2_spec p Hp) as [Hlo _].
  destruct (ilog2_spec q Hq) as [_ Hhi].
  assert (Hlt : (pow2 (ilog2 p) < pow2 (ilog2 q + 1))%Q) by lra.
  apply pow2_lt_inv in Hlt. lia.
Qed.

Lemma pow2_split (k e : Z) :
  e <= k -> (pow2 k == inject_Z (2 ^ (k - e)) * pow2 e)%Q.
Proof.
  intros H. rewrite <- pow2_Z by lia. rewrite <- pow2_add.
  now replace (k - e + e) with k by lia.
Qed.

Lemma round_pos_nonneg (t : dtype) (q : Q) :
  (0 < q)%Q -> (0 <= round_pos t q)%Q.
Proof.
  intros Hq. unfold round_pos.
  pose proof (pow2_pos (ulp_exp t q)) as He.
  assert (Hm : (0 <= q / pow2 (ulp_exp t q))%Q).
  { apply Qle_shift_div_l; [exact He|]. lra. }
  apply rne_mono in Hm. change 0%Q with (inject_Z 0) in Hm.
  rewrite rne_Z in Hm.
  apply Qmult_le_0_compat; [|lra].
  change 0%Q with (inject_Z 0). now rewrite <- Zle_Qle.
Qed.

(** Rounding does not cross a power of two of the grid. *)
Lemma round_pos_ge_pow2 (t : dtype) (q : Q) (k : Z) :
  ulp_exp t q <= k -> (pow2 k <= q)%Q -> (pow2 k <= round_pos t q)%Q.
Proof.
  intros Hk Hq. unfold round_pos.
  set (e := ulp_exp t q) in *.
  pose proof (pow2_pos e) as He.
  rewrite (pow2_split k e Hk) in Hq |- *.
  assert (Hm : (inject_Z (2 ^ (k - e)) <= q / pow2 e)%Q).
  { apply Qle_shift_div_l; [exact He|exact Hq]. }
  apply rne_mono in Hm. rewrite rne_Z in Hm.
  apply Qmult_le_compat_r; [|lra]. now rewrite <- Zle_Qle.
Qed.

Lemma round_pos_le_pow2 (t : dtype) (q : Q) (k : Z) :
  ulp_exp t q <= k -> (q <= pow2 k)%Q -> (round_pos t q <= pow2 k)%Q.
Proof.
  intros Hk Hq. unfold round_pos.
  set (e := ulp_exp t q) in *.
  pose proof (pow2_pos e) as He.
  rewrite (pow2_split k e Hk) in Hq |- *.
  assert (Hm : (q / pow2 e <= inject_Z (2 ^ (k - e)))%Q).
  { apply Qle_shift_div_r; [exact He|exact Hq]. }
  apply rne_mono in Hm. rewrite rne_Z in Hm.
  apply Qmult_le_compat_r; [|lra]. now rewrite <- Zle_Qle.
Qed.

Lemma prec_pos (t : dtype) : 1 <= prec t.
Proof. destruct t; simpl; lia. Qed.

Lemma round_pos_mono (t : dtype) (p q : Q) :
  (0 < p)%Q -> (p <= q)%Q -> (round_pos t p <= round_pos t q)%Q.
Proof.
  intros Hp Hpq.
  assert (Hq : (0 < q)%Q) by lra.
  pose proof (ilog2_mono p q Hp Hpq) as Hlog.
  pose proof (prec_pos t) as Hprec.
  destruct (Z.eq_dec (ulp_exp t p) (ulp_exp t q)) as [Heq|Hne].
  - unfold round_pos. rewrite Heq.
    pose proof (pow2_pos (ulp_exp t q)) as He.
    apply Qmult_le_compat_r; [|lra]. rewrite <- Zle_Qle.
    apply rne_mono.
    apply Qle_shift_div_l; [exact He|].
    assert (Hx : (p / pow2 (ulp_exp t q) * pow2 (ulp_exp t q) == p)%Q)
      by (field; lra).
    lra.
  - destruct (ilog2_spec p Hp) as [_ Hphi].
    destruct (ilog2_spec q Hq) as [Hqlo _].
    assert (He : ulp_exp t p < ulp_exp t q) by (unfold ulp_exp in *; lia).
    assert (He2 : ulp_exp t q = ilog2 q - prec t + 1)
      by (unfold ulp_exp in *; lia).
    assert (Hl : ilog2 p < ilog2 q) by (unfold ulp_exp in *; lia).
    apply Qle_trans with (pow2 (ilog2 q)).
    + apply Qle_trans with (pow2 (Z.max (ilog2 p + 1) (ulp_exp t p))).
      * apply round_pos_le_pow2; [lia|].
        apply Qle_trans with (pow2 (ilog2 p + 1)); [lra|].
        apply pow2_le. lia.
      * apply pow2_le. lia.
    + apply round_pos_ge_pow2; [lia|exact Hqlo].
Qed.


Lemma round_pos_comp (t : dtype) (p q : Q) :
  (0 < p)%Q -> (p == q)%Q -> (round_pos t p == round_pos t q)%Q.
Proof.
  intros Hp Hpq. apply Qle_antisym; apply round_pos_mono; lra.
Qed.

Lemma Qsgn_Gt (q : Q) : Qsgn q = Gt <-> (0 < q)%Q.
Proof.
  unfold Qsgn, Qlt. simpl. rewrite Z.compare_gt_iff. lia.
Qed.

Lemma Qsgn_Lt (q : Q) : Qsgn q = Lt <-> (q < 0)%Q.
Proof.
  unfold Qsgn, Qlt. simpl. rewrite Z.compare_lt_iff. lia.
Qed.

Lemma Qsgn_Eq (q : Q) : Qsgn q = Eq <-> (q == 0)%Q.
Proof.
  unfold Qsgn, Qeq. simpl. rewrite Z.compare_eq_iff. lia.
Qed.

Lemma round_to_Fin (t : dtype) (q : Q) : rounded t q (round_to t (Fin q)).
Proof.
  unfold round_to. destruct (Qsgn q) eqn:Hs.
  - apply rounded_zero. now apply Qsgn_Eq.
  - apply Qsgn_Lt in Hs.
    destruct (Qle_bool _ _) eqn:Hb.
    + apply rounded_neg_inf; [exact Hs|]. now apply Qle_bool_iff.
    + assert (Hlt : (round_pos t (- q) < pow2 (emax t))%Q).
      { apply Qnot_le_lt. intros H. apply Qle_bool_iff in H. congruence. }
      apply rounded_neg; [exact Hs| |]; rewrite Qred_correct; lra.
  - apply Qsgn_Gt in Hs.
    destruct (Qle_bool _ _) eqn:Hb.
    + apply rounded_pos_inf; [exact Hs|]. now apply Qle_bool_iff.
    + assert (Hlt : (round_pos t q < pow2 (emax t))%Q).
      { apply Qnot_le_lt. intros H. apply Qle_bool_iff in H. congruence. }
      apply rounded_pos; [exact Hs| |]; rewrite Qred_correct; lra.
Qed.

Lemma fle_Fin (x y : Q) : fle (Fin x) (Fin y) <-> (x <= y)%Q.
Proof. unfold fle. simpl. apply Qle_bool_iff. Qed.

Lemma round_to_mono (t : dtype) (a b : float) :
  fle a b -> fle (round_to t a) (round_to t b).
Proof.
  destruct a as [x| | |], b as [y| | |]; try discriminate;
    try (intros _; simpl; reflexivity).
  - intros Hxy%fle_Fin.
    pose proof (pow2_pos (emax t)) as He.
    destruct (round_to_Fin t x)
      as [Hx|Hx Hox|rx Hx Hrx Hbx|Hx Hox|rx Hx Hrx Hbx];
    destruct (round_to_Fin t y)
      as [Hy|Hy Hoy|ry Hy Hry Hby|Hy Hoy|ry Hy Hry Hby];
      try reflexivity; try (exfalso; lra); try apply fle_Fin;
      try (pose proof (round_pos_nonneg t x ltac:(lra)));
      try (pose proof (round_pos_nonneg t y ltac:(lra)));
      try (pose proof (round_pos_nonneg t (- x) ltac:(lra)));
      try (pose proof (round_pos_nonneg t (- y) ltac:(lra)));
      try (pose proof (round_pos_mono t x y ltac:(lra) ltac:(lra)));
      try (pose proof (round_pos_mono t (- y) (- x) ltac:(lra) ltac:(lra)));
      try lra; exfalso; lra.
  - intros _. change (fle (round_to t (Fin x)) PInf).
    destruct (round_to_Fin t x); reflexivity.
  - intros _. change (fle NInf (round_to t (Fin y))).
    destruct (round_to_Fin t y); reflexivity.
Qed.

Lemma round_to_not_negative (t : dtype) (a : float) :
  not_negative a -> not_negative (round_to t a).
Proof.
  destruct a as [x| | |]; try (intros H; exact H).
  intros Hx. cbn [not_negative] in Hx.
  destruct (round_to_Fin t x) as [?|? ?|r H0 Hr _|? ?|r H0 Hr _]; simpl;
    try exact I; try lra.
  pose proof (round_pos_nonneg t x H0). lra.
Qed.

Lemma round_to_zero (t : dtype) : round_to t (Fin 0) = Fin 0.
Proof. reflexivity. Qed.

(** Some roundings: 0.1 as a double and as a [float32]; at 1 GHz, where the
    numbers of [float32] are 64 apart, the halfway points go to the even
    neighbour; the largest [float32] and the first number that overflows;
    half of the smallest positive double, and three halves of it. *)
Example round_to_samples :
  round_to float64 (Fin (1 # 10))
  = Fin (3602879701896397 # 36028797018963968) /\
  round_to float32 (Fin (1 # 10)) = Fin (13421773 # 134217728) /\
  round_to float32 (of_int 1000000025) = of_int 1000000000 /\
  round_to float32 (of_int 1000000032) = of_int 1000000000 /\
  round_to float32 (of_int 1000000096) = of_int 1000000128 /\
  round_to float32 (Fin (pow2 128 - pow2 103 - 1))
  = Fin (Qred (pow2 128 - pow2 104)) /\
  round_to float32 (Fin (pow2 128 - pow2 103)) = PInf /\
  round_to float64 (Fin (pow2 (- 1075))) = Fin 0 /\
  round_to float64 (Fin (3 * pow2 (- 1075))) = Fin (Qred (pow2 (- 1073))) /\
  round_to float64 (Fin (- (3 # 2))) = Fin (- (3 # 2)).
Proof. repeat split; vm_compute; reflexivity. Qed.

(** On these numbers the rounded operations are those of [SpecFloat]: the
    quotient [1 / 13225] and the product of the quotient and 13225 in
    doubles, the sum [1e9 + 25] in [float32], a product that overflows and
    a quotient that is subnormal. *)
Example rounding_agrees_with_SpecFloat :
  let d := fun (m : positive) (e : Z) => SpecFloat.S754_finite false m e in
  let w := SpecFloat.SFdiv 53 1024 (d 1%positive 0) (d 13225%positive 0) in
  spec_value w = fdiv_r float64 fone (of_int 13225) /\
  spec_value (SpecFloat.SFmul 53 1024 w (d 13225%positive 0))
  = fmul_r float64 (fdiv_r float64 fone (of_int 13225)) (of_int 13225) /\
  spec_value (SpecFloat.SFadd 24 128 (d 1000000000%positive 0)
                (d 25%positive 0))
  = fadd_r float32 (of_int 1000000000) (of_int 25) /\
  spec_value (SpecFloat.SFmul 53 1024 (d 1%positive 600) (d 1%positive 600))
  = fmul_r float64 (Fin (pow2 600)) (Fin (pow2 600)) /\
  spec_value (SpecFloat.SFdiv 53 1024 (d 1%positive (- 1070))
                (d 3%positive 0))
  = fdiv_r float64 (Fin (pow2 (- 1070))) (of_int 3).
Proof. repeat split; vm_compute; reflexivity. Qed.

Lemma fle_between (a : float) (x y : Q) :
  fle (Fin x) a -> fle a (Fin y) ->
  exists q : Q, a = Fin q /\ (x <= q)%Q /\ (q <= y)%Q.
Proof.
  destruct a as [q| | |]; try discriminate.
  intros H1%fle_Fin H2%fle_Fin. eauto.
Qed.

(** Adding to a number keeps the order. *)
Lemma fadd_mono_r (f : Q) (a b : float) :
  fle a b -> fle (fadd (Fin f) a) (fadd (Fin f) b).
Proof.
  destruct a as [x| | |], b as [y| | |]; try discriminate;
    try (intros _; reflexivity).
  intros H%fle_Fin. cbn [fadd]. apply fle_Fin.
  rewrite !Qred_correct. lra.
Qed.

Lemma Qred_inject_Z (z : Z) : Qred (inject_Z z) = inject_Z z.
Proof.
  unfold Qred, inject_Z.
  pose proof (Z.ggcd_gcd z 1) as Hg.
  pose proof (Z.ggcd_correct_divisors z 1) as Hd.
  destruct (Z.ggcd z 1) as [g [aa bb]]. simpl in Hg, Hd |- *.
  rewrite Z.gcd_1_r in Hg. subst g. destruct Hd as [Ha Hb].
  rewrite Z.mul_1_l in Ha, Hb. now subst.
Qed.

Lemma Qle_bool_false (x y : Q) : (y < x)%Q -> Qle_bool x y = false.
Proof.
  intros H. destruct (Qle_bool x y) eqn:Hb; [|reflexivity].
  apply Qle_bool_iff in Hb. lra.
Qed.

Lemma Qle_bool_true (x y : Q) : (x <= y)%Q -> Qle_bool x y = true.
Proof. apply Qle_bool_iff. Qed.

(** Equal numbers round to the same number. *)
Lemma round_to_comp (t : dtype) (p q : Q) :
  (p == q)%Q -> round_to t (Fin p) = round_to t (Fin q).
Proof.
  intros Hpq. unfold round_to.
  destruct (Qsgn q) eqn:Hq.
  - apply Qsgn_Eq in Hq. rewrite <- Hpq in Hq. apply Qsgn_Eq in Hq.
    now rewrite Hq.
  - apply Qsgn_Lt in Hq.
    assert (Hp : (p < 0)%Q) by lra. apply Qsgn_Lt in Hp. rewrite Hp.
    assert (Hr : (round_pos t (- p) == round_pos t (- q))%Q)
      by (apply round_pos_comp; lra).
    assert (Hr' : (- round_pos t (- p) == - round_pos t (- q))%Q) by lra.
    rewrite (Qred_complete _ _ Hr').
    destruct (Qle_bool _ (round_pos t (- q))) eqn:Hb.
    + apply Qle_bool_iff in Hb. rewrite Qle_bool_true by lra. reflexivity.
    + rewrite Qle_bool_false; [reflexivity|].
      apply Qnot_le_lt. intros H. rewrite Hr in H.
      apply Qle_bool_iff in H. congruence.
  - apply Qsgn_Gt in Hq.
    assert (Hp : (0 < p)%Q) by lra.
    assert (Hr : (round_pos t p == round_pos t q)%Q)
      by (apply round_pos_comp; lra).
    apply Qsgn_Gt in Hp. rewrite Hp.
    rewrite (Qred_complete _ _ Hr).
    destruct (Qle_bool _ (round_pos t q)) eqn:Hb.
    + apply Qle_bool_iff in Hb. rewrite Qle_bool_true by lra. reflexivity.
    + rewrite Qle_bool_false; [reflexivity|].
      apply Qnot_le_lt. intros H. rewrite Hr in H.
      apply Qle_bool_iff in H. congruence.
Qed.

(** A number that rounding does not move. *)
Lemma round_to_exact (t : dtype) (q : Q) :
  (0 < q)%Q -> (round_pos t q == q)%Q -> (q < pow2 (emax t))%Q ->
  round_to t (Fin q) = Fin (Qred q).
Proof.
  intros H0 Hr Hlt. unfold round_to.
  rewrite (proj2 (Qsgn_Gt q) H0).
  rewrite Qle_bool_false by lra.
  now rewrite (Qred_complete _ _ Hr).
Qed.

(** A multiple of the last bit is not moved. *)
Lemma round_pos_multiple (t : dtype) (q : Q) (k : Z) :
  (q == inject_Z k * pow2 (ulp_exp t q))%Q -> (round_pos t q == q)%Q.
Proof.
  intros Hq. unfold round_pos.
  pose proof (pow2_pos (ulp_exp t q)) as He.
  assert (Hm : (q / pow2 (ulp_exp t q) == inject_Z k)%Q).
  { rewrite Hq at 1. field. lra. }
  assert (Hk : rne (q / pow2 (ulp_exp t q)) = k)
    by (rewrite <- (rne_Z k); now apply rne_comp).
  rewrite Hk. lra.
Qed.

(** Integers up to [2^53] are doubles. *)
Lemma int_to_float_exact (z : Z) :
  0 <= z <= 2 ^ 53 -> int_to_float z = of_int z.
Proof.
  intros Hz. unfold int_to_float, of_int.
  destruct (Z.eq_dec z 0) as [->|Hz0]; [reflexivity|].
  destruct (Z.eq_dec z (2 ^ 53)) as [->|Hz1]; [vm_compute; reflexivity|].
  assert (H0 : (0 < inject_Z z)%Q)
    by (change 0%Q with (inject_Z 0); rewrite <- Zlt_Qlt; lia).
  destruct (ilog2_spec _ H0) as [Hlo Hhi].
  set (l := ilog2 (inject_Z z)) in *.
  assert (Hl1 : l < 53).
  { apply pow2_lt_inv. eapply Qle_lt_trans; [exact Hlo|].
    rewrite pow2_Z by lia. rewrite <- Zlt_Qlt. lia. }
  assert (Hl0 : 0 <= l).
  { assert (H : (pow2 0 < pow2 (l + 1))%Q).
    { eapply Qle_lt_trans; [|exact Hhi].
      change (pow2 0) with (inject_Z 1). rewrite <- Zle_Qle. lia. }
    apply pow2_lt_inv in H. lia. }
  assert (He : ulp_exp float64 (inject_Z z) = l - 52)
    by (unfold ulp_exp, emin; fold l; simpl; lia).
  rewrite <- (Qred_inject_Z z) at 2.
  apply round_to_exact; [exact H0| |].
  - apply (round_pos_multiple _ _ (z * 2 ^ (52 - l))).
    rewrite He, inject_Z_mult, <- pow2_Z by lia.
    rewrite <- Qmult_assoc, <- pow2_add.
    replace (52 - l + (l - 52)) with 0 by lia.
    change (pow2 0) with 1%Q. ring.
  - eapply Qlt_le_trans; [exact Hhi|]. apply pow2_le. simpl. lia.
Qed.

(** ** Properties of the frequency axis *)

Section FrequencyAxis.

Lemma py_truediv_nonzero (a : float) (n : Z) :
  n <> 0 -> py_truediv a n = Ok (fdiv_r float64 a (int_to_float n)).
Proof.
  intros Hn. unfold py_truediv.
  destruct (Z.eqb_spec n 0) as [->|_]; [lia | reflexivity].
Qed.

Lemma spw_freqs_window (pre post : list (float * float * Z))
    (w : float * float * Z) :
  snd w <> 0 ->
  spw_freqs (map (fun w => fst (fst w)) (pre ++ w :: post))
            (map (fun w => snd (fst w)) (pre ++ w :: post))
            (length pre) (snd w)
  = Ok (map (double_frequency w) (arange (snd w))).
Proof.
  intros Hn. destruct w as [[f0 b] n]. simpl in *.
  unfold spw_freqs, getitem.
  rewrite !list_lookup_fmap, !list_lookup_middle by reflexivity.
  simpl. rewrite py_truediv_nonzero by assumption. reflexivity.
Qed.

(** The loop over the windows: the list of doubles of line 60. *)
Lemma combine_spws_axis (spws pre : list (float * float * Z))
    (acc : list float) :
  Forall (fun w => snd w <> 0) spws ->
  combine_spws (map (fun w => fst (fst w)) (pre ++ spws))
               (map (fun w => snd (fst w)) (pre ++ spws))
               (length pre) (map snd spws) acc
  = Ok (acc ++ concat (map (fun w => map (double_frequency w)
                                         (arange (snd w))) spws)).
Proof.
  revert pre acc.
  induction spws as [|w spws IH]; intros pre acc Hpos.
  - simpl. now rewrite app_nil_r.
  - inversion Hpos as [|? ? Hw Hrest]; subst.
    cbn [map combine_spws].
    rewrite spw_freqs_window by assumption.
    cbn [rbind].
    specialize (IH (pre ++ [w])
                  (acc ++ map (double_frequency w) (arange (snd w))) Hrest).
    rewrite <- app_assoc in IH. cbn [app] in IH.
    rewrite length_app in IH. cbn [length] in IH.
    replace (length pre + 1)%nat with (S (length pre)) in IH by lia.
    rewrite IH. cbn [map concat].
    now rewrite app_assoc.
Qed.

(** Line 63 on that list. *)
Lemma stored_axis (spws : list (float * float * Z)) :
  map (round_to float32)
      (concat (map (fun w => map (double_frequency w) (arange (snd w))) spws))
  = concat (map stored_window spws).
Proof.
  induction spws as [|w spws IH]; [reflexivity|].
  change (map (round_to float32)
            (map (double_frequency w) (arange (snd w)) ++
             concat (map (fun w => map (double_frequency w) (arange (snd w)))
                         spws))
          = stored_window w ++ concat (map stored_window spws)).
  rewrite List.map_app, IH. f_equal.
  unfold stored_window, channel_frequency. now rewrite List.map_map.
Qed.

Lemma length_stored_window (w : float * float * Z) :
  length (stored_window w) = Z.to_nat (snd w).
Proof.
  unfold stored_window, arange. now rewrite !length_map, length_seq.
Qed.

Lemma length_stored_axis (spws : list (float * float * Z)) :
  Z.of_nat (length (concat (map stored_window spws)))
  = fold_right Z.add 0 (map (fun w => Z.max 0 (snd w)) spws).
Proof.
  induction spws as [|w spws IH]; [reflexivity|].
  cbn [map concat fold_right].
  rewrite length_app, Nat2Z.inj_add, IH, length_stored_window. lia.
Qed.

(** Channel [j] of window [i] on the axis. *)
Lemma stored_axis_lookup (spws : list (float * float * Z)) (i : nat)
    (w : float * float * Z) (j : nat) :
  spws !! i = Some w -> (j < Z.to_nat (snd w))%nat ->
  concat (map stored_window spws) !! (window_start spws i + j)%nat
  = Some (channel_frequency w (Z.of_nat j)).
Proof.
  intros Hi Hj. unfold window_start.
  assert (Hsplit : concat (map stored_window spws)
                   = concat (map stored_window (take i spws))
                     ++ stored_window w
                     ++ concat (map stored_window (drop (S i) spws))).
  { rewrite <- (take_drop_middle spws i w Hi) at 1.
    now rewrite List.map_app, concat_app. }
  rewrite Hsplit.
  rewrite lookup_app_r by lia.
  replace (_ + j - _)%nat with j by lia.
  rewrite lookup_app_l by (rewrite length_stored_window; lia).
  unfold stored_window, arange.
  rewrite !list_lookup_fmap, lookup_seq_lt by lia. reflexivity.
Qed.

(** Integers as doubles: in order, and numbers up to [2^63]. *)
Lemma int_to_float_mono (z z' : Z) :
  z <= z' -> fle (int_to_float z) (int_to_float z').
Proof.
  intros H. apply round_to_mono, fle_Fin. now rewrite <- Zle_Qle.
Qed.

Lemma int_to_float_bounds (lo z : Z) :
  0 <= lo <= 1 -> lo <= z <= 2 ^ 63 ->
  exists q : Q, int_to_float z = Fin q /\
                (inject_Z lo <= q)%Q /\ (q <= inject_Z (2 ^ 63))%Q.
Proof.
  intros Hlo Hz. apply fle_between.
  - assert (Hr : int_to_float lo = Fin (inject_Z lo))
      by (assert (lo = 0 \/ lo = 1) as [-> | ->] by lia;
          vm_compute; reflexivity).
    rewrite <- Hr. apply int_to_float_mono. lia.
  - change (Fin (inject_Z (2 ^ 63))) with (int_to_float (2 ^ 63)).
    apply int_to_float_mono. lia.
Qed.

(** The channel width of a regular window is a number that is zero or
    more. *)
Lemma channel_width_regular (b : Q) (n : Z) :
  (0 < b)%Q -> python_float (Fin b) -> 1 <= n <= 2 ^ 63 ->
  exists d : Q,
    fdiv_r float64 (Fin b) (int_to_float n) = Fin d /\
    (0 <= d)%Q /\ (d <= b)%Q.
Proof.
  intros Hb Hfl Hn.
  destruct (int_to_float_bounds 1 n) as (q & -> & Hq & _); [lia|lia|].
  change (inject_Z 1) with 1%Q in Hq.
  unfold fdiv_r, fdiv. rewrite (proj2 (Qsgn_Gt q)) by lra.
  assert (Hdiv : (0 <= b / q)%Q /\ (b / q <= b)%Q).
  { split.
    - apply Qle_shift_div_l; lra.
    - apply Qle_shift_div_r; [lra|]. nra. }
  apply fle_between.
  - rewrite <- (round_to_zero float64). apply round_to_mono, fle_Fin.
    rewrite Qred_correct. tauto.
  - rewrite <- Hfl. apply round_to_mono, fle_Fin.
    rewrite Qred_correct. tauto.
Qed.

(** Within a regular window the stored frequencies do not go down. *)
Lemma channel_frequency_mono (w : float * float * Z) (j j' : Z) :
  regular_window w -> 0 <= j <= j' -> j' < snd w ->
  fle (channel_frequency w j) (channel_frequency w j').
Proof.
  intros ((f & b & Hf & Hb & Hpos) & Hfl & Hn) Hj Hj'.
  destruct w as [[f0 bw] n]. simpl in Hf, Hb, Hfl, Hn, Hj'. subst f0 bw.
  unfold channel_frequency, double_frequency, fadd_r, fmul_r.
  apply round_to_mono, round_to_mono, fadd_mono_r, round_to_mono.
  destruct (channel_width_regular b n Hpos Hfl) as (d & -> & Hd & _);
    [lia|].
  pose proof (int_to_float_mono j j' (proj2 Hj)) as Hmono.
  destruct (int_to_float_bounds 0 j) as (q & Hq & Hq0 & _); [lia|lia|].
  destruct (int_to_float_bounds 0 j') as (q' & Hq' & _); [lia|lia|].
  rewrite Hq, Hq' in Hmono |- *. apply fle_Fin in Hmono.
  cbn [fmul]. apply fle_Fin. rewrite !Qred_correct.
  apply Qmult_le_compat_r; assumption.
Qed.

End FrequencyAxis.

(** C2, as the code has it.  For spectral windows [(ref_frequency,
    bandwidth, num_channels)] whose channel counts are not zero, [__init__]
    returns, and the frequency axis is the concatenation, window after
    window in declaration order, of the values [channel_frequency w j],
    [j = 0 .. nchan - 1]: [ref_freq + j * (bandwidth / nchan)] computed in
    double precision and stored as [float32].  A window with a negative
    count gives no value: the length of the axis, also stored in [nchan], is
    the sum of the positive counts.  Within a regular window the values do
    not decrease; they need not increase. *)
Theorem frequency_axis_construction (name : string) (nrow ncorr : Z)
    (spws : list (float * float * Z)) :
  Forall (fun w => snd w <> 0) spws ->
  exists self : MSNoise,
    __init__ name (summary_of nrow ncorr spws) = Ok self /\
    freqs self = concat (map stored_window spws) /\
    nchan self = Z.of_nat (length (freqs self)) /\
    nchan self = fold_right Z.add 0 (map (fun w => Z.max 0 (snd w)) spws) /\
    (forall (i : nat) (w : float * float * Z) (j : nat),
        spws !! i = Some w -> (j < Z.to_nat (snd w))%nat ->
        freqs self !! (window_start spws i + j)%nat
        = Some (channel_frequency w (Z.of_nat j))) /\
    (forall (i : nat) (w : float * float * Z) (j j' : nat),
        spws !! i = Some w -> regular_window w ->
        (j <= j')%nat -> (j' < Z.to_nat (snd w))%nat ->
        exists a b : float,
          freqs self !! (window_start spws i + j)%nat = Some a /\
          freqs self !! (window_start spws i + j')%nat = Some b /\
          fle a b).
Proof.
  intros Hnz.
  pose proof (combine_spws_axis spws [] [] Hnz) as Hloop.
  cbn [app length] in Hloop.
  unfold __init__, summary_of. cbn [SPW REF_FREQUENCY TOTAL_BANDWIDTH NUM_CHAN].
  rewrite Hloop. cbn [rbind app].
  eexists. split; [reflexivity|]. cbn [freqs nchan].
  rewrite stored_axis.
  split; [reflexivity|]. split; [now rewrite <- stored_axis, length_map|].
  split.
  { rewrite <- length_stored_axis, <- stored_axis. now rewrite length_map. }
  split.
  - intros i w j Hi Hj. now apply stored_axis_lookup.
  - intros i w j j' Hi Hreg Hjj Hj'.
    exists (channel_frequency w (Z.of_nat j)),
           (channel_frequency w (Z.of_nat j')).
    split; [apply stored_axis_lookup; [exact Hi|lia]|].
    split; [now apply stored_axis_lookup|].
    apply channel_frequency_mono; [exact Hreg|lia|lia].
Qed.

(** ** Properties of the estimator *)

Lemma is_zero_Fin (q : Q) : is_zero (Fin q) = true <-> q == 0.
Proof.
  unfold Qeq. simpl. rewrite Z.eqb_eq. lia.
Qed.

Lemma emin_normal (t : dtype) : emin t + prec t - 1 = 2 - emax t.
Proof. unfold emin. lia. Qed.

Lemma pow2_prec_small (t : dtype) : (pow2 (- prec t) <= 1 # 8)%Q.
Proof.
  apply Qle_trans with (pow2 (- 3)); [|discriminate].
  apply pow2_le. destruct t; simpl; lia.
Qed.

(** Rounding a number of the normal range that stays below the overflow
    threshold. *)
Lemma round_to_normal (t : dtype) (q : Q) :
  (pow2 (2 - emax t) <= q)%Q -> (q <= pow2 (emax t - 1))%Q ->
  exists r : Q,
    round_to t (Fin q) = Fin r /\
    (r - q <= pow2 (- prec t) * q)%Q /\ (q - r <= pow2 (- prec t) * q)%Q.
Proof.
  intros Hlo Hhi.
  pose proof (pow2_pos (2 - emax t)) as H0.
  assert (Hlo' : (pow2 (emin t + prec t - 1) <= q)%Q)
    by now rewrite emin_normal.
  destruct (round_pos_relative t q Hlo') as [H1 H2].
  pose proof (pow2_prec_small t) as Hu.
  pose proof (pow2_pos (- prec t)) as Hu0.
  pose proof (pow2_succ (emax t - 1)) as Hs.
  replace (emax t - 1 + 1) with (emax t) in Hs by lia.
  pose proof (pow2_pos (emax t - 1)) as Hp.
  assert (Huq : (pow2 (- prec t) * q <= (1 # 8) * q)%Q)
    by (apply Qmult_le_compat_r; lra).
  destruct (round_to_Fin t q) as [Hz|Hq Ho|r Hq Hr Hb|Hq Ho|r Hq Hr Hb].
  all: try (exfalso; lra).
  exists r. split; [reflexivity|]. split; lra.
Qed.

(** Line 127 on a noise whose square neither underflows nor overflows. *)
Lemma weight_times_noise_squared (t : dtype) (q : Q) :
  (pow2 (2 - emax t) <= q * q)%Q -> (q * q <= pow2 (emax t - 3))%Q ->
  exists w : Q,
    fdiv_r t fone (fmul_r t (Fin q) (Fin q)) = Fin w /\
    (Qabs (w * (q * q) - 1) <= 3 * pow2 (- prec t))%Q.
Proof.
  unfold fmul_r, fdiv_r. cbn [fmul].
  remember (q * q)%Q as Q2 eqn:HQ2. clear HQ2 q.
  intros Hlo Hhi.
  pose proof (pow2_pos (2 - emax t)) as H0.
  pose proof (pow2_prec_small t) as Hu.
  pose proof (pow2_pos (- prec t)) as Hu0.
  set (u := pow2 (- prec t)) in *.
  pose proof (pow2_succ (emax t - 3)) as Hs3.
  replace (emax t - 3 + 1) with (emax t - 2) in Hs3 by lia.
  pose proof (pow2_succ (emax t - 2)) as Hs2.
  replace (emax t - 2 + 1) with (emax t - 1) in Hs2 by lia.
  pose proof (pow2_pos (emax t - 3)) as Hp3.
  pose proof (pow2_add (2 - emax t) (emax t - 2)) as Hinv.
  replace (2 - emax t + (emax t - 2)) with 0 in Hinv by lia.
  change (pow2 0) with 1%Q in Hinv.
  pose proof (pow2_succ (1 - emax t)) as Hs0.
  replace (1 - emax t + 1) with (2 - emax t) in Hs0 by lia.
  pose proof (pow2_add (1 - emax t) (emax t - 1)) as Hinv'.
  replace (1 - emax t + (emax t - 1)) with 0 in Hinv' by lia.
  change (pow2 0) with 1%Q in Hinv'.
  pose proof (pow2_pos (1 - emax t)) as Hp1.
  set (P := pow2 (2 - emax t)) in *. set (P1 := pow2 (1 - emax t)) in *.
  set (T1 := pow2 (emax t - 1)) in *. set (T2 := pow2 (emax t - 2)) in *.
  set (T3 := pow2 (emax t - 3)) in *.
  assert (HuQ : (u * Q2 <= (1 # 8) * Q2)%Q)
    by (apply Qmult_le_compat_r; lra).
  assert (Hlo' : (P <= Qred Q2)%Q) by now rewrite Qred_correct.
  assert (Hhi' : (Qred Q2 <= T1)%Q) by (rewrite Qred_correct; lra).
  destruct (round_to_normal t _ Hlo' Hhi') as (s & -> & Hs1 & Hs1').
  fold u in Hs1, Hs1'. rewrite Qred_correct in Hs1, Hs1'.
  assert (Hspos : (0 < s)%Q) by lra.
  unfold fdiv, fone.
  rewrite (proj2 (Qsgn_Gt s) Hspos).
  assert (Hi : (1 / s * s == 1)%Q) by (field; lra).
  set (i := (1 / s)%Q) in *.
  assert (Hipos : (0 < i)%Q) by nra.
  assert (Hilo : (P <= Qred i)%Q).
  { rewrite Qred_correct. apply Qle_shift_div_l; [exact Hspos|].
    assert (P * s <= P * T2)%Q by (apply Qmult_le_l; lra). lra. }
  assert (Hihi : (Qred i <= T1)%Q).
  { rewrite Qred_correct. apply Qle_shift_div_r; [exact Hspos|].
    assert (T1 * P1 <= T1 * s)%Q by (apply Qmult_le_l; lra). lra. }
  destruct (round_to_normal t _ Hilo Hihi) as (w & -> & Hw1 & Hw1').
  fold u in Hw1, Hw1'. rewrite Qred_correct in Hw1, Hw1'.
  exists w. split; [reflexivity|].
  set (c := (i * Q2)%Q).
  assert (Hc0 : (0 <= c)%Q) by (apply Qmult_le_0_compat; lra).
  assert (Hc1 : (c * (7 # 8) <= 1)%Q).
  { assert (i * ((7 # 8) * Q2) <= i * s)%Q by (apply Qmult_le_l; lra).
    unfold c. lra. }
  assert (Huc : (u * c <= (1 # 8) * c)%Q)
    by (apply Qmult_le_compat_r; lra).
  assert (Ha1 : ((w - i) * Q2 <= u * c)%Q).
  { assert ((w - i) * Q2 <= (u * i) * Q2)%Q
      by (apply Qmult_le_compat_r; lra).
    unfold c. lra. }
  assert (Ha2 : (- (u * c) <= (w - i) * Q2)%Q).
  { assert ((i - w) * Q2 <= (u * i) * Q2)%Q
      by (apply Qmult_le_compat_r; lra).
    unfold c. lra. }
  assert (Hb1 : (i * (Q2 - s) <= u * c)%Q).
  { assert (i * (Q2 - s) <= i * (u * Q2))%Q by (apply Qmult_le_l; lra).
    unfold c. lra. }
  assert (Hb2 : (- (u * c) <= i * (Q2 - s))%Q).
  { assert (i * (s - Q2) <= i * (u * Q2))%Q by (apply Qmult_le_l; lra).
    unfold c. lra. }
  assert (Heq : (w * Q2 - 1 == (w - i) * Q2 + i * (Q2 - s))%Q) by lra.
  assert (Huc' : (u * c * (7 # 8) <= u)%Q).
  { assert (u * (c * (7 # 8)) <= u * 1)%Q by (apply Qmult_le_l; lra).
    lra. }
  apply Qabs_Qle_condition. split; lra.
Qed.

(** The weight of a channel whose noise is zero. *)
Lemma weight_of_zero_noise (t : dtype) (n : float) :
  is_zero n = true -> fdiv_r t fone (fmul_r t n n) = PInf.
Proof.
  destruct n as [q| | |]; try discriminate.
  intros Hz%is_zero_Fin. unfold fmul_r, fdiv_r. cbn [fmul].
  assert (Hs : Qsgn (Qred (q * q)) = Eq).
  { apply Qsgn_Eq. rewrite Qred_correct, Hz. reflexivity. }
  unfold round_to at 2. rewrite Hs. reflexivity.
Qed.

Lemma mapM_length {A B : Type} (f : A -> result B) (l : list A)
    (l' : list B) :
  mapM f l = Ok l' -> length l' = length l.
Proof.
  revert l'. induction l as [|a l IH]; intros l' H; simpl in H.
  - now inversion H.
  - destruct (f a) as [b|e]; [|discriminate]. simpl in H.
    destruct (mapM f l) as [bs|e]; [|discriminate]. simpl in H.
    inversion H; subst. simpl. f_equal. now apply IH.
Qed.

Lemma set_column_rows_column (rows : list (list float)) (c : nat)
    (ys vals : list float) :
  mapM (fun row => getitem row c) rows = Ok ys ->
  length vals = length ys ->
  mapM (fun row => getitem row c) (set_column_rows rows c vals) = Ok vals.
Proof.
  revert ys vals. induction rows as [|r rows IH]; intros ys vals H Hlen.
  - simpl in H. inversion H; subst. destruct vals; [reflexivity|discriminate].
  - simpl in H. unfold getitem at 1 in H.
    destruct (r !! c) as [v0|] eqn:Hr; [|discriminate]. simpl in H.
    destruct (mapM _ rows) as [ys'|e] eqn:Hm; [|discriminate]. simpl in H.
    inversion H; subst. destruct vals as [|v vals]; [discriminate|].
    simpl in Hlen. simpl. unfold getitem at 1.
    rewrite list_lookup_insert_eq by (eapply lookup_lt_Some; eauto).
    simpl. erewrite IH; eauto.
Qed.

Lemma column_set_column (a : ndarray) (c : nat) (ys vals : list float) :
  column a c = Ok ys -> length vals = length ys ->
  column (set_column a c vals) c = Ok vals.
Proof.
  destruct a as [v|l|[|r rows]]; try discriminate.
  intros H Hlen. unfold column in H.
  pose proof (set_column_rows_column (r :: rows) c ys vals H Hlen) as Hs.
  simpl. destruct vals as [|v vals].
  - apply mapM_length in H. simpl in H. rewrite <- Hlen in H. discriminate.
  - exact Hs.
Qed.

Lemma mbind_ok {S A B : Type} (m : State S A) (k : A -> State S B)
    (s s' : S) (a : A) :
  m s = (Ok a, s') -> mbind m k s = k a s'.
Proof. intros H. unfold mbind. now rewrite H. Qed.

Lemma mbind_error {S A B : Type} (m : State S A) (k : A -> State S B)
    (s s' : S) (e : exn) :
  m s = (Error e, s') -> mbind m k s = (Error e, s').
Proof. intros H. unfold mbind. now rewrite H. Qed.

Lemma mbind_lift_ok {S A B : Type} (r : result A) (k : A -> State S B)
    (s : S) (a : A) :
  r = Ok a -> mbind (lift r) k s = k a s.
Proof. intros ->. reflexivity. Qed.

Section EstimatorProperties.

Context (numpy_load : string -> result ndarray)
        (polyfit : list float -> list float -> Z -> result (list float))
        (tck : Type)
        (splrep : list float -> list float -> Z -> result tck)
        (splev1 : tck -> float -> result float)
        (plot_noise_weights :
           list float -> list float -> list float -> list float ->
           list float -> Z -> string -> result unit)
        (noise_dtype : dtype).

(** The definitions are unfolded by name before the names are taken by the
    abbreviations below. *)
Local Ltac unfold_fit_noise := unfold fit_noise.
Local Ltac unfold_load_data := unfold load_data.
Local Ltac unfold_weights := unfold weights_of_noise.
Local Tactic Notation "unfold_estimate_weights" := unfold estimate_weights.
Local Tactic Notation "unfold_estimate_weights" "in" hyp(H) :=
  unfold estimate_weights in H.

Local Abbreviation estimate_weights :=
  (estimate_weights numpy_load polyfit tck splrep splev1
     plot_noise_weights noise_dtype).
Local Abbreviation weights_of_noise := (weights_of_noise noise_dtype).
Local Abbreviation fit_noise := (fit_noise polyfit tck splrep splev1).
Local Abbreviation load_data := (load_data numpy_load).

Lemma fit_noise_length (smooth : string) (x y : list float) (order : Z)
    (fs noise : list float) :
  fit_noise smooth x y order fs = Ok noise -> length noise = length fs.
Proof.
  unfold_fit_noise.
  destruct (String.eqb smooth "polyn").
  - destruct (polyfit x y order) as [p|e]; [|discriminate].
    simpl. intros H. inversion H; subst. apply length_map.
  - destruct (String.eqb smooth "spline"); [|discriminate].
    destruct (splrep x y order) as [t|e]; [|discriminate].
    simpl. apply mapM_length.
Qed.

(** [__data] is a new object: the heap grows by it, or is left as it was
    when loading fails. *)
Lemma load_data_new (stats_data : pyobj) (h h1 : heap) (r : result loc) :
  load_data stats_data h = (r, h1) ->
  (exists a, r = Ok (length h) /\ h1 = h ++ [a]) \/
  (exists e, r = Error e /\ h1 = h).
Proof.
  unfold_load_data. unfold array_of, mbind, lift, mret, new, deref.
  destruct stats_data as [|b|path|l].
  - intros H; inversion H; subst. left. eauto.
  - intros H; inversion H; subst. left. eauto.
  - destruct (numpy_load path) as [a|e]; intros H; inversion H; subst;
      [left|right]; eauto.
  - destruct (getitem h l) as [o|e]; [|intros H; inversion H; right; eauto].
    destruct (numpy_array o) as [a|e]; intros H; inversion H; subst;
      [left|right]; eauto.
Qed.

Lemma deref_new (h : heap) (a : ndarray) :
  deref (length h) (h ++ [a]) = (Ok a, h ++ [a]).
Proof.
  unfold deref, getitem. now rewrite list_lookup_middle.
Qed.

Lemma assign_new (h : heap) (a a' : ndarray) :
  assign (length h) a' (h ++ [a]) = (Ok tt, h ++ [a']).
Proof.
  unfold assign. f_equal.
  rewrite insert_app_r_alt by lia.
  now replace (length h - length h)%nat with 0%nat by lia.
Qed.

(** Line 113 on the new object. *)
Lemma normalise_inplace_new (h : heap) (a : ndarray) :
  normalise_inplace (length h) (h ++ [a]) =
  match column a 1 with
  | Error e => (Error e, h ++ [a])
  | Ok y =>
      match amax y with
      | Error e => (Error e, h ++ [a])
      | Ok m => (Ok tt, h ++ [set_column a 1 (map (fun v => fdiv v m) y)])
      end
  end.
Proof.
  unfold normalise_inplace, mbind. rewrite deref_new. unfold lift.
  destruct (column a 1) as [y|e]; [|reflexivity].
  destruct (amax y) as [m|e]; [|reflexivity].
  apply assign_new.
Qed.

(** One run of [estimate_weights] on data that loads as the array [a] with
    columns [x] and [y]: the fit is called once, on [x] in MHz and on [y]
    (divided by its maximum [m] when asked), whatever [fit_order] is. *)
Lemma estimate_weights_run (self : MSNoise) (mode : string)
    (stats_data : pyobj) (normalise : bool) (smooth : string)
    (fit_order : Z) (plot_stats : plot_arg) (h : heap) (a : ndarray)
    (x y : list float) (m : float) :
  curve_loads numpy_load stats_data h a x y m ->
  estimate_weights self mode stats_data normalise smooth fit_order
    plot_stats h =
  ((let! noise := fit_noise smooth (map (fun v => fmul v MHz) x)
                    (fitted_y normalise y m) fit_order
                    (map (fun v => fmul v MHz) (freqs self)) in
    let! _ := (if truthy plot_stats
               then plot_noise_weights (map (fun v => fmul v MHz) x)
                      (fitted_y normalise y m) (freqs self) noise
                      (weights_of_noise noise) fit_order
                      (plot_file self plot_stats)
               else Ok tt) in
    Ok (noise, weights_of_noise noise))%result,
   h ++ [final_data normalise a y m]).
Proof.
  intros (Hload & Hx & Hy & Hm).
  unfold_estimate_weights.
  rewrite (mbind_ok _ _ _ _ _ Hload).
  rewrite (mbind_ok _ _ _ _ _ (deref_new h a)).
  rewrite (mbind_lift_ok _ _ _ _ Hx), (mbind_lift_ok _ _ _ _ Hy).
  assert (Hnorm :
    (if normalise then normalise_inplace (length h) else mret tt)
      (h ++ [a]) = (Ok tt, h ++ [final_data normalise a y m])).
  { unfold final_data, fitted_y. destruct normalise; [|reflexivity].
    rewrite normalise_inplace_new, Hy, Hm. reflexivity. }
  rewrite (mbind_ok _ _ _ _ _ Hnorm).
  rewrite (mbind_ok _ _ _ _ _ (deref_new h _)).
  assert (Hy' : column (final_data normalise a y m) 1
                = Ok (fitted_y normalise y m)).
  { unfold final_data, fitted_y. destruct normalise; [|exact Hy].
    eapply column_set_column; [exact Hy|]. apply length_map. }
  rewrite (mbind_lift_ok _ _ _ _ Hy').
  unfold mbind, lift, mret.
  destruct (fit_noise _ _ _ _ _) as [noise|e]; [|reflexivity].
  cbn [rbind].
  destruct (truthy plot_stats); [|reflexivity].
  destruct (plot_noise_weights _ _ _ _ _ _ _) as [[]|e]; reflexivity.
Qed.

Lemma column_amax (a : ndarray) (c : nat) (y : list float) :
  column a c = Ok y -> exists m, amax y = Ok m.
Proof.
  destruct a as [v|l|[|r rows]]; try discriminate.
  intros H. apply mapM_length in H.
  destruct y as [|v y]; [discriminate|]. simpl. eauto.
Qed.

(** A run that returns went through every stage. *)
Lemma estimate_weights_inv (self : MSNoise) (mode : string)
    (stats_data : pyobj) (normalise : bool) (smooth : string)
    (fit_order : Z) (plot_stats : plot_arg) (h h' : heap)
    (noise weights : list float) :
  estimate_weights self mode stats_data normalise smooth fit_order
    plot_stats h = (Ok (noise, weights), h') ->
  exists a x y m,
    curve_loads numpy_load stats_data h a x y m /\
    fit_noise smooth (map (fun v => fmul v MHz) x)
      (fitted_y normalise y m) fit_order
      (map (fun v => fmul v MHz) (freqs self)) = Ok noise /\
    weights = weights_of_noise noise /\
    h' = h ++ [final_data normalise a y m].
Proof.
  intros Hrun.
  destruct (load_data stats_data h) as [r h1] eqn:Hload.
  destruct (load_data_new _ _ _ _ Hload) as [(a & -> & ->)|(e & -> & ->)].
  2:{ unfold_estimate_weights in Hrun.
      rewrite (mbind_error _ _ _ _ _ Hload) in Hrun. discriminate. }
  destruct (column a 0) as [x|e] eqn:Hx.
  2:{ unfold_estimate_weights in Hrun.
      rewrite (mbind_ok _ _ _ _ _ Hload) in Hrun.
      rewrite (mbind_ok _ _ _ _ _ (deref_new h a)) in Hrun.
      unfold mbind at 1, lift at 1 in Hrun. rewrite Hx in Hrun.
      discriminate. }
  destruct (column a 1) as [y|e] eqn:Hy.
  2:{ unfold_estimate_weights in Hrun.
      rewrite (mbind_ok _ _ _ _ _ Hload) in Hrun.
      rewrite (mbind_ok _ _ _ _ _ (deref_new h a)) in Hrun.
      rewrite (mbind_lift_ok _ _ _ _ Hx) in Hrun.
      unfold mbind at 1, lift at 1 in Hrun. rewrite Hy in Hrun.
      discriminate. }
  destruct (column_amax _ _ _ Hy) as [m Hm].
  assert (Hc : curve_loads numpy_load stats_data h a x y m)
    by (repeat split; assumption).
  rewrite (estimate_weights_run self mode _ normalise smooth fit_order
             plot_stats _ _ _ _ _ Hc) in Hrun.
  exists a, x, y, m. split; [exact Hc|].
  destruct (fit_noise _ _ _ _ _) as [noise'|e]; [|discriminate].
  cbn [rbind] in Hrun.
  destruct (if truthy plot_stats then _ else _) as [[]|e];
    [|discriminate].
  cbn [rbind] in Hrun. inversion Hrun; subst. auto.
Qed.

(** Every object of the heap before the call is there, unchanged, after
    it. *)
Lemma estimate_weights_heap (self : MSNoise) (mode : string)
    (stats_data : pyobj) (normalise : bool) (smooth : string)
    (fit_order : Z) (plot_stats : plot_arg) (h : heap) :
  exists fresh,
    snd (estimate_weights self mode stats_data normalise smooth fit_order
           plot_stats h) = h ++ fresh.
Proof.
  destruct (load_data stats_data h) as [r h1] eqn:Hload.
  destruct (load_data_new _ _ _ _ Hload) as [(a & -> & ->)|(e & -> & ->)].
  2:{ exists []. unfold_estimate_weights.
      rewrite (mbind_error _ _ _ _ _ Hload). simpl. now rewrite app_nil_r. }
  unfold_estimate_weights.
  rewrite (mbind_ok _ _ _ _ _ Hload).
  rewrite (mbind_ok _ _ _ _ _ (deref_new h a)).
  destruct (column a 0) as [x|e] eqn:Hx; [|eexists; reflexivity].
  rewrite (mbind_lift_ok _ _ _ _ eq_refl).
  destruct (column a 1) as [y|e] eqn:Hy; [|eexists; reflexivity].
  rewrite (mbind_lift_ok _ _ _ _ eq_refl).
  destruct (column_amax _ _ _ Hy) as [m Hm].
  assert (Hc : curve_loads numpy_load stats_data h a x y m)
    by (repeat split; assumption).
  pose proof (estimate_weights_run self mode _ normalise smooth fit_order
                plot_stats _ _ _ _ _ Hc) as Hrun.
  unfold_estimate_weights in Hrun.
  rewrite (mbind_ok _ _ _ _ _ Hload) in Hrun.
  rewrite (mbind_ok _ _ _ _ _ (deref_new h a)) in Hrun.
  rewrite (mbind_lift_ok _ _ _ _ Hx) in Hrun.
  rewrite (mbind_lift_ok _ _ _ _ Hy) in Hrun.
  rewrite Hrun. eexists. reflexivity.
Qed.

(** C1, as the code has it.  Whenever [estimate_weights] returns, the
    noise and the weights have one entry per channel of the frequency axis,
    and the weight of every channel is the floating-point quotient
    [1.0 / (noise * noise)] in the precision of the noise array, each of the
    two operations rounded to nearest.  Where the square of the noise is in
    the normal range of that precision, from [2^(2 - emax)] to
    [2^(emax - 3)], the weight is a number and [weight * noise^2] is within
    [3 * 2^-prec] of 1; it need not be 1. *)
Theorem weights_inverse_noise_squared (self : MSNoise) (mode : string)
    (stats_data : pyobj) (normalise : bool) (smooth : string)
    (fit_order : Z) (plot_stats : plot_arg) (h h' : heap)
    (noise weights : list float) :
  estimate_weights self mode stats_data normalise smooth fit_order
    plot_stats h = (Ok (noise, weights), h') ->
  length noise = length (freqs self) /\
  length weights = length (freqs self) /\
  (forall (c : nat) (n : float),
      noise !! c = Some n ->
      weights !! c
      = Some (fdiv_r noise_dtype fone (fmul_r noise_dtype n n))) /\
  (forall (c : nat) (q : Q),
      noise !! c = Some (Fin q) ->
      (pow2 (2 - emax noise_dtype) <= q * q)%Q ->
      (q * q <= pow2 (emax noise_dtype - 3))%Q ->
      exists w : Q,
        weights !! c = Some (Fin w) /\
        (Qabs (w * (q * q) - 1) <= 3 * pow2 (- prec noise_dtype))%Q).
Proof.
  intros Hrun.
  apply estimate_weights_inv in Hrun
    as (a & x & y & m & _ & Hfit & -> & _).
  apply fit_noise_length in Hfit. rewrite length_map in Hfit.
  assert (Hw : forall c n, noise !! c = Some n ->
               weights_of_noise noise !! c
               = Some (fdiv_r noise_dtype fone (fmul_r noise_dtype n n))).
  { intros c n Hc. unfold_weights.
    now rewrite list_lookup_fmap, Hc. }
  repeat split.
  - exact Hfit.
  - unfold_weights. now rewrite length_map.
  - exact Hw.
  - intros c q Hc Hlo Hhi.
    destruct (weight_times_noise_squared noise_dtype q Hlo Hhi)
      as (w & Hwq & Hbound).
    exists w. split; [|exact Hbound].
    rewrite (Hw c _ Hc). now rewrite Hwq.
Qed.

(** C3, as the code has it.  No error is raised for a fitted noise that is
    zero: when the curve loads, the fit returns [noise] and the figure, if
    one is asked for, is drawn, [estimate_weights] returns [noise] with its
    weights, and the weight of a channel whose noise is zero is [+inf]. *)
Theorem zero_noise_gives_infinite_weight (self : MSNoise) (mode : string)
    (stats_data : pyobj) (normalise : bool) (smooth : string)
    (fit_order : Z) (plot_stats : plot_arg) (h : heap) (a : ndarray)
    (x y : list float) (m : float) (noise : list float) (c : nat)
    (n : float) :
  curve_loads numpy_load stats_data h a x y m ->
  fit_noise smooth (map (fun v => fmul v MHz) x) (fitted_y normalise y m)
    fit_order (map (fun v => fmul v MHz) (freqs self)) = Ok noise ->
  (truthy plot_stats = true ->
   plot_noise_weights (map (fun v => fmul v MHz) x) (fitted_y normalise y m)
     (freqs self) noise (weights_of_noise noise) fit_order
     (plot_file self plot_stats) = Ok tt) ->
  noise !! c = Some n -> is_zero n = true ->
  fst (estimate_weights self mode stats_data normalise smooth fit_order
         plot_stats h) = Ok (noise, weights_of_noise noise) /\
  weights_of_noise noise !! c = Some PInf.
Proof.
  intros Hc Hfit Hplot Hn Hz.
  rewrite (estimate_weights_run self mode _ normalise smooth fit_order
             plot_stats _ _ _ _ _ Hc).
  rewrite Hfit. cbn [rbind fst]. split.
  - destruct (truthy plot_stats); [|reflexivity].
    now rewrite Hplot.
  - unfold_weights. rewrite list_lookup_fmap, Hn.
    change (Some (fdiv_r noise_dtype fone (fmul_r noise_dtype n n))
            = Some PInf).
    now rewrite weight_of_zero_noise.
Qed.




(** C6, as the code has it.  [fit_order] is not checked: when the curve
    loads, [estimate_weights] hands it as it is to [numpy.polyfit] (as the
    degree) or to [splrep] (as the smoothing factor), goes on with the noise
    and the weights of whatever fit that routine returns, and raises at this
    step only what that routine or [splev] raises.  The figure, if one is
    asked for, is drawn from that noise and those weights, and they are
    returned. *)
Theorem fit_order_passed_unchecked (self : MSNoise) (mode : string)
    (stats_data : pyobj) (normalise : bool) (fit_order : Z)
    (plot_stats : plot_arg) (h : heap) (a : ndarray) (x y : list float)
    (m : float) :
  curve_loads numpy_load stats_data h a x y m ->
  let x' := map (fun v => fmul v MHz) x in
  let y' := fitted_y normalise y m in
  let freqs' := map (fun v => fmul v MHz) (freqs self) in
  let finish := fun noise : list float =>
    (let! _ := (if truthy plot_stats
                then plot_noise_weights x' y' (freqs self) noise
                       (weights_of_noise noise) fit_order
                       (plot_file self plot_stats)
                else Ok tt) in
     Ok (noise, weights_of_noise noise))%result in
  fst (estimate_weights self mode stats_data normalise "polyn" fit_order
         plot_stats h)
  = (let! fit_parms := polyfit x' y' fit_order in
     finish (map (polyval (poly1d fit_parms)) freqs'))%result /\
  fst (estimate_weights self mode stats_data normalise "spline" fit_order
         plot_stats h)
  = (let! fit_parms := splrep x' y' fit_order in
     let! noise := mapM (splev1 fit_parms) freqs' in
     finish noise)%result.
Proof.
  intros Hc x' y' freqs' finish. split.
  - rewrite (estimate_weights_run self mode _ normalise "polyn" fit_order
               plot_stats _ _ _ _ _ Hc).
    unfold_fit_noise. cbn [String.eqb fst].
    fold x' y' freqs'.
    destruct (polyfit x' y' fit_order) as [p|e]; reflexivity.
  - rewrite (estimate_weights_run self mode _ normalise "spline" fit_order
               plot_stats _ _ _ _ _ Hc).
    unfold_fit_noise. cbn [fst].
    fold x' y' freqs'.
    change (String.eqb "spline" "polyn") with false.
    change (String.eqb "spline" "spline") with true. cbv iota.
    destruct (splrep x' y' fit_order) as [t|e]; [|reflexivity].
    cbn [rbind]. destruct (mapM (splev1 t) freqs'); reflexivity.
Qed.

(** C10. The array the caller supplies as [stats_data] holds after the call
    what it held before: [__data] is a new object and the division in
    place writes to it alone. *)
Theorem stats_data_not_mutated (self : MSNoise) (mode : string) (l : loc)
    (normalise : bool) (smooth : string) (fit_order : Z)
    (plot_stats : plot_arg) (h : heap) (a : ndarray) :
  h !! l = Some a ->
  snd (estimate_weights self mode (PyRef l) normalise smooth fit_order
         plot_stats h) !! l = Some a.
Proof.
  intros Hl.
  destruct (estimate_weights_heap self mode (PyRef l) normalise smooth
              fit_order plot_stats h) as [fresh ->].
  now apply lookup_app_l_Some.
Qed.

End EstimatorProperties.

(** *** The estimator on the scenario *)

Section EstimatorScenario.

Import Scenario.

Local Abbreviation run := (Exact.estimate_weights self "specs").
Local Abbreviation loads :=
  (curve_loads Exact.numpy_load (PyRef 0%nat)).
Local Abbreviation MHz_of := (map (fun v => fmul v MHz)).

(** The scenario of the specification: a curve of three points, fitted by
    a parabola and sampled at the four channels. *)
Lemma weights_inverse_noise_squared_witness :
  run (PyRef 0%nat) true "polyn" 2 (PlotFlag true) [sefd]
  = (Ok (noise, weights), [sefd; sefd_normalised]) /\
  (length noise = length (freqs self) /\
   length weights = length (freqs self) /\
   (forall (c : nat) (n : float),
       noise !! c = Some n ->
       weights !! c = Some (fdiv_r float64 fone (fmul_r float64 n n))) /\
   (forall (c : nat) (q : Q),
       noise !! c = Some (Fin q) ->
       (pow2 (2 - emax float64) <= q * q)%Q ->
       (q * q <= pow2 (emax float64 - 3))%Q ->
       exists w : Q,
         weights !! c = Some (Fin w) /\
         (Qabs (w * (q * q) - 1) <= 3 * pow2 (- prec float64))%Q)).
Proof.
  split; [vm_compute; reflexivity|].
  apply (weights_inverse_noise_squared Exact.numpy_load Exact.polyfit
           Exact.no_tck Exact.splrep Exact.splev1 Exact.plot_noise_weights
           float64 self "specs" (PyRef 0%nat) true "polyn" 2 (PlotFlag true)
           [sefd] [sefd; sefd_normalised]).
  vm_compute; reflexivity.
Defined.

(** A constant curve of 115, fitted by a constant: the noise is 115 at
    every channel, not zero, and the weight is the double nearest to
    [1 / 13225], 7.561436672967863e-05.  The claim asks for
    [weight * noise^2 = 1]: the product is not 1, and computed in doubles it
    is 0.9999999999999999. *)
Lemma weight_times_noise_squared_not_one :
  let w := Fin (87177429459875 # 1152921504606846976) in
  run (PyRef 0%nat) false "polyn" 0 (PlotFlag true) [loud_curve]
  = (Ok ([Fin 115; Fin 115; Fin 115; Fin 115], [w; w; w; w]),
     [loud_curve; loud_curve]) /\
  fmul w (fmul (Fin 115) (Fin 115)) <> fone /\
  fmul_r float64 w (fmul_r float64 (Fin 115) (Fin 115))
  = Fin (9007199254740991 # 9007199254740992).
Proof.
  intros w. split; [vm_compute; reflexivity|].
  split; [vm_compute; discriminate|vm_compute; reflexivity].
Qed.

(** Outside the normal range a noise that is not zero can have an infinite
    weight, or the weight zero: in doubles the square of 1e-200 is zero and
    the square of 1e200 is infinite. *)
Example weight_outside_normal_range :
  fdiv_r float64 fone
    (fmul_r float64 (Fin (1 # 10 ^ 200)) (Fin (1 # 10 ^ 200))) = PInf /\
  fdiv_r float64 fone
    (fmul_r float64 (of_int (10 ^ 200)) (of_int (10 ^ 200))) = Fin 0.
Proof. split; vm_compute; reflexivity. Qed.

(** A curve that is zero everywhere, fitted by a constant: the claim asks
    for an error, the code returns infinite weights. *)
Lemma zero_noise_not_rejected :
  run (PyRef 0%nat) false "polyn" 0 (PlotFlag false) [zero_curve]
  = (Ok ([Fin 0; Fin 0; Fin 0; Fin 0], [PInf; PInf; PInf; PInf]),
     [zero_curve; zero_curve]).
Proof. vm_compute; reflexivity. Qed.

(** The same curve, with the figure of the default [plot_stats=True]. *)
Lemma zero_noise_gives_infinite_weight_witness :
  let x := [Hz 900000000; Hz 1100000000] in
  let y := [Fin 0; Fin 0] in
  let noise := [Fin 0; Fin 0; Fin 0; Fin 0] in
  (loads [zero_curve] zero_curve x y (Fin 0) /\
   fit_noise Exact.polyfit Exact.no_tck Exact.splrep Exact.splev1 "polyn"
     (MHz_of x) (fitted_y false y (Fin 0)) 0 (MHz_of (freqs self))
   = Ok noise /\
   (truthy (PlotFlag true) = true ->
    Exact.plot_noise_weights (MHz_of x) (fitted_y false y (Fin 0))
      (freqs self) noise (weights_of_noise float64 noise) 0
      (plot_file self (PlotFlag true)) = Ok tt) /\
   noise !! 2%nat = Some (Fin 0) /\ is_zero (Fin 0) = true) /\
  (fst (run (PyRef 0%nat) false "polyn" 0 (PlotFlag true) [zero_curve])
   = Ok (noise, weights_of_noise float64 noise) /\
   weights_of_noise float64 noise !! 2%nat = Some PInf).
Proof.
  intros x y noise.
  assert (Hc : loads [zero_curve] zero_curve x y (Fin 0))
    by (repeat split; reflexivity).
  assert (Hfit :
    fit_noise Exact.polyfit Exact.no_tck Exact.splrep Exact.splev1 "polyn"
      (MHz_of x) (fitted_y false y (Fin 0)) 0 (MHz_of (freqs self))
    = Ok noise) by (vm_compute; reflexivity).
  split; [repeat split; try reflexivity; assumption|].
  exact (zero_noise_gives_infinite_weight Exact.numpy_load Exact.polyfit
           Exact.no_tck Exact.splrep Exact.splev1 Exact.plot_noise_weights
           float64 self "specs" (PyRef 0%nat) false "polyn" 0
           (PlotFlag true) [zero_curve] zero_curve x y (Fin 0) noise
           2%nat (Fin 0) Hc Hfit (fun _ => eq_refl) eq_refl eq_refl).
Defined.



(** A fit of degree 0 to two points: the claim asks for an error, the code
    fits the constant 3 and returns, the weights being the double nearest
    to [1 / 9]. *)
Lemma degree_zero_not_rejected :
  let w := Fin (2001599834386887 # 18014398509481984) in
  run (PyRef 0%nat) false "polyn" 0 (PlotFlag false) [rising_curve]
  = (Ok ([Fin 3; Fin 3; Fin 3; Fin 3], [w; w; w; w]),
     [rising_curve; rising_curve]).
Proof. vm_compute; reflexivity. Qed.

Lemma fit_order_passed_unchecked_witness :
  let x := MHz_of [Hz 900000000; Hz 1100000000] in
  let y := fitted_y false [Fin 2; Fin 4] (Fin 4) in
  let freqs' := MHz_of (freqs self) in
  let finish := fun noise : list float =>
    (let! _ := (if truthy (PlotFlag true)
                then Exact.plot_noise_weights x y (freqs self) noise
                       (weights_of_noise float64 noise) 0
                       (plot_file self (PlotFlag true))
                else Ok tt) in
     Ok (noise, weights_of_noise float64 noise))%result in
  loads [rising_curve] rising_curve [Hz 900000000; Hz 1100000000]
    [Fin 2; Fin 4] (Fin 4) /\
  (fst (run (PyRef 0%nat) false "polyn" 0 (PlotFlag true) [rising_curve])
   = (let! fit_parms := Exact.polyfit x y 0 in
      finish (map (polyval (poly1d fit_parms)) freqs'))%result /\
   fst (run (PyRef 0%nat) false "spline" 0 (PlotFlag true) [rising_curve])
   = (let! fit_parms := Exact.splrep x y 0 in
      let! noise := mapM (Exact.splev1 fit_parms) freqs' in
      finish noise)%result).
Proof.
  intros x y freqs' finish.
  assert (Hc : loads [rising_curve] rising_curve
                 [Hz 900000000; Hz 1100000000] [Fin 2; Fin 4] (Fin 4))
    by (repeat split; reflexivity).
  split; [exact Hc|].
  exact (fit_order_passed_unchecked Exact.numpy_load Exact.polyfit
           Exact.no_tck Exact.splrep Exact.splev1 Exact.plot_noise_weights
           float64 self "specs" (PyRef 0%nat) false 0 (PlotFlag true)
           [rising_curve] rising_curve [Hz 900000000; Hz 1100000000]
           [Fin 2; Fin 4] (Fin 4) Hc).
Defined.

Lemma stats_data_not_mutated_witness :
  [sefd] !! 0%nat = Some sefd /\
  snd (run (PyRef 0%nat) true "polyn" 2 (PlotFlag false) [sefd]) !! 0%nat
  = Some sefd.
Proof.
  split; [reflexivity|].
  exact (stats_data_not_mutated Exact.numpy_load Exact.polyfit
           Exact.no_tck Exact.splrep Exact.splev1 Exact.plot_noise_weights
           float64 self "specs" 0%nat true "polyn" 2 (PlotFlag false) [sefd]
           sefd eq_refl).
Defined.

End EstimatorScenario.

(** ** Properties of the writer *)

(** A strictly monotone function of the index gives a strictly sorted
    list. *)
Lemma StronglySorted_map_seq {A : Type} (R : A -> A -> Prop)
    (g : nat -> A) (start len : nat) :
  (forall i j : nat, (i < j)%nat -> R (g i) (g j)) ->
  StronglySorted R (map g (seq start len)).
Proof.
  intros Hmono. revert start.
  induction len as [|len IH]; intros start; simpl; constructor.
  - apply IH.
  - apply List.Forall_forall. intros y Hy.
    apply in_map_iff in Hy as (j & <- & Hj).
    apply in_seq in Hj. apply Hmono. lia.
Qed.

Lemma chunks_length {A : Type} (n k : nat) (l : list A) :
  length (chunks n k l) = k.
Proof.
  revert l. induction k as [|k IH]; intros l; simpl; [reflexivity|].
  now rewrite IH.
Qed.

Lemma chunks_Forall {A : Type} (P : A -> Prop) (n k : nat) (l : list A) :
  Forall P l -> Forall (Forall P) (chunks n k l).
Proof.
  revert l. induction k as [|k IH]; intros l Hl; simpl; constructor.
  - now apply Forall_take.
  - apply IH. now apply Forall_drop.
Qed.

Lemma Forall_zip_with_r {A B C : Type} (f : A -> B -> C) (P : B -> Prop)
    (Q : C -> Prop) (l1 : list A) (l2 : list B) :
  (forall a b, P b -> Q (f a b)) ->
  Forall P l2 -> Forall Q (zip_with f l1 l2).
Proof.
  intros Hf Hl. revert l1.
  induction Hl as [|b l2 Hb _ IH]; intros [|a l1]; simpl; constructor; auto.
Qed.

Lemma ones_times_length (nr nchan ncor : Z) (data : list float)
    (d : cube float) :
  ones_times nr nchan ncor data = Ok d ->
  length d = Z.to_nat nr /\ 0 <= nr.
Proof.
  unfold ones_times.
  destruct ((nr <? 0) || (nchan <? 0) || (ncor <? 0)) eqn:Hneg;
    [discriminate|].
  destruct (broadcast _ _) as [c|e]; [|discriminate].
  simpl. intros H. inversion H; subst. rewrite length_replicate.
  split; [reflexivity|].
  apply orb_false_iff in Hneg as [Hneg _].
  apply orb_false_iff in Hneg as [Hneg _]. lia.
Qed.

(** A mask made from flags that are all set is all set, and has as many rows
    as the data. *)
Lemma mask_for_all_flagged (d1 d2 d3 : nat) (flags mask : cube bool) :
  all_flagged flags ->
  mask_for d1 d2 d3 flags = Ok mask ->
  length mask = d1 /\
  Forall (Forall (Forall (fun b => b = true))) mask.
Proof.
  unfold all_flagged, mask_for. intros Hall.
  destruct (length (concat (concat flags)) =? d1 * d2 * d3)%nat.
  - intros H; inversion H; subst. unfold reshape3. split.
    + rewrite length_map. apply chunks_length.
    + apply Forall_fmap. eapply Forall_impl.
      * apply chunks_Forall, Hall.
      * intros l Hl. now apply chunks_Forall.
  - destruct (length (concat (concat flags)) =? 1)%nat eqn:Hone;
      [|discriminate].
    intros H; inversion H; subst. unfold reshape3. split.
    + rewrite length_map. apply chunks_length.
    + assert (Hb : nth 0 (concat (concat flags)) false = true).
      { destruct (concat (concat flags)) as [|b l]; [discriminate|].
        inversion Hall; subst. reflexivity. }
      rewrite Hb. apply Forall_fmap. eapply Forall_impl.
      * apply (chunks_Forall (fun b => b = true)), Forall_replicate.
        reflexivity.
      * intros l Hl. now apply chunks_Forall.
Qed.

Lemma filled0_all_masked (data : cube float) (mask : cube bool) :
  Forall (Forall (Forall (fun b => b = true))) mask ->
  Forall (Forall (Forall (fun v => v = fzero))) (filled0 data mask).
Proof.
  unfold filled0. apply Forall_zip_with_r. intros row mrow.
  apply Forall_zip_with_r. intros ch mch.
  apply Forall_zip_with_r. intros v b ->. reflexivity.
Qed.

Lemma fold_fadd_zeros (l : list float) :
  Forall (fun v => v = fzero) l -> fold_left fadd l fzero = fzero.
Proof.
  induction 1 as [|v l -> _ IH]; [reflexivity|]. exact IH.
Qed.

Lemma nth_zero (k : nat) (ch : list float) :
  Forall (fun v => v = fzero) ch -> nth k ch fzero = fzero.
Proof.
  intros H. revert k.
  induction H as [|v ch -> _ IH]; intros [|k]; simpl; auto.
Qed.

Lemma map_const_seq {A : Type} (f : nat -> A) (a : A) (start len : nat) :
  (forall k, f k = a) -> map f (seq start len) = replicate len a.
Proof.
  intros Hf. revert start.
  induction len as [|len IH]; intros start; simpl; [reflexivity|].
  now rewrite Hf, IH.
Qed.

Lemma sum_axis1_zero (d3 : nat) (a : cube float) :
  Forall (Forall (Forall (fun v => v = fzero))) a ->
  sum_axis1 d3 a = replicate (length a) (replicate d3 fzero).
Proof.
  unfold sum_axis1.
  induction 1 as [|chans a Hchans _ IH]; [reflexivity|].
  cbn [map length replicate]. rewrite IH. f_equal.
  apply map_const_seq. intros k. apply fold_fadd_zeros.
  apply Forall_fmap. eapply Forall_impl; [exact Hchans|].
  intros ch Hch. now apply nth_zero.
Qed.

(** The sum of a chunk whose rows are all flagged. *)
Lemma masked_sum_all_flagged (d3 : nat) (data : cube float)
    (mask : cube bool) :
  length mask = length data ->
  Forall (Forall (Forall (fun b => b = true))) mask ->
  masked_sum d3 data mask = replicate (length data) (replicate d3 fzero).
Proof.
  intros Hlen Hmask. unfold masked_sum.
  rewrite sum_axis1_zero by now apply filled0_all_masked.
  unfold filled0. rewrite length_zip_with. f_equal. lia.
Qed.

Section WriterProperties.

Context (addcol : list call -> string -> string -> list Z -> result unit)
        (table : list call -> string -> result unit)
        (getcol : list call -> string -> Z -> Z -> result (cube bool))
        (putcol : list call -> string -> coldata -> Z -> Z -> result unit)
        (close : list call -> result unit)
        (masked_std : cube float -> cube bool -> list (list float)).

Local Ltac unfold_write_chunk := unfold write_chunk.
Local Ltac unfold_write_toms := unfold write_toms.

Local Abbreviation write_toms :=
  (write_toms addcol table getcol putcol close masked_std).
Local Abbreviation write_chunks :=
  (write_chunks getcol putcol masked_std).
Local Abbreviation write_chunk :=
  (write_chunk getcol putcol masked_std).
Local Abbreviation init_columns := (init_columns addcol).
Local Abbreviation chunk_trace := (chunk_trace getcol masked_std).
Local Abbreviation loop_trace := (loop_trace getcol masked_std).
Local Abbreviation scalar_write_at := (scalar_write_at getcol masked_std).

Lemma init_columns_trace (msname : string) (cols : list (string * list Z))
    (tr tr' : list call) (r : result unit) :
  init_columns msname cols tr = (r, tr') ->
  exists evs, tr' = tr ++ evs /\ Forall is_setup evs.
Proof.
  revert tr. induction cols as [|[column shape] cols IH]; intros tr H.
  - inversion H; subst. exists []. now rewrite app_nil_r.
  - change (init_columns msname ((column, shape) :: cols) tr)
      with (mbind (msutils_addcol addcol msname column shape)
              (fun _ => init_columns msname cols) tr) in H.
    unfold mbind at 1, msutils_addcol in H.
    destruct (addcol tr msname column shape) as [[]|e].
    + apply IH in H as (evs & -> & Hevs).
      exists (Addcol msname column shape :: evs).
      rewrite <- app_assoc. split; [reflexivity|].
      constructor; [exact I|exact Hevs].
    + inversion H; subst. eexists. split; [reflexivity|].
      constructor; [exact I|constructor].
Qed.

(** The calls of one chunk. *)
Lemma write_chunk_trace (self : MSNoise) (data : list float)
    (columns : list string) (stat : string) (rowchunk row0 : Z)
    (tr tr' : list call) (r : result unit) :
  write_chunk self data columns stat rowchunk row0 tr = (r, tr') ->
  exists ev, tr' = tr ++ ev /\
             chunk_trace self data stat rowchunk tr row0 ev.
Proof.
  unfold_write_chunk.
  set (nr := Z.min rowchunk (nrows self - row0)).
  unfold mbind at 1, lift at 1.
  destruct (ones_times nr (nchan self) (ncor self) data) as [d|e] eqn:Hd.
  2:{ intros H; inversion H; subst. exists [].
      rewrite app_nil_r. split; [reflexivity|constructor]. }
  unfold mbind at 1, tab_getcol.
  destruct (getcol tr "FLAG" row0 nr) as [flags|e] eqn:Hflags.
  2:{ intros H; inversion H; subst. eexists. split; [reflexivity|].
      eapply chunk_read; exact Hd. }
  unfold mbind at 1, lift at 1.
  destruct (mask_for _ _ _ flags) as [mask|e] eqn:Hmask.
  2:{ intros H; inversion H; subst. eexists. split; [reflexivity|].
      eapply chunk_read; exact Hd. }
  unfold mbind at 1, lift at 1.
  destruct (getitem columns 1) as [spectral|e].
  2:{ intros H; inversion H; subst. eexists. split; [reflexivity|].
      eapply chunk_read; exact Hd. }
  unfold mbind at 1, tab_putcol at 1.
  rewrite <- app_assoc. cbn [app].
  destruct (putcol _ spectral _ row0 nr) as [[]|e].
  2:{ intros H; inversion H; subst. eexists. split; [reflexivity|].
      eapply chunk_spectral; exact Hd. }
  unfold mbind at 1, lift at 1.
  destruct (getitem columns 0) as [scalar|e].
  2:{ intros H; inversion H; subst. eexists. split; [reflexivity|].
      eapply chunk_spectral; exact Hd. }
  destruct (String.eqb stat "stddev") eqn:Hstd.
  { unfold tab_putcol. rewrite <- app_assoc. cbn [app].
    intros H; inversion H; subst. eexists. split; [reflexivity|].
    pose proof (chunk_scalar getcol masked_std self data stat rowchunk
                  tr row0 d spectral scalar flags mask Hd Hflags Hmask)
      as Hc.
    rewrite Hstd in Hc. exact Hc. }
  destruct (String.eqb stat "sum").
  { unfold tab_putcol. rewrite <- app_assoc. cbn [app].
    intros H; inversion H; subst. eexists. split; [reflexivity|].
    pose proof (chunk_scalar getcol masked_std self data stat rowchunk
                  tr row0 d spectral scalar flags mask Hd Hflags Hmask)
      as Hc.
    rewrite Hstd in Hc. exact Hc. }
  intros H; inversion H; subst. eexists. split; [reflexivity|].
  eapply chunk_spectral; exact Hd.
Qed.

(** The calls of the loop. *)
Lemma write_chunks_trace (self : MSNoise) (data : list float)
    (columns : list string) (stat : string) (rowchunk : Z)
    (offsets : list Z) (tr tr' : list call) (r : result unit) :
  write_chunks self data columns stat rowchunk offsets tr = (r, tr') ->
  exists evs, tr' = tr ++ evs /\
              loop_trace self data stat rowchunk tr offsets evs.
Proof.
  revert tr. induction offsets as [|row0 rest IH]; intros tr H.
  - inversion H; subst. exists []. rewrite app_nil_r.
    split; [reflexivity|constructor].
  - change (write_chunks self data columns stat rowchunk (row0 :: rest) tr)
      with (mbind (write_chunk self data columns stat rowchunk row0)
              (fun _ => write_chunks self data columns stat rowchunk rest)
              tr) in H.
    unfold mbind at 1 in H.
    destruct (write_chunk self data columns stat rowchunk row0 tr)
      as [[[]|e] tr1] eqn:Hchunk;
      apply write_chunk_trace in Hchunk as (ev & -> & Hev).
    + apply IH in H as (evs & -> & Hevs).
      exists (ev ++ evs). rewrite app_assoc. split; [reflexivity|].
      now apply loop_next.
    + inversion H; subst. exists ev. split; [reflexivity|].
      now apply loop_stop.
Qed.

(** The calls of a whole run: the set-up, the loop, and [close] when
    nothing was raised before it. *)
Lemma write_toms_trace (self : MSNoise) (data : list float)
    (columns : list string) (stat : string) (rowchunk : option Z)
    (tr : list call) (r : result unit) :
  write_toms self data columns stat rowchunk [] = (r, tr) ->
  exists pre evs post offsets,
    tr = pre ++ evs ++ post /\
    Forall is_setup pre /\
    loop_trace self data stat (chunk_size self rowchunk) pre offsets evs /\
    (offsets = [] \/
     py_range 0 (nrows self) (chunk_size self rowchunk) = Ok offsets) /\
    ((post = [] /\ exists e, r = Error e) \/
     (post = [Close] /\ r = close (pre ++ evs))).
Proof.
  unfold_write_toms. unfold mbind at 1.
  destruct (init_columns _ _ []) as [[[]|e] tr1] eqn:Hinit;
    apply init_columns_trace in Hinit as (adds & Heq & Hadds);
    cbn [app] in Heq; subst tr1.
  2:{ intros [= <- <-].
      exists adds, [], [], []. rewrite !app_nil_r.
      repeat split; eauto; constructor. }
  unfold mbind at 1, table_open.
  assert (Hpre : Forall is_setup (adds ++ [Open (ms self)])).
  { apply Forall_app. split; [exact Hadds|].
    constructor; [exact I|constructor]. }
  destruct (table adds (ms self)) as [[]|e].
  2:{ intros [= <- <-].
      exists (adds ++ [Open (ms self)]), [], [], []. rewrite !app_nil_r.
      repeat split; eauto; constructor. }
  unfold mbind at 1, lift at 1.
  destruct (py_range 0 (nrows self) (chunk_size self rowchunk))
    as [offsets|e] eqn:Hrange.
  2:{ intros [= <- <-].
      exists (adds ++ [Open (ms self)]), [], [], []. rewrite !app_nil_r.
      repeat split; eauto; constructor. }
  unfold mbind at 1.
  destruct (write_chunks _ _ _ _ _ offsets _) as [[[]|e] tr2] eqn:Hloop;
    apply write_chunks_trace in Hloop as (evs & -> & Hevs).
  - unfold tab_close. intros [= <- <-].
    exists (adds ++ [Open (ms self)]), evs, [Close], offsets.
    rewrite app_assoc. repeat split; auto.
  - intros [= <- <-].
    exists (adds ++ [Open (ms self)]), evs, [], offsets.
    rewrite app_nil_r. repeat split; eauto.
Qed.

Lemma chunk_trace_scalar (self : MSNoise) (data : list float)
    (stat : string) (rowchunk : Z) (tr : list call) (row0 : Z)
    (ev : list call) (i : nat) (c : string) (m : list (list float))
    (r n : Z) :
  chunk_trace self data stat rowchunk tr row0 ev ->
  ev !! i = Some (Putcol c (Scalar m) r n) ->
  scalar_write_at self data stat tr ev i m r n.
Proof.
  intros Hev Hi.
  destruct Hev as [|d Hd|d c1 Hd|d c1 c2 flags mask Hd Hflags Hmask].
  - discriminate.
  - destruct i as [|[|i]]; discriminate.
  - destruct i as [|[|[|i]]]; discriminate.
  - destruct i as [|[|[|i]]]; try discriminate.
    injection Hi as <- <- <- <-.
    exists 0%nat, c1, d, flags, mask. cbn [take]. rewrite app_nil_r.
    repeat split; assumption.
Qed.

Lemma scalar_write_at_shift (self : MSNoise) (data : list float)
    (stat : string) (tr0 ev evs : list call) (i : nat)
    (m : list (list float)) (row0 nr : Z) :
  scalar_write_at self data stat (tr0 ++ ev) evs i m row0 nr ->
  scalar_write_at self data stat tr0 (ev ++ evs) (length ev + i) m row0 nr.
Proof.
  intros (j & c' & d & flags & mask & -> & Hget & Hput & Hd & Hflags
          & Hmask & Hm).
  exists (length ev + j)%nat, c', d, flags, mask.
  repeat split; try assumption.
  - lia.
  - rewrite lookup_app_r by lia.
    now replace (length ev + j - length ev)%nat with j by lia.
  - rewrite lookup_app_r by lia.
    now replace (S (length ev + j) - length ev)%nat with (S j) by lia.
  - now rewrite take_app_add, app_assoc.
Qed.

Lemma scalar_write_at_app_l (self : MSNoise) (data : list float)
    (stat : string) (tr0 ev evs : list call) (i : nat)
    (m : list (list float)) (row0 nr : Z) :
  scalar_write_at self data stat tr0 ev i m row0 nr ->
  scalar_write_at self data stat tr0 (ev ++ evs) i m row0 nr.
Proof.
  intros (j & c' & d & flags & mask & -> & Hget & Hput & Hd & Hflags
          & Hmask & Hm).
  exists j, c', d, flags, mask.
  pose proof (lookup_lt_Some _ _ _ Hget) as Hj.
  repeat split; try assumption.
  - now apply lookup_app_l_Some.
  - now apply lookup_app_l_Some.
  - now rewrite take_app_le by lia.
Qed.

Lemma loop_trace_scalar (self : MSNoise) (data : list float)
    (stat : string) (rowchunk : Z) (tr0 : list call) (offsets : list Z)
    (evs : list call) (i : nat) (c : string) (m : list (list float))
    (row0 nr : Z) :
  loop_trace self data stat rowchunk tr0 offsets evs ->
  evs !! i = Some (Putcol c (Scalar m) row0 nr) ->
  scalar_write_at self data stat tr0 evs i m row0 nr.
Proof.
  intros Hloop. revert i.
  induction Hloop as [tr|tr r0 rest ev Hev|tr r0 rest ev evs Hev _ IH];
    intros i Hi.
  - discriminate.
  - eapply chunk_trace_scalar; eauto.
  - apply lookup_app_Some in Hi as [Hi|[Hlen Hi]].
    + apply scalar_write_at_app_l. eapply chunk_trace_scalar; eauto.
    + apply IH in Hi. apply scalar_write_at_shift in Hi.
      now replace (length ev + (i - length ev))%nat with i in Hi by lia.
Qed.

Lemma setup_lookup (pre : list call) (i : nat) (c : call) :
  Forall is_setup pre -> pre !! i = Some c -> is_setup c.
Proof.
  intros Hpre Hi. rewrite List.Forall_forall in Hpre. apply Hpre.
  apply list_elem_of_In. eapply list_elem_of_lookup_2; eauto.
Qed.

(** Every scalar write of a run was made by a chunk of its loop. *)
Lemma write_toms_scalar (self : MSNoise) (data : list float)
    (columns : list string) (stat : string) (rowchunk : option Z)
    (i : nat) (c : string) (m : list (list float)) (row0 nr : Z) :
  snd (write_toms self data columns stat rowchunk []) !! i
    = Some (Putcol c (Scalar m) row0 nr) ->
  scalar_write_at self data stat []
    (snd (write_toms self data columns stat rowchunk [])) i m row0 nr.
Proof.
  destruct (write_toms self data columns stat rowchunk []) as [r tr] eqn:H.
  apply write_toms_trace in H
    as (pre & evs & post & offsets & -> & Hpre & Hloop & _ & Hpost).
  cbn [snd]. intros Hi.
  apply lookup_app_Some in Hi as [Hi|[Hlen Hi]].
  { apply (setup_lookup _ _ _ Hpre) in Hi. destruct Hi. }
  apply lookup_app_Some in Hi as [Hi|[Hlen' Hi]].
  2:{ destruct Hpost as [[-> _]|[-> _]]; [discriminate|].
      apply list_lookup_singleton_Some in Hi as [_ Hi]. discriminate. }
  eapply loop_trace_scalar in Hi; [|exact Hloop].
  apply scalar_write_at_app_l with (evs := post) in Hi.
  change pre with ([] ++ pre) in Hi at 1.
  apply scalar_write_at_shift in Hi.
  now replace (length pre + (i - length pre))%nat with i in Hi by lia.
Qed.

Lemma chunk_trace_no_close (self : MSNoise) (data : list float)
    (stat : string) (rowchunk : Z) (tr : list call) (row0 : Z)
    (ev : list call) :
  chunk_trace self data stat rowchunk tr row0 ev -> ~ In Close ev.
Proof.
  intros [| | |]; simpl; intuition discriminate.
Qed.

Lemma loop_trace_no_close (self : MSNoise) (data : list float)
    (stat : string) (rowchunk : Z) (tr : list call) (offsets : list Z)
    (evs : list call) :
  loop_trace self data stat rowchunk tr offsets evs -> ~ In Close evs.
Proof.
  induction 1 as [tr|tr r0 rest ev Hev|tr r0 rest ev evs Hev _ IH].
  - intros [].
  - eapply chunk_trace_no_close; eauto.
  - intros [Hin|Hin]%in_app_or; [|tauto].
    eapply chunk_trace_no_close; eauto.
Qed.

Lemma setup_no_close (pre : list call) :
  Forall is_setup pre -> ~ In Close pre.
Proof.
  intros Hpre Hin. rewrite List.Forall_forall in Hpre.
  exact (Hpre _ Hin).
Qed.

(** C7, as the code has it.  [close] is the last statement and nothing
    catches an exception: a run that returns has closed the table, as its
    last call and only then; a run that raises has not called [close] at
    all, unless it is [close] itself that raised. *)
Theorem handle_closed_when_nothing_raised (self : MSNoise)
    (data : list float) (columns : list string) (stat : string)
    (rowchunk : option Z) (r : result unit) (tr : list call) :
  write_toms self data columns stat rowchunk [] = (r, tr) ->
  (r = Ok tt -> exists pre, tr = pre ++ [Close] /\ ~ In Close pre) /\
  (forall e, r = Error e ->
     ~ In Close tr \/
     exists pre, tr = pre ++ [Close] /\ ~ In Close pre /\
                 close pre = Error e).
Proof.
  intros H.
  apply write_toms_trace in H
    as (pre & evs & post & offsets & -> & Hpre & Hloop & _ & Hpost).
  assert (Hno : ~ In Close (pre ++ evs)).
  { intros [Hin|Hin]%in_app_or.
    - exact (setup_no_close _ Hpre Hin).
    - exact (loop_trace_no_close _ _ _ _ _ _ _ Hloop Hin). }
  destruct Hpost as [[-> [e0 ->]] | [-> ->]]; rewrite ?app_nil_r.
  - split; [discriminate|]. intros e _. now left.
  - rewrite app_assoc. split.
    + intros _. eauto.
    + intros e He. right. eauto.
Qed.

Lemma accesses_setup (pre : list call) :
  Forall is_setup pre -> accesses pre = [].
Proof.
  unfold accesses. induction 1 as [|c pre Hc _ IH]; [reflexivity|].
  destruct c; try destruct Hc; exact IH.
Qed.

(** The accesses of one chunk: the read, the spectral write and the scalar
    write of its rows, in this order, or the first ones of them; a chunk that
    makes a call has a row count that is not negative. *)
Lemma chunk_trace_accesses (self : MSNoise) (data : list float)
    (stat : string) (rowchunk : Z) (tr : list call) (row0 : Z)
    (ev : list call) :
  chunk_trace self data stat rowchunk tr row0 ev ->
  let nr := Z.min rowchunk (nrows self - row0) in
  (ev = [] \/ 0 <= nr) /\
  accesses ev `prefix_of`
    [(row0, nr, ReadFlags); (row0, nr, WriteSpectral);
     (row0, nr, WriteScalar)].
Proof.
  intros [|d Hd|d c1 Hd|d c1 c2 flags mask Hd Hflags Hmask]; cbn zeta;
    try (apply ones_times_length in Hd as [_ Hd]);
    (split; [auto|cbn]).
  - now exists [(row0, Z.min rowchunk (nrows self - row0), ReadFlags);
                (row0, Z.min rowchunk (nrows self - row0), WriteSpectral);
                (row0, Z.min rowchunk (nrows self - row0), WriteScalar)].
  - now exists [(row0, Z.min rowchunk (nrows self - row0), WriteSpectral);
                (row0, Z.min rowchunk (nrows self - row0), WriteScalar)].
  - now exists [(row0, Z.min rowchunk (nrows self - row0), WriteScalar)].
  - now exists [].
Qed.

Lemma chunk_accesses_sorted (row0 nr : Z) (acs : list access) :
  acs `prefix_of`
    [(row0, nr, ReadFlags); (row0, nr, WriteSpectral);
     (row0, nr, WriteScalar)] ->
  StronglySorted access_before acs /\
  Forall (fun a => fst (fst a) = row0) acs.
Proof.
  intros [rest Hrest].
  assert (Hall : StronglySorted access_before (acs ++ rest) /\
                 Forall (fun a => fst (fst a) = row0) (acs ++ rest)).
  { rewrite <- Hrest. split.
    - repeat first [apply SSorted_nil | apply SSorted_cons
                   | apply List.Forall_nil | apply List.Forall_cons];
        cbn; right; repeat split; lia.
    - repeat constructor. }
  destruct Hall as [Hs Hr]. split.
  - now apply StronglySorted_app_1_l in Hs.
  - now apply Forall_app in Hr as [Hr _].
Qed.

Lemma loop_trace_accesses (self : MSNoise) (data : list float)
    (stat : string) (rowchunk : Z) (tr : list call) (offsets : list Z)
    (evs : list call) :
  loop_trace self data stat rowchunk tr offsets evs ->
  StronglySorted Z.lt offsets ->
  StronglySorted access_before (accesses evs) /\
  Forall (fun a => In (fst (fst a)) offsets) (accesses evs).
Proof.
  induction 1 as [tr|tr r0 rest ev Hev|tr r0 rest ev evs Hev _ IH];
    intros Hsorted.
  - split; constructor.
  - apply chunk_trace_accesses in Hev as [_ Hev].
    apply chunk_accesses_sorted in Hev as [Hs Hr]. split; [exact Hs|].
    eapply Forall_impl; [exact Hr|]. intros a <-. now left.
  - apply StronglySorted_inv in Hsorted as [Hrest Hlt].
    destruct (IH Hrest) as [IHs IHr].
    apply chunk_trace_accesses in Hev as [_ Hev].
    apply chunk_accesses_sorted in Hev as [Hs Hr].
    unfold accesses. rewrite omap_app. fold (accesses ev) (accesses evs).
    split.
    + apply StronglySorted_app_2; [|exact Hs|exact IHs].
      intros [[r1 n1] k1] [[r2 n2] k2] H1 H2. cbn. left.
      rewrite List.Forall_forall in Hr, IHr, Hlt.
      apply list_elem_of_In in H1, H2.
      specialize (Hr _ H1). specialize (IHr _ H2). cbn in Hr, IHr.
      subst r1. exact (Hlt _ IHr).
    + apply Forall_app. split.
      * eapply Forall_impl; [exact Hr|]. intros a <-. now left.
      * eapply Forall_impl; [exact IHr|]. intros a Ha. now right.
Qed.

(** With a negative chunk size no chunk makes a call. *)
Lemma loop_trace_negative (self : MSNoise) (data : list float)
    (stat : string) (rowchunk : Z) (tr : list call) (offsets : list Z)
    (evs : list call) :
  rowchunk < 0 ->
  loop_trace self data stat rowchunk tr offsets evs -> evs = [].
Proof.
  intros Hneg.
  assert (Hchunk : forall tr r0 ev,
             chunk_trace self data stat rowchunk tr r0 ev -> ev = []).
  { intros tr1 r0 ev Hev.
    apply chunk_trace_accesses in Hev as [[-> | Hnr] _]; [reflexivity|lia]. }
  induction 1 as [tr|tr r0 rest ev Hev|tr r0 rest ev evs Hev _ IH].
  - reflexivity.
  - eapply Hchunk; eauto.
  - rewrite IH. rewrite (Hchunk _ _ _ Hev). reflexivity.
Qed.

Lemma py_range_sorted (stop step : Z) (offsets : list Z) :
  py_range 0 stop step = Ok offsets ->
  step < 0 \/ StronglySorted Z.lt offsets.
Proof.
  unfold py_range. destruct (Z.eqb_spec step 0) as [|Hne]; [discriminate|].
  intros [= <-]. destruct (Z.ltb_spec 0 step) as [Hpos|Hneg]; [|lia].
  right. apply StronglySorted_map_seq. intros i j Hij. nia.
Qed.

(** C8. The reads and writes of a run, in the order they are made, go up in
    row offset from one chunk to the next, and on the rows of one chunk the
    write to the spectral column comes before the one to the scalar column
    (and after the read of the flags); a scalar write directly follows the
    spectral write of the same rows. *)
Theorem writes_in_row_order (self : MSNoise) (data : list float)
    (columns : list string) (stat : string) (rowchunk : option Z) :
  let tr := snd (write_toms self data columns stat rowchunk []) in
  StronglySorted access_before (accesses tr) /\
  (forall (i : nat) (c : string) (m : list (list float)) (row0 nr : Z),
      tr !! i = Some (Putcol c (Scalar m) row0 nr) ->
      exists (j : nat) (c' : string) (d : cube float),
        i = S j /\ tr !! j = Some (Putcol c' (Spectral d) row0 nr)).
Proof.
  intros tr. split.
  - subst tr.
    destruct (write_toms self data columns stat rowchunk [])
      as [r tr] eqn:H.
    apply write_toms_trace in H
      as (pre & evs & post & offsets & -> & Hpre & Hloop & Hrange & Hpost).
    cbn [snd]. unfold accesses. rewrite !omap_app.
    fold (accesses pre) (accesses evs) (accesses post).
    rewrite (accesses_setup _ Hpre).
    assert (accesses post = []) as ->
      by (destruct Hpost as [[-> _] | [-> _]]; reflexivity).
    rewrite app_nil_r. cbn [app].
    destruct Hrange as [-> | Hrange].
    { inversion Hloop; subst. constructor. }
    apply py_range_sorted in Hrange as [Hneg|Hsorted].
    + rewrite (loop_trace_negative _ _ _ _ _ _ _ Hneg Hloop). constructor.
    + exact (proj1 (loop_trace_accesses _ _ _ _ _ _ _ Hloop Hsorted)).
  - intros i c m row0 nr Hi. subst tr.
    apply write_toms_scalar in Hi
      as (j & c' & d & flags & mask & -> & _ & Hput & _).
    eauto.
Qed.

(** C9. In a run with [stat='sum'], take any write to the scalar column:
    two calls earlier its chunk read the flags of the same rows, and when
    the flags read are all set the matrix written holds 0 for every row of
    the chunk and every correlation. *)
Theorem fully_flagged_sum_is_zero (self : MSNoise) (data : list float)
    (columns : list string) (rowchunk : option Z) (j : nat) (c : string)
    (m : list (list float)) (row0 nr : Z) (flags : cube bool) :
  let tr := snd (write_toms self data columns "sum" rowchunk []) in
  tr !! S (S j) = Some (Putcol c (Scalar m) row0 nr) ->
  getcol (take j tr) "FLAG" row0 nr = Ok flags ->
  all_flagged flags ->
  tr !! j = Some (Getcol "FLAG" row0 nr) /\
  m = replicate (Z.to_nat nr) (replicate (Z.to_nat (ncor self)) fzero).
Proof.
  intros tr Hi Hflags Hall. subst tr.
  apply write_toms_scalar in Hi
    as (j' & c' & d & flags' & mask & [= <-] & Hget & _ & Hd & Hflags'
        & Hmask & ->).
  cbn [app] in Hflags'. rewrite Hflags in Hflags'.
  injection Hflags' as <-. split; [exact Hget|].
  apply ones_times_length in Hd as [Hlen _].
  apply (mask_for_all_flagged _ _ _ _ _ Hall) in Hmask as [Hmlen Hmask].
  change (String.eqb "sum" "stddev") with false. cbv iota.
  rewrite masked_sum_all_flagged by assumption.
  now rewrite Hlen.
Qed.

(** *** Runs that return *)

Lemma write_chunk_ok (self : MSNoise) (data : list float)
    (columns : list string) (stat : string) (rowchunk row0 : Z)
    (tr tr' : list call) :
  stat = "sum"%string \/ stat = "stddev"%string ->
  write_chunk self data columns stat rowchunk row0 tr = (Ok tt, tr') ->
  exists ev, tr' = tr ++ ev /\
             accesses ev = chunk_accesses self rowchunk row0.
Proof.
  intros Hstat. unfold_write_chunk.
  set (nr := Z.min rowchunk (nrows self - row0)).
  unfold mbind at 1, lift at 1.
  destruct (ones_times nr (nchan self) (ncor self) data) as [d|e];
    [|discriminate].
  unfold mbind at 1, tab_getcol.
  destruct (getcol tr "FLAG" row0 nr) as [flags|e]; [|discriminate].
  unfold mbind at 1, lift at 1.
  destruct (mask_for _ _ _ flags) as [mask|e]; [|discriminate].
  unfold mbind at 1, lift at 1.
  destruct (getitem columns 1) as [spectral|e]; [|discriminate].
  unfold mbind at 1, tab_putcol at 1.
  rewrite <- app_assoc. cbn [app].
  destruct (putcol _ spectral _ row0 nr) as [[]|e]; [|discriminate].
  unfold mbind at 1, lift at 1.
  destruct (getitem columns 0) as [scalar|e]; [|discriminate].
  assert (Hknown : String.eqb stat "stddev" = true \/
                   (String.eqb stat "stddev" = false /\
                    String.eqb stat "sum" = true))
    by (destruct Hstat as [-> | ->]; auto).
  destruct Hknown as [-> | [-> ->]];
    unfold tab_putcol; rewrite <- app_assoc; cbn [app];
    intros [= _ <-]; eexists; (split; [reflexivity|reflexivity]).
Qed.

Lemma write_chunks_ok (self : MSNoise) (data : list float)
    (columns : list string) (stat : string) (rowchunk : Z)
    (offsets : list Z) (tr tr' : list call) :
  stat = "sum"%string \/ stat = "stddev"%string ->
  write_chunks self data columns stat rowchunk offsets tr = (Ok tt, tr') ->
  exists evs, tr' = tr ++ evs /\
              accesses evs = flat_map (chunk_accesses self rowchunk) offsets.
Proof.
  intros Hstat. revert tr.
  induction offsets as [|row0 rest IH]; intros tr H.
  - injection H as <-. exists []. now rewrite app_nil_r.
  - change (write_chunks self data columns stat rowchunk (row0 :: rest) tr)
      with (mbind (write_chunk self data columns stat rowchunk row0)
              (fun _ => write_chunks self data columns stat rowchunk rest)
              tr) in H.
    unfold mbind at 1 in H.
    destruct (write_chunk self data columns stat rowchunk row0 tr)
      as [[[]|e] tr1] eqn:Hchunk; [|discriminate].
    apply (write_chunk_ok _ _ _ _ _ _ _ _ Hstat) in Hchunk
      as (ev & -> & Hev).
    apply IH in H as (evs & -> & Hevs).
    exists (ev ++ evs). rewrite app_assoc. split; [reflexivity|].
    unfold accesses. rewrite omap_app. fold (accesses ev) (accesses evs).
    now rewrite Hev, Hevs.
Qed.

(** A run that returns went through the chunk at every offset of the
    range. *)
Lemma write_toms_ok (self : MSNoise) (data : list float)
    (columns : list string) (stat : string) (rowchunk : option Z)
    (tr : list call) :
  stat = "sum"%string \/ stat = "stddev"%string ->
  write_toms self data columns stat rowchunk [] = (Ok tt, tr) ->
  exists offsets,
    py_range 0 (nrows self) (chunk_size self rowchunk) = Ok offsets /\
    accesses tr
    = flat_map (chunk_accesses self (chunk_size self rowchunk)) offsets.
Proof.
  intros Hstat. unfold_write_toms. unfold mbind at 1.
  destruct (init_columns _ _ []) as [[[]|e] tr1] eqn:Hinit;
    [|discriminate].
  apply init_columns_trace in Hinit as (adds & Heq & Hadds).
  cbn [app] in Heq. subst tr1.
  unfold mbind at 1, table_open.
  destruct (table adds (ms self)) as [[]|e]; [|discriminate].
  unfold mbind at 1, lift at 1.
  destruct (py_range 0 (nrows self) (chunk_size self rowchunk))
    as [offsets|e]; [|discriminate].
  unfold mbind at 1.
  destruct (write_chunks _ _ _ _ _ offsets _) as [[[]|e] tr2] eqn:Hloop;
    [|discriminate].
  apply (write_chunks_ok _ _ _ _ _ _ _ _ Hstat) in Hloop
    as (evs & -> & Hevs).
  unfold tab_close. intros [= _ <-]. exists offsets.
  split; [reflexivity|].
  unfold accesses. rewrite !omap_app.
  fold (accesses adds) (accesses evs).
  rewrite (accesses_setup _ Hadds), Hevs. cbn. now rewrite app_nil_r.
Qed.

Lemma row_range_app (a b : Z) :
  0 <= a -> 0 <= b -> row_range 0 a ++ row_range a b = row_range 0 (a + b).
Proof.
  intros Ha Hb. unfold row_range.
  rewrite Z2Nat.inj_add by assumption.
  rewrite seq_app, map_app. f_equal. cbn [Nat.add].
  replace (seq (Z.to_nat a) (Z.to_nat b))
    with (seq (Z.to_nat a + 0) (Z.to_nat b)) by (f_equal; lia).
  rewrite <- (fmap_add_seq (Z.to_nat a) 0).
  rewrite map_map.
  apply map_ext. intros i. rewrite Nat2Z.inj_add. lia.
Qed.

(** The chunks of a range with a positive step cut the rows [0 .. n - 1]
    into consecutive pieces: each row is in one chunk. *)
Lemma chunks_partition_rows (n k : Z) (offsets : list Z) :
  0 <= n -> 0 < k ->
  py_range 0 n k = Ok offsets ->
  flat_map (fun row0 => row_range row0 (Z.min k (n - row0))) offsets
  = row_range 0 n.
Proof.
  intros Hn Hk. unfold py_range.
  destruct (Z.eqb_spec k 0) as [|_]; [lia|].
  destruct (Z.ltb_spec 0 k) as [_|]; [|lia].
  intros [= <-].
  set (c := (n - 0 + k - 1) / k).
  assert (Hc : (c - 1) * k < n <= c * k /\ 0 <= c).
  { pose proof (Z.div_mod (n - 0 + k - 1) k ltac:(lia)) as Hdiv.
    pose proof (Z.mod_pos_bound (n - 0 + k - 1) k Hk) as Hmod.
    fold c in Hdiv. split; [nia|].
    apply Z.div_pos; lia. }
  assert (Hpart : forall m : nat, Z.of_nat m <= c ->
    flat_map (fun row0 => row_range row0 (Z.min k (n - row0)))
      (map (fun i => 0 + Z.of_nat i * k) (seq 0 m))
    = row_range 0 (Z.min (Z.of_nat m * k) n)).
  { induction m as [|m IH]; intros Hm.
    - cbn [seq map flat_map].
      now replace (Z.min (Z.of_nat 0 * k) n) with 0 by lia.
    - rewrite seq_S, map_app, flat_map_app, IH by lia.
      cbn [map flat_map Nat.add]. rewrite app_nil_r.
      assert (Hlt : Z.of_nat m * k < n) by nia.
      replace (Z.min (Z.of_nat m * k) n) with (Z.of_nat m * k) by lia.
      replace (0 + Z.of_nat m * k) with (Z.of_nat m * k) by lia.
      rewrite row_range_app by nia. f_equal. nia. }
  rewrite Hpart by lia.
  f_equal. rewrite Z2Nat.id by lia. lia.
Qed.

Lemma rows_accessed_chunks (self : MSNoise) (rowchunk : Z) (p : phase)
    (offsets : list Z) (tr : list call) :
  accesses tr = flat_map (chunk_accesses self rowchunk) offsets ->
  rows_accessed p tr
  = flat_map (fun row0 =>
                row_range row0 (Z.min rowchunk (nrows self - row0)))
             offsets.
Proof.
  unfold rows_accessed. intros ->.
  induction offsets as [|row0 rest IH]; [reflexivity|].
  cbn [flat_map]. rewrite flat_map_app, IH. f_equal.
  destruct p; cbn; now rewrite app_nil_r.
Qed.

(** X9. With a positive chunk size (given, or [nrows / 10] for 10 rows or
    more), a run that returns has written every row [0 .. nrows - 1] once to the
    spectral column and once to the scalar column, in order, the last chunk
    cut to the rows left. *)
Theorem rows_written_once (self : MSNoise) (data : list float)
    (columns : list string) (stat : string) (rowchunk : option Z)
    (tr : list call) :
  stat = "sum"%string \/ stat = "stddev"%string ->
  0 <= nrows self -> 0 < chunk_size self rowchunk ->
  write_toms self data columns stat rowchunk [] = (Ok tt, tr) ->
  rows_accessed WriteSpectral tr = row_range 0 (nrows self) /\
  rows_accessed WriteScalar tr = row_range 0 (nrows self).
Proof.
  intros Hstat Hrows Hsize Hrun.
  apply (write_toms_ok _ _ _ _ _ _ Hstat) in Hrun
    as (offsets & Hrange & Hacc).
  rewrite !(rows_accessed_chunks _ _ _ _ _ Hacc).
  now rewrite (chunks_partition_rows _ _ _ Hrows Hsize Hrange).
Qed.

(** C4, at the input where the code leaves the claim.  Called without a
    chunk size on a measurement set of fewer than 10 rows, [write_toms]
    computes the chunk size [nrows / 10 = 0], [range] refuses the zero
    step, and the run raises: nothing is written and the table is not
    closed. *)
Theorem default_chunk_fails_below_ten_rows (self : MSNoise)
    (data : list float) (columns : list string) (stat : string) :
  0 <= nrows self < 10 ->
  chunk_size self None = 0 /\
  (exists e, fst (write_toms self data columns stat None []) = Error e) /\
  accesses (snd (write_toms self data columns stat None [])) = [] /\
  ~ In Close (snd (write_toms self data columns stat None [])).
Proof.
  intros Hrows.
  assert (Hsize : chunk_size self None = 0)
    by (unfold chunk_size; now apply Z.div_small).
  split; [exact Hsize|].
  assert (Hrun : exists e pre,
             write_toms self data columns stat None [] = (Error e, pre) /\
             Forall is_setup pre).
  { unfold_write_toms. unfold mbind at 1.
    destruct (init_columns _ _ []) as [[[]|e] tr1] eqn:Hinit;
      apply init_columns_trace in Hinit as (adds & Heq & Hadds);
      cbn [app] in Heq; subst tr1; [|eauto].
    assert (Hpre : Forall is_setup (adds ++ [Open (ms self)])).
    { apply Forall_app. split; [exact Hadds|].
      constructor; [exact I|constructor]. }
    unfold mbind at 1, table_open.
    destruct (table adds (ms self)) as [[]|e]; [|eauto].
    unfold mbind at 1, lift at 1. rewrite Hsize.
    change (py_range 0 (nrows self) 0) with (@Error (list Z) ValueError).
    eauto. }
  destruct Hrun as (e & pre & -> & Hpre). cbn [fst snd].
  rewrite (accesses_setup _ Hpre).
  repeat split; eauto using setup_no_close.
Qed.

End WriterProperties.

(** *** The writer on a small measurement set *)

Section WriterScenario.

Import SmallMS.

Local Abbreviation store := (Store.write_toms 2 1 2).

Lemma default_chunk_fails_below_ten_rows_witness :
  0 <= nrows five_rows < 10 /\
  (chunk_size five_rows None = 0 /\
   (exists e,
       fst (store None five_rows weights columns "sum" None []) = Error e) /\
   accesses (snd (store None five_rows weights columns "sum" None [])) = []
   /\
   ~ In Close (snd (store None five_rows weights columns "sum" None []))).
Proof.
  assert (Hrows : 0 <= nrows five_rows < 10) by (cbn; lia).
  split; [exact Hrows|].
  exact (default_chunk_fails_below_ten_rows Store.addcol Store.table
           (Store.getcol 2 1 2) (Store.putcol None) Store.close
           Store.masked_std five_rows weights columns "sum" Hrows).
Defined.

(** The run on five rows, call by call. *)
Example five_rows_run :
  store None five_rows weights columns "sum" None []
  = (Error ValueError,
     [Addcol "five.ms" "WEIGHT" [1];
      Addcol "five.ms" "WEIGHT_SPECTRUM" [2; 1];
      Open "five.ms"]).
Proof. vm_compute; reflexivity. Qed.

(** A [putcol] that raises on the chunk at row 2: the claim has the table
    closed on that path too, the code leaves it open, the first chunk
    written. *)
Lemma handle_left_open_on_failure :
  store (Some 2) self weights columns "sum" (Some 2) []
  = (Error RuntimeError,
     setup ++
     [Getcol "FLAG" 0 2;
      Putcol "WEIGHT_SPECTRUM" (Spectral cube2) 0 2;
      Putcol "WEIGHT" (Scalar [[Fin 0]; [Fin 0]]) 0 2;
      Getcol "FLAG" 2 2;
      Putcol "WEIGHT_SPECTRUM" (Spectral cube2) 2 2]) /\
  ~ In Close (snd (store (Some 2) self weights columns "sum" (Some 2) [])).
Proof.
  split; [vm_compute; reflexivity|].
  vm_compute. intuition discriminate.
Qed.

Lemma handle_closed_when_nothing_raised_witness :
  store None self weights columns "sum" (Some 2) [] = (Ok tt, calls) /\
  ((Ok tt = Ok tt -> exists pre, calls = pre ++ [Close] /\ ~ In Close pre) /\
   (forall e, Ok tt = Error e ->
      ~ In Close calls \/
      exists pre, calls = pre ++ [Close] /\ ~ In Close pre /\
                  Store.close pre = Error e)).
Proof.
  assert (Hrun : store None self weights columns "sum" (Some 2) []
                 = (Ok tt, calls)) by (vm_compute; reflexivity).
  split; [exact Hrun|].
  exact (handle_closed_when_nothing_raised Store.addcol Store.table
           (Store.getcol 2 1 2) (Store.putcol None) Store.close
           Store.masked_std self weights columns "sum" (Some 2) (Ok tt)
           calls Hrun).
Defined.

Lemma fully_flagged_sum_is_zero_witness :
  let tr := snd (store None self weights columns "sum" (Some 2) []) in
  let flags := [[[true]; [true]]; [[true]; [true]]] in
  (tr !! 5%nat = Some (Putcol "WEIGHT" (Scalar [[Fin 0]; [Fin 0]]) 0 2) /\
   Store.getcol 2 1 2 (take 3 tr) "FLAG" 0 2 = Ok flags /\
   all_flagged flags) /\
  (tr !! 3%nat = Some (Getcol "FLAG" 0 2) /\
   [[Fin 0]; [Fin 0]]
   = replicate (Z.to_nat 2) (replicate (Z.to_nat (ncor self)) fzero)).
Proof.
  intros tr flags.
  assert (Hi : tr !! 5%nat
               = Some (Putcol "WEIGHT" (Scalar [[Fin 0]; [Fin 0]]) 0 2))
    by (vm_compute; reflexivity).
  assert (Hflags : Store.getcol 2 1 2 (take 3 tr) "FLAG" 0 2 = Ok flags)
    by (vm_compute; reflexivity).
  assert (Hall : all_flagged flags) by (repeat constructor).
  split; [repeat split; assumption|].
  exact (fully_flagged_sum_is_zero Store.addcol Store.table
           (Store.getcol 2 1 2) (Store.putcol None) Store.close
           Store.masked_std self weights columns (Some 2) 3%nat "WEIGHT"
           [[Fin 0]; [Fin 0]] 0 2 flags Hi Hflags Hall).
Defined.

End WriterScenario.

(** *** The frequency axis of the scenario *)

(** The window of the scenario, followed by a window of four channels of
    25 Hz at 1 GHz. *)
Lemma frequency_axis_construction_witness :
  let spws := [(of_int 950000000, of_int 100000000, 4);
               (of_int 1000000000, of_int 100, 4)] in
  Forall (fun w : float * float * Z => snd w <> 0) spws /\
  exists self : MSNoise,
    __init__ "obs.ms" (summary_of 100 4 spws) = Ok self /\
    freqs self = concat (map stored_window spws) /\
    nchan self = Z.of_nat (length (freqs self)) /\
    nchan self = fold_right Z.add 0 (map (fun w => Z.max 0 (snd w)) spws) /\
    (forall (i : nat) (w : float * float * Z) (j : nat),
        spws !! i = Some w -> (j < Z.to_nat (snd w))%nat ->
        freqs self !! (window_start spws i + j)%nat
        = Some (channel_frequency w (Z.of_nat j))) /\
    (forall (i : nat) (w : float * float * Z) (j j' : nat),
        spws !! i = Some w -> regular_window w ->
        (j <= j')%nat -> (j' < Z.to_nat (snd w))%nat ->
        exists a b : float,
          freqs self !! (window_start spws i + j)%nat = Some a /\
          freqs self !! (window_start spws i + j')%nat = Some b /\
          fle a b).
Proof.
  intros spws.
  assert (Hnz : Forall (fun w : float * float * Z => snd w <> 0) spws)
    by (repeat constructor; discriminate).
  split; [exact Hnz|].
  exact (frequency_axis_construction "obs.ms" 100 4 spws Hnz).
Defined.

(** Four channels of 25 Hz at 1 GHz, where the numbers of [float32] are 64
    Hz apart: the claim asks for 1e9, 1e9 + 25, 1e9 + 50 and 1e9 + 75,
    strictly increasing; the axis holds 1e9 twice and 1e9 + 64 twice. *)
Lemma narrow_channels_collapse :
  let spws := [(of_int 1000000000, of_int 100, 4)] in
  exists self : MSNoise,
    __init__ "narrow.ms" (summary_of 1 1 spws) = Ok self /\
    freqs self = [of_int 1000000000; of_int 1000000000;
                  of_int 1000000064; of_int 1000000064] /\
    frequency_axis spws = [of_int 1000000000; of_int 1000000025;
                           of_int 1000000050; of_int 1000000075] /\
    freqs self <> frequency_axis spws /\
    ~ StronglySorted flt (freqs self).
Proof.
  intros spws. eexists. split; [vm_compute; reflexivity|].
  cbn [freqs]. split; [reflexivity|].
  split; [vm_compute; reflexivity|].
  split.
  - vm_compute. intros [=].
  - intros Hs. apply StronglySorted_inv in Hs as [_ Hall].
    apply Forall_inv in Hall. vm_compute in Hall. discriminate.
Qed.

(** The axis of the scenario is the one [Scenario.self] holds. *)
Example scenario_axis :
  __init__ "obs.ms" Scenario.info = Ok Scenario.self.
Proof. vm_compute; reflexivity. Qed.


(** * Further properties *)

(** ** The frequency axis: when it is built, how long it is, where it lies *)

Lemma getitem_returns {A : Type} (l : list A) (i : nat) :
  (exists a, getitem l i = Ok a) <-> (i < length l)%nat.
Proof.
  unfold getitem. split.
  - intros [a Ha]. destruct (l !! i) as [a'|] eqn:Hl; [|discriminate].
    eapply lookup_lt_Some; eauto.
  - intros Hi. apply lookup_lt_is_Some in Hi as [a Ha].
    rewrite Ha. eauto.
Qed.

Lemma spw_freqs_returns (freq0 bw : list float) (spwid : nat) (nc : Z) :
  (exists fs, spw_freqs freq0 bw spwid nc = Ok fs) <->
  nc <> 0 /\ (spwid < length bw)%nat /\ (spwid < length freq0)%nat.
Proof.
  unfold spw_freqs, py_truediv. split.
  - intros [fs H].
    destruct (getitem bw spwid) as [b|e] eqn:Hb; [|discriminate].
    cbn [rbind] in H.
    destruct (Z.eqb_spec nc 0) as [|Hnc]; [discriminate|].
    cbn [rbind] in H.
    destruct (getitem freq0 spwid) as [f0|e] eqn:Hf; [|discriminate].
    repeat split; [exact Hnc| |]; apply getitem_returns; eauto.
  - intros (Hnc & Hb & Hf).
    apply getitem_returns in Hb as [b ->], Hf as [f0 ->].
    cbn [rbind]. destruct (Z.eqb_spec nc 0) as [|_]; [contradiction|].
    cbn [rbind]. eauto.
Qed.

Lemma spw_freqs_length (freq0 bw : list float) (spwid : nat) (nc : Z)
    (fs : list float) :
  spw_freqs freq0 bw spwid nc = Ok fs ->
  Z.of_nat (length fs) = Z.max 0 nc.
Proof.
  unfold spw_freqs.
  destruct (getitem bw spwid) as [b|e]; [|discriminate]. cbn [rbind].
  destruct (py_truediv b nc) as [d|e]; [|discriminate]. cbn [rbind].
  destruct (getitem freq0 spwid) as [f0|e]; [|discriminate]. cbn [rbind].
  intros [= <-]. unfold arange. rewrite !length_map, length_seq. lia.
Qed.

Lemma combine_spws_returns (freq0 bw : list float) (nchans : list Z)
    (spwid : nat) (acc : list float) :
  (exists fs, combine_spws freq0 bw spwid nchans acc = Ok fs) <->
  Forall (fun nc => nc <> 0) nchans /\
  (forall i, (i < length nchans)%nat ->
             (spwid + i < length bw)%nat /\ (spwid + i < length freq0)%nat).
Proof.
  revert spwid acc. induction nchans as [|nc rest IH]; intros spwid acc.
  - cbn. split; [intros _|eauto].
    split; [constructor|]. intros i Hi. lia.
  - cbn [combine_spws length]. split.
    + intros [fs H].
      destruct (spw_freqs freq0 bw spwid nc) as [fs0|e] eqn:Hw;
        [|discriminate].
      cbn [rbind] in H.
      assert (Hw' : exists fs, spw_freqs freq0 bw spwid nc = Ok fs) by eauto.
      apply spw_freqs_returns in Hw' as (Hnc & Hb & Hf).
      assert (Hrest : exists fs,
                 combine_spws freq0 bw (S spwid) rest (acc ++ fs0) = Ok fs)
        by eauto.
      apply IH in Hrest as [Hall Hidx].
      split; [now constructor|].
      intros [|i] Hi; [lia|]. specialize (Hidx i ltac:(lia)). lia.
    + intros [Hall Hidx]. inversion Hall as [|? ? Hnc Hrest]; subst.
      destruct (proj2 (spw_freqs_returns freq0 bw spwid nc)) as [fs0 ->].
      { specialize (Hidx 0%nat ltac:(lia)). repeat split; [exact Hnc| |]; lia. }
      cbn [rbind]. apply IH. split; [exact Hrest|].
      intros i Hi. specialize (Hidx (S i) ltac:(lia)). lia.
Qed.

(** X1. [__init__] builds the axis exactly when no channel count is zero and
    every window has its bandwidth and its reference frequency; otherwise it
    raises. *)
Theorem init_returns_iff (name : string) (info : ms_info) :
  (exists self, __init__ name info = Ok self) <->
  Forall (fun nc => nc <> 0) (NUM_CHAN (SPW info)) /\
  (length (NUM_CHAN (SPW info)) <= length (TOTAL_BANDWIDTH (SPW info)))%nat /\
  (length (NUM_CHAN (SPW info)) <= length (REF_FREQUENCY (SPW info)))%nat.
Proof.
  unfold __init__.
  pose proof (combine_spws_returns (REF_FREQUENCY (SPW info))
                (TOTAL_BANDWIDTH (SPW info)) (NUM_CHAN (SPW info)) 0 [])
    as Hloop.
  split.
  - intros [self H].
    destruct (combine_spws _ _ 0 _ []) as [fs|e]; [|discriminate].
    destruct (proj1 Hloop ltac:(eauto)) as [Hall Hidx].
    split; [exact Hall|].
    destruct (NUM_CHAN (SPW info)) as [|nc rest]; [cbn; lia|].
    specialize (Hidx (length rest) ltac:(cbn; lia)). cbn [length]. lia.
  - intros (Hall & Hb & Hf).
    destruct (proj2 Hloop) as [fs ->]; [|cbn [rbind]; eauto].
    split; [exact Hall|]. intros i Hi. lia.
Qed.

Lemma combine_spws_length (freq0 bw : list float) (nchans : list Z)
    (spwid : nat) (acc fs : list float) :
  combine_spws freq0 bw spwid nchans acc = Ok fs ->
  Z.of_nat (length fs)
  = Z.of_nat (length acc) + fold_right Z.add 0 (map (Z.max 0) nchans).
Proof.
  revert spwid acc. induction nchans as [|nc rest IH]; intros spwid acc H.
  - injection H as <-. cbn. lia.
  - cbn [combine_spws] in H.
    destruct (spw_freqs freq0 bw spwid nc) as [fs0|e] eqn:Hw;
      [|discriminate].
    cbn [rbind] in H. apply IH in H. apply spw_freqs_length in Hw.
    rewrite length_app, Nat2Z.inj_add in H. cbn [map fold_right]. lia.
Qed.

(** X2. When [__init__] returns, the axis has one entry per declared channel, a
    window with a negative channel count giving none: [numpy.arange] of a
    negative number is empty. *)
Theorem axis_length_counts_positive_channels (name : string)
    (info : ms_info) (self : MSNoise) :
  __init__ name info = Ok self ->
  nchan self = fold_right Z.add 0 (map (Z.max 0) (NUM_CHAN (SPW info))) /\
  Z.of_nat (length (freqs self)) = nchan self /\
  nrows self = NROW info /\ ncor self = NCOR info.
Proof.
  unfold __init__.
  destruct (combine_spws _ _ 0 _ []) as [fs|e] eqn:Hloop; [|discriminate].
  cbn [rbind]. intros [= <-]. cbn [nchan freqs nrows ncor].
  apply combine_spws_length in Hloop. cbn [length] in Hloop.
  rewrite length_map. repeat split; lia.
Qed.

Lemma axis_length_counts_positive_channels_witness :
  let info := {| NROW := 7; NCOR := 2;
                 SPW := {| REF_FREQUENCY := [of_int 10; of_int 20];
                           TOTAL_BANDWIDTH := [of_int 4; of_int 4];
                           NUM_CHAN := [2; -3] |} |} in
  let self := {| ms := "x.ms"; msinfo := info; nrows := 7; ncor := 2;
                 nchan := 2; freqs := [of_int 10; of_int 12] |} in
  __init__ "x.ms" info = Ok self /\
  (nchan self = fold_right Z.add 0 (map (Z.max 0) (NUM_CHAN (SPW info))) /\
   Z.of_nat (length (freqs self)) = nchan self /\
   nrows self = NROW info /\ ncor self = NCOR info).
Proof.
  intros info self.
  assert (Hinit : __init__ "x.ms" info = Ok self)
    by (vm_compute; reflexivity).
  split; [exact Hinit|].
  exact (axis_length_counts_positive_channels "x.ms" info self Hinit).
Defined.

Lemma inject_Z_pred (n : Z) : (inject_Z n - 1 == inject_Z (n - 1))%Q.
Proof.
  replace (n - 1) with (n + -1) by lia. rewrite inject_Z_plus. reflexivity.
Qed.

(** The first channel of a window is its reference frequency. *)
Lemma channel_frequency_first (f b : Q) (n : Z) :
  (0 < b)%Q -> python_float (Fin f) -> python_float (Fin b) ->
  1 <= n <= 2 ^ 63 ->
  channel_frequency (Fin f, Fin b, n) 0 = round_to float32 (Fin f).
Proof.
  intros Hb Hf Hfl Hn. unfold channel_frequency, double_frequency.
  destruct (channel_width_regular b n Hb Hfl Hn) as (d & -> & _).
  f_equal. unfold fadd_r, fmul_r.
  change (int_to_float 0) with (Fin 0). cbn [fmul].
  rewrite (round_to_comp float64 (Qred (0 * d)) 0)
    by (rewrite Qred_correct; ring).
  rewrite round_to_zero. cbn [fadd].
  rewrite (round_to_comp float64 (Qred (f + 0)) f)
    by (rewrite Qred_correct; ring).
  exact Hf.
Qed.

(** The channel width is at most [bandwidth / n] and one rounding. *)
Lemma channel_width_bound (b d : Q) (n : Z) :
  (0 < b)%Q -> 0 < n <= 2 ^ 53 ->
  (pow2 (2 - emax float64) <= b / inject_Z n)%Q ->
  fdiv_r float64 (Fin b) (int_to_float n) = Fin d ->
  (d <= b / inject_Z n + pow2 (- prec float64) * (b / inject_Z n))%Q.
Proof.
  intros Hb Hn Hnorm. rewrite int_to_float_exact by lia.
  assert (Hnq : (0 < inject_Z n)%Q)
    by (change 0%Q with (inject_Z 0); rewrite <- Zlt_Qlt; lia).
  unfold fdiv_r, fdiv, of_int. rewrite (proj2 (Qsgn_Gt _) Hnq).
  set (c := (b / inject_Z n)%Q) in *.
  pose proof (Qred_correct c) as Hc.
  remember (Qred c) as q eqn:Hq. clear Hq.
  rewrite <- Hc in Hnorm |- *.
  pose proof (pow2_pos (2 - emax float64)) as H0.
  assert (Hnorm' : (pow2 (emin float64 + prec float64 - 1) <= q)%Q)
    by (rewrite emin_normal; exact Hnorm).
  destruct (round_pos_relative float64 _ Hnorm') as [Hup _].
  pose proof (pow2_pos (- prec float64)) as Hu.
  intros Hd.
  destruct (round_to_Fin float64 q)
    as [Hz|Hq Ho|r Hq Hr Hlt|Hq Ho|r Hq Hr Hlt];
    try discriminate; injection Hd as <-.
  - nra.
  - lra.
  - lra.
Qed.

(** The channels of a standard window lie in its band as [float32] shows
    it. *)
Lemma stored_window_in_band (w : float * float * Z) :
  standard_window w -> Forall (in_stored_band w) (stored_window w).
Proof.
  intros (f & b & Hf & Hb & Hpf & Hpb & Hpos & Hn & Hnorm).
  destruct w as [[f0 bw] n]. cbn [fst snd] in Hf, Hb, Hn, Hnorm.
  subst f0 bw.
  assert (Hreg : regular_window (Fin f, Fin b, n)).
  { split; [exists f, b; auto|]. split; [exact Hpb|]. cbn [snd]. lia. }
  unfold stored_window, arange. cbn [snd]. rewrite map_map.
  apply List.Forall_forall. intros v Hv.
  apply in_map_iff in Hv as (j & <- & Hj). apply in_seq in Hj.
  split; cbn [fst snd].
  - rewrite <- (channel_frequency_first f b n) by (auto; lia).
    apply channel_frequency_mono; [exact Hreg|lia|cbn [snd]; lia].
  - unfold channel_frequency, double_frequency, fadd_r.
    apply round_to_mono, round_to_mono, fadd_mono_r.
    destruct (channel_width_regular b n Hpos Hpb) as (d & Hd & Hd0 & _);
      [lia|].
    pose proof (channel_width_bound b d n Hpos Hn Hnorm Hd) as Hbound.
    rewrite Hd. rewrite int_to_float_exact by lia.
    unfold fmul_r, of_int. cbn [fmul].
    rewrite <- Hpb. apply round_to_mono, fle_Fin.
    rewrite Qred_correct.
    (* j * d <= (n - 1) * d <= b *)
    assert (Hnq : (0 < inject_Z n)%Q)
      by (change 0%Q with (inject_Z 0); rewrite <- Zlt_Qlt; lia).
    assert (Hc : (b / inject_Z n * inject_Z n == b)%Q) by (field; lra).
    set (c := (b / inject_Z n)%Q) in *.
    assert (Hc0 : (0 <= c)%Q).
    { pose proof (pow2_pos (2 - emax float64)). lra. }
    assert (Hj1 : (inject_Z (Z.of_nat j) <= inject_Z n - 1)%Q).
    { rewrite inject_Z_pred, <- Zle_Qle. lia. }
    assert (Hu : ((inject_Z n - 1) * pow2 (- prec float64) <= 1)%Q).
    { assert (Hn53 : (inject_Z n - 1 <= inject_Z (2 ^ 53))%Q).
      { rewrite inject_Z_pred, <- Zle_Qle. lia. }
      assert (Hp : (inject_Z (2 ^ 53) * pow2 (- prec float64) == 1)%Q)
        by reflexivity.
      pose proof (pow2_pos (- prec float64)) as Hu0.
      nra. }
    set (u := pow2 (- prec float64)) in *.
    assert (H1 : (inject_Z (Z.of_nat j) * d <= (inject_Z n - 1) * d)%Q)
      by (apply Qmult_le_compat_r; assumption).
    assert (H2 : ((inject_Z n - 1) * d
                  <= (inject_Z n - 1) * (c + u * c))%Q).
    { assert (0 <= inject_Z n - 1)%Q.
      { rewrite inject_Z_pred. change 0%Q with (inject_Z 0).
        rewrite <- Zle_Qle. lia. }
      nra. }
    assert (H3 : ((inject_Z n - 1) * u * c <= 1 * c)%Q)
      by (apply Qmult_le_compat_r; assumption).
    nra.
Qed.

(** X3. In a measurement set whose windows are standard, every frequency of
    the axis lies in the band of one of the windows as [float32] shows it:
    at or above the stored reference frequency, at or below the stored sum
    of reference frequency and bandwidth.  The storage as [float32] can
    move a channel up to the end of the band, not out of it. *)
Theorem channels_within_bands (name : string) (nrow ncorr : Z)
    (spws : list (float * float * Z)) (self : MSNoise) :
  Forall standard_window spws ->
  __init__ name (summary_of nrow ncorr spws) = Ok self ->
  Forall (fun v => exists w, In w spws /\ in_stored_band w v) (freqs self).
Proof.
  intros Hspws.
  assert (Hnz : Forall (fun w => snd w <> 0) spws).
  { eapply Forall_impl; [exact Hspws|].
    intros w (f & b & _ & _ & _ & _ & _ & Hn & _). lia. }
  pose proof (combine_spws_axis spws [] [] Hnz) as Hloop.
  cbn [app length] in Hloop.
  unfold __init__, summary_of. cbn [SPW REF_FREQUENCY TOTAL_BANDWIDTH NUM_CHAN].
  rewrite Hloop. cbn [rbind app]. intros [= <-]. cbn [freqs].
  rewrite stored_axis.
  apply List.Forall_forall. intros v Hv.
  apply in_concat in Hv as (seg & Hseg & Hv).
  apply in_map_iff in Hseg as (w & <- & Hw).
  exists w. split; [exact Hw|].
  rewrite List.Forall_forall in Hspws.
  pose proof (stored_window_in_band w (Hspws _ Hw)) as Hband.
  rewrite List.Forall_forall in Hband. now apply Hband.
Qed.

(** The window of the scenario and a window of eight channels of 5 Hz at
    1 GHz, whose last channel, at 1e9 + 35, is stored as 1e9 + 64: the end
    of the band, 1e9 + 40, is stored as 1e9 + 64 too. *)
Lemma channels_within_bands_witness :
  let spws := [(of_int 950000000, of_int 100000000, 4);
               (of_int 1000000000, of_int 40, 8)] in
  let self := {| ms := "obs.ms"; msinfo := summary_of 100 4 spws;
                 nrows := 100; ncor := 4; nchan := 12;
                 freqs := [of_int 950000000; of_int 975000000;
                           of_int 1000000000; of_int 1025000000;
                           of_int 1000000000; of_int 1000000000;
                           of_int 1000000000; of_int 1000000000;
                           of_int 1000000000; of_int 1000000000;
                           of_int 1000000000; of_int 1000000064] |} in
  (Forall standard_window spws /\
   __init__ "obs.ms" (summary_of 100 4 spws) = Ok self) /\
  Forall (fun v => exists w, In w spws /\ in_stored_band w v) (freqs self).
Proof.
  intros spws self.
  assert (Hspws : Forall standard_window spws).
  { repeat constructor.
    - exists 950000000%Q, 100000000%Q.
      repeat split; try (vm_compute; reflexivity); vm_compute; discriminate.
    - exists 1000000000%Q, 40%Q.
      repeat split; try (vm_compute; reflexivity); vm_compute; discriminate. }
  assert (Hinit : __init__ "obs.ms" (summary_of 100 4 spws) = Ok self)
    by (vm_compute; reflexivity).
  split; [split; assumption|].
  exact (channels_within_bands "obs.ms" 100 4 spws self Hspws Hinit).
Defined.


(** ** The estimator: what it raises, and what it returns *)

Lemma mapM_getitem_error {A : Type} (rows : list (list A)) (c : nat)
    (e : exn) :
  mapM (fun row => getitem row c) rows = Error e -> e = IndexError.
Proof.
  induction rows as [|r rows IH]; [discriminate|]. cbn [mapM].
  unfold getitem at 1. destruct (r !! c) as [v|]; cbn [rbind].
  - destruct (mapM _ rows) as [vs|e']; [discriminate|].
    cbn [rbind]. intros [= <-]. now apply IH.
  - now intros [= <-].
Qed.

Lemma column_error (a : ndarray) (c : nat) (e : exn) :
  column a c = Error e -> e = IndexError.
Proof.
  destruct a as [v|l|[|r rows]]; cbn [column]; try (now intros [= <-]).
  apply mapM_getitem_error.
Qed.

Lemma not_negative_weight (t : dtype) (n : float) :
  not_negative (fdiv_r t fone (fmul_r t n n)).
Proof.
  unfold fdiv_r, fmul_r. apply round_to_not_negative.
  assert (Hsq : not_negative (round_to t (fmul n n))).
  { apply round_to_not_negative.
    destruct n as [q| | |]; cbn [fmul not_negative]; try exact I.
    rewrite Qred_correct. nra. }
  destruct (round_to t (fmul n n)) as [p| | |]; cbn [not_negative] in Hsq;
    try contradiction; unfold fdiv, fone; cbn [not_negative]; try lra.
  destruct (Qsgn p) eqn:Hs; cbn [finf_of not_negative]; try exact I.
  - apply Qsgn_Lt in Hs. lra.
  - apply Qsgn_Gt in Hs. rewrite Qred_correct.
    apply Qle_shift_div_l; lra.
Qed.



Section EstimatorEdges.

Context (numpy_load : string -> result ndarray)
        (polyfit : list float -> list float -> Z -> result (list float))
        (tck : Type)
        (splrep : list float -> list float -> Z -> result tck)
        (splev1 : tck -> float -> result float)
        (plot_noise_weights :
           list float -> list float -> list float -> list float ->
           list float -> Z -> string -> result unit)
        (noise_dtype : dtype).

Local Ltac unfold_estimate := unfold estimate_weights.
Local Ltac unfold_fit := unfold fit_noise.
Local Ltac unfold_weights := unfold weights_of_noise.

Local Abbreviation estimate_weights :=
  (estimate_weights numpy_load polyfit tck splrep splev1
     plot_noise_weights noise_dtype).
Local Abbreviation weights_of_noise := (weights_of_noise noise_dtype).
Local Abbreviation fit_noise := (fit_noise polyfit tck splrep splev1).
Local Abbreviation load_data := (load_data numpy_load).
Local Abbreviation curve_loads := (curve_loads numpy_load).
Local Abbreviation run_lemma :=
  (estimate_weights_run numpy_load polyfit tck splrep splev1
     plot_noise_weights noise_dtype).

(** X4. Data that are not a table of at least two columns (the default [None], a
    list of numbers, rows of one number) make [estimate_weights] raise
    [IndexError] at line 106, whatever the other arguments; the copy made of
    the data is all that is left of the call. *)
Theorem curve_without_two_columns (self : MSNoise) (mode : string)
    (stats_data : pyobj) (normalise : bool) (smooth : string)
    (fit_order : Z) (plot_stats : plot_arg) (h : heap) (a : ndarray)
    (e : exn) :
  load_data stats_data h = (Ok (length h), h ++ [a]) ->
  column a 1 = Error e ->
  estimate_weights self mode stats_data normalise smooth fit_order
    plot_stats h = (Error IndexError, h ++ [a]).
Proof.
  intros Hload Hcol. unfold_estimate.
  rewrite (mbind_ok _ _ _ _ _ Hload).
  rewrite (mbind_ok _ _ _ _ _ (deref_new h a)).
  destruct (column a 0) as [x|e0] eqn:Hx.
  - rewrite (mbind_lift_ok _ _ _ _ eq_refl).
    unfold mbind at 1, lift at 1. rewrite Hcol.
    now rewrite (column_error _ _ _ Hcol).
  - unfold mbind at 1, lift at 1.
    now rewrite (column_error _ _ _ Hx).
Qed.

(** X5. A [smooth] that is neither ['polyn'] nor ['spline'] leaves [noise]
    unbound: when the curve loads, line 127 raises [UnboundLocalError],
    after the normalisation has been done and before any figure. *)
Theorem unknown_smooth_raises (self : MSNoise) (mode : string)
    (stats_data : pyobj) (normalise : bool) (smooth : string)
    (fit_order : Z) (plot_stats : plot_arg) (h : heap) (a : ndarray)
    (x y : list float) (m : float) :
  curve_loads stats_data h a x y m ->
  smooth <> "polyn"%string -> smooth <> "spline"%string ->
  estimate_weights self mode stats_data normalise smooth fit_order
    plot_stats h
  = (Error UnboundLocalError, h ++ [final_data normalise a y m]).
Proof.
  intros Hc Hp Hs. rewrite (run_lemma self mode _ _ _ _ _ _ _ _ _ _ Hc).
  unfold_fit.
  apply String.eqb_neq in Hp, Hs. now rewrite Hp, Hs.
Qed.

(** X6. A figure that cannot be drawn costs the result: when plotting is asked
    for and raises, [estimate_weights] raises the same exception although
    noise and weights were computed. *)
Theorem plot_failure_propagates (self : MSNoise) (mode : string)
    (stats_data : pyobj) (normalise : bool) (smooth : string)
    (fit_order : Z) (plot_stats : plot_arg) (h : heap) (a : ndarray)
    (x y : list float) (m : float) (noise : list float) (e : exn) :
  curve_loads stats_data h a x y m ->
  fit_noise smooth (map (fun v => fmul v MHz) x) (fitted_y normalise y m)
    fit_order (map (fun v => fmul v MHz) (freqs self)) = Ok noise ->
  truthy plot_stats = true ->
  plot_noise_weights (map (fun v => fmul v MHz) x) (fitted_y normalise y m)
    (freqs self) noise (weights_of_noise noise) fit_order
    (plot_file self plot_stats) = Error e ->
  fst (estimate_weights self mode stats_data normalise smooth fit_order
         plot_stats h) = Error e.
Proof.
  intros Hc Hfit Htruthy Hplot.
  rewrite (run_lemma self mode _ _ _ _ _ _ _ _ _ _ Hc).
  rewrite Hfit. cbn [rbind]. now rewrite Htruthy, Hplot.
Qed.

(** X7. No weight is negative: each is zero or more, [+inf] (zero noise) or
    [nan]. *)
Theorem weights_not_negative (self : MSNoise) (mode : string)
    (stats_data : pyobj) (normalise : bool) (smooth : string)
    (fit_order : Z) (plot_stats : plot_arg) (h h' : heap)
    (noise weights : list float) :
  estimate_weights self mode stats_data normalise smooth fit_order
    plot_stats h = (Ok (noise, weights), h') ->
  Forall not_negative weights.
Proof.
  intros Hrun.
  apply estimate_weights_inv in Hrun as (a & x & y & m & _ & _ & -> & _).
  unfold_weights. apply Forall_fmap, Forall_true.
  intros n. apply not_negative_weight.
Qed.


End EstimatorEdges.

(** *** On the scenario *)

Section EstimatorEdgesScenario.

Import Scenario.

Local Abbreviation MHz_of := (map (fun v => fmul v MHz)).

(** With the default [stats_data=None] the call raises [IndexError]. *)
Lemma curve_without_two_columns_witness :
  (load_data Exact.numpy_load PyNone []
   = (Ok (length ([] : heap)), [] ++ [Arr0 NaN]) /\
   column (Arr0 NaN) 1 = Error IndexError) /\
  Exact.estimate_weights self "specs" PyNone true "polyn" 9 (PlotFlag true) []
  = (Error IndexError, [] ++ [Arr0 NaN]).
Proof.
  split; [split; reflexivity|].
  exact (curve_without_two_columns Exact.numpy_load Exact.polyfit
           Exact.no_tck Exact.splrep Exact.splev1 Exact.plot_noise_weights
           float64 self "specs" PyNone true "polyn" 9 (PlotFlag true) []
           (Arr0 NaN) IndexError eq_refl eq_refl).
Defined.

Lemma sefd_loads :
  curve_loads Exact.numpy_load (PyRef 0%nat) [sefd] sefd
    [Hz 900000000; Hz 1000000000; Hz 1100000000]
    [Fin 578; Fin 540; Fin 443] (Fin 578).
Proof. repeat split; reflexivity. Defined.

Lemma unknown_smooth_raises_witness :
  (curve_loads Exact.numpy_load (PyRef 0%nat) [sefd] sefd
     [Hz 900000000; Hz 1000000000; Hz 1100000000]
     [Fin 578; Fin 540; Fin 443] (Fin 578) /\
   "poly"%string <> "polyn"%string /\ "poly"%string <> "spline"%string) /\
  Exact.estimate_weights self "specs" (PyRef 0%nat) true "poly" 2
    (PlotFlag true) [sefd]
  = (Error UnboundLocalError,
     [sefd] ++ [final_data true sefd [Fin 578; Fin 540; Fin 443] (Fin 578)]).
Proof.
  assert (Hp : "poly"%string <> "polyn"%string) by discriminate.
  assert (Hs : "poly"%string <> "spline"%string) by discriminate.
  split; [repeat split; try reflexivity; assumption|].
  exact (unknown_smooth_raises Exact.numpy_load Exact.polyfit
           Exact.no_tck Exact.splrep Exact.splev1 Exact.plot_noise_weights
           float64 self "specs" (PyRef 0%nat) true "poly" 2 (PlotFlag true)
           [sefd] sefd _ _ _ sefd_loads Hp Hs).
Defined.

Lemma plot_failure_propagates_witness :
  let x := MHz_of [Hz 900000000; Hz 1000000000; Hz 1100000000] in
  let y := fitted_y true [Fin 578; Fin 540; Fin 443] (Fin 578) in
  (fit_noise Exact.polyfit Exact.no_tck Exact.splrep Exact.splev1 "polyn"
     x y 2 (MHz_of (freqs self)) = Ok noise /\
   truthy (PlotFlag true) = true /\
   no_display x y (freqs self) noise (weights_of_noise float64 noise) 2
     (plot_file self (PlotFlag true)) = Error IOError) /\
  fst (estimate_weights Exact.numpy_load Exact.polyfit Exact.no_tck
         Exact.splrep Exact.splev1 no_display float64 self "specs"
         (PyRef 0%nat) true "polyn" 2 (PlotFlag true) [sefd])
  = Error IOError.
Proof.
  intros x y.
  assert (Hfit : fit_noise Exact.polyfit Exact.no_tck Exact.splrep
                   Exact.splev1 "polyn" x y 2 (MHz_of (freqs self))
                 = Ok noise) by (vm_compute; reflexivity).
  split; [repeat split; try reflexivity; exact Hfit|].
  exact (plot_failure_propagates Exact.numpy_load Exact.polyfit
           Exact.no_tck Exact.splrep Exact.splev1 no_display
           float64 self "specs" (PyRef 0%nat) true "polyn" 2 (PlotFlag true)
           [sefd] sefd _ _ _ noise IOError sefd_loads Hfit eq_refl eq_refl).
Defined.

Lemma weights_not_negative_witness :
  Exact.estimate_weights self "specs" (PyRef 0%nat) true "polyn" 2
    (PlotFlag false) [sefd]
  = (Ok (noise, weights), [sefd; sefd_normalised]) /\
  Forall not_negative weights.
Proof.
  assert (Hrun : Exact.estimate_weights self "specs" (PyRef 0%nat) true
                   "polyn" 2 (PlotFlag false) [sefd]
                 = (Ok (noise, weights), [sefd; sefd_normalised]))
    by (vm_compute; reflexivity).
  split; [exact Hrun|].
  exact (weights_not_negative Exact.numpy_load Exact.polyfit Exact.no_tck
           Exact.splrep Exact.splev1 Exact.plot_noise_weights float64 self
           "specs"
           (PyRef 0%nat) true "polyn" 2 (PlotFlag false) [sefd]
           [sefd; sefd_normalised] noise weights Hrun).
Defined.


End EstimatorEdgesScenario.

(** ** The writer: what a run does with the table, whole or cut short *)

Lemma prefix_of_app_l {A : Type} (l1 l2 l3 : list A) :
  l1 `prefix_of` l2 -> l1 `prefix_of` l2 ++ l3.
Proof.
  intros [k ->]. exists (k ++ l3). now rewrite app_assoc.
Qed.

Lemma Forall_prefix {A : Type} (P : A -> Prop) (l1 l2 : list A) :
  l1 `prefix_of` l2 -> Forall P l2 -> Forall P l1.
Proof.
  intros [k ->] H. now apply Forall_app in H as [H _].
Qed.

Lemma rows_accessed_none (p : phase) (tr : list call) :
  Forall (fun a : access => snd a <> p) (accesses tr) ->
  rows_accessed p tr = [].
Proof.
  unfold rows_accessed. induction 1 as [|a l Ha _ IH]; [reflexivity|].
  cbn [flat_map]. rewrite IH, app_nil_r. unfold phase_eqb.
  destruct (Z.eqb_spec (phase_rank (snd a)) (phase_rank p)) as [Heq|_];
    [|reflexivity].
  exfalso. apply Ha. destruct (snd a), p; (reflexivity || discriminate).
Qed.

Lemma zip_shapes (columns : list string) (s0 s1 : list Z) (name : string)
    (shape : list Z) :
  In (name, shape) (zip columns [s0; s1]) ->
  (getitem columns 0 = Ok name /\ shape = s0) \/
  (getitem columns 1 = Ok name /\ shape = s1).
Proof.
  destruct columns as [|c0 [|c1 [|c2 rest]]]; cbn.
  - intros [].
  - intros [[= <- <-]|[]]. now left.
  - intros [[= <- <-]|[[= <- <-]|[]]]; [now left|now right].
  - intros [[= <- <-]|[[= <- <-]|[]]]; [now left|now right].
Qed.

Section WriterEdges.

Context (addcol : list call -> string -> string -> list Z -> result unit)
        (table : list call -> string -> result unit)
        (getcol : list call -> string -> Z -> Z -> result (cube bool))
        (putcol : list call -> string -> coldata -> Z -> Z -> result unit)
        (close : list call -> result unit)
        (masked_std : cube float -> cube bool -> list (list float)).

Local Ltac unfold_chunk := unfold write_chunk.
Local Ltac unfold_run := unfold write_toms.

Local Abbreviation write_toms :=
  (write_toms addcol table getcol putcol close masked_std).
Local Abbreviation write_chunks :=
  (write_chunks getcol putcol masked_std).
Local Abbreviation write_chunk :=
  (write_chunk getcol putcol masked_std).
Local Abbreviation init_columns := (init_columns addcol).

Lemma init_columns_calls (msname : string) (cols : list (string * list Z))
    (tr tr' : list call) (r : result unit) :
  init_columns msname cols tr = (r, tr') ->
  exists evs,
    tr' = tr ++ evs /\ accesses evs = [] /\
    Forall (fun c => exists name shape,
                c = Addcol msname name shape /\ In (name, shape) cols) evs.
Proof.
  revert tr. induction cols as [|[column shape] cols IH]; intros tr H.
  - injection H as _ <-. exists []. rewrite app_nil_r. auto.
  - change (init_columns msname ((column, shape) :: cols) tr)
      with (mbind (msutils_addcol addcol msname column shape)
              (fun _ => init_columns msname cols) tr) in H.
    unfold mbind at 1, msutils_addcol in H.
    destruct (addcol tr msname column shape) as [[]|e].
    + apply IH in H as (evs & -> & Hacc & Hevs).
      exists (Addcol msname column shape :: evs).
      rewrite <- app_assoc. split; [reflexivity|]. split; [exact Hacc|].
      constructor; [exists column, shape; split; [reflexivity|now left]|].
      eapply Forall_impl; [exact Hevs|].
      intros c (n & sh & -> & Hin). exists n, sh. split; [reflexivity|].
      now right.
    + injection H as _ <-. eexists. split; [reflexivity|].
      split; [reflexivity|].
      constructor; [|constructor].
      exists column, shape. split; [reflexivity|now left].
Qed.

(** One chunk: its accesses are the first ones of its plan, all of them when
    it goes through, and its calls are well formed. *)
Lemma write_chunk_plan (self : MSNoise) (data : list float)
    (columns : list string) (stat : string) (rowchunk row0 : Z)
    (tr tr' : list call) (r : result unit) :
  write_chunk self data columns stat rowchunk row0 tr = (r, tr') ->
  exists ev,
    tr' = tr ++ ev /\
    accesses ev `prefix_of` chunk_plan self stat rowchunk row0 /\
    (r = Ok tt -> accesses ev = chunk_plan self stat rowchunk row0) /\
    Forall (call_wf self data columns) ev.
Proof.
  unfold_chunk. unfold chunk_plan, known_stat.
  set (nr := Z.min rowchunk (nrows self - row0)).
  unfold mbind at 1, lift at 1.
  destruct (ones_times nr (nchan self) (ncor self) data) as [d|e] eqn:Hd.
  2:{ intros [= <- <-]. exists []. rewrite app_nil_r.
      repeat split; [apply prefix_nil|discriminate|constructor]. }
  unfold mbind at 1, tab_getcol.
  assert (Hread : Forall (call_wf self data columns)
                    [Getcol "FLAG" row0 nr])
    by (repeat constructor).
  assert (Hpre1 : forall rest : list access,
             accesses [Getcol "FLAG" row0 nr]
             `prefix_of` (row0, nr, ReadFlags) :: rest)
    by (intros rest; now exists rest).
  destruct (getcol tr "FLAG" row0 nr) as [flags|e].
  2:{ intros [= <- <-]. eexists. split; [reflexivity|].
      repeat split; [apply Hpre1|discriminate|exact Hread]. }
  unfold mbind at 1, lift at 1.
  destruct (mask_for _ _ _ flags) as [mask|e].
  2:{ intros [= <- <-]. eexists. split; [reflexivity|].
      repeat split; [apply Hpre1|discriminate|exact Hread]. }
  unfold mbind at 1, lift at 1.
  destruct (getitem columns 1) as [spectral|e] eqn:Hc1.
  2:{ intros [= <- <-]. eexists. split; [reflexivity|].
      repeat split; [apply Hpre1|discriminate|exact Hread]. }
  unfold mbind at 1, tab_putcol at 1.
  rewrite <- app_assoc. cbn [app].
  assert (Hspec : Forall (call_wf self data columns)
                    [Getcol "FLAG" row0 nr;
                     Putcol spectral (Spectral d) row0 nr])
    by (repeat constructor; assumption).
  assert (Hpre2 : forall rest : list access,
             accesses [Getcol "FLAG" row0 nr;
                       Putcol spectral (Spectral d) row0 nr]
             `prefix_of`
             (row0, nr, ReadFlags) :: (row0, nr, WriteSpectral) :: rest)
    by (intros rest; now exists rest).
  destruct (putcol _ spectral _ row0 nr) as [[]|e].
  2:{ intros [= <- <-]. eexists. split; [reflexivity|].
      repeat split; [apply Hpre2|discriminate|exact Hspec]. }
  unfold mbind at 1, lift at 1.
  destruct (getitem columns 0) as [scalar|e] eqn:Hc0.
  2:{ intros [= <- <-]. eexists. split; [reflexivity|].
      repeat split; [apply Hpre2|discriminate|exact Hspec]. }
  destruct (String.eqb stat "stddev") eqn:Hstd; cbn [orb].
  { unfold tab_putcol. rewrite <- app_assoc. cbn [app].
    intros [= _ <-]. eexists. split; [reflexivity|].
    repeat split; [reflexivity| |assumption..].
    repeat constructor; assumption. }
  destruct (String.eqb stat "sum").
  { unfold tab_putcol. rewrite <- app_assoc. cbn [app].
    intros [= _ <-]. eexists. split; [reflexivity|].
    repeat split; [reflexivity| |assumption..].
    repeat constructor; assumption. }
  intros [= <- <-]. eexists. split; [reflexivity|].
  repeat split; [reflexivity|exact Hspec].
Qed.

Lemma write_chunks_plan (self : MSNoise) (data : list float)
    (columns : list string) (stat : string) (rowchunk : Z)
    (offsets : list Z) (tr tr' : list call) (r : result unit) :
  write_chunks self data columns stat rowchunk offsets tr = (r, tr') ->
  exists evs,
    tr' = tr ++ evs /\
    accesses evs `prefix_of`
      flat_map (chunk_plan self stat rowchunk) offsets /\
    (r = Ok tt ->
     accesses evs = flat_map (chunk_plan self stat rowchunk) offsets) /\
    Forall (call_wf self data columns) evs.
Proof.
  revert tr. induction offsets as [|row0 rest IH]; intros tr H.
  - injection H as <- <-. exists []. rewrite app_nil_r.
    repeat split; [apply prefix_nil|constructor].
  - change (write_chunks self data columns stat rowchunk (row0 :: rest) tr)
      with (mbind (write_chunk self data columns stat rowchunk row0)
              (fun _ => write_chunks self data columns stat rowchunk rest)
              tr) in H.
    unfold mbind at 1 in H.
    destruct (write_chunk self data columns stat rowchunk row0 tr)
      as [[[]|e] tr1] eqn:Hchunk;
      apply write_chunk_plan in Hchunk as (ev & -> & Hpre & Hall & Hwf).
    + apply IH in H as (evs & -> & Hpre' & Hall' & Hwf').
      exists (ev ++ evs). rewrite app_assoc. split; [reflexivity|].
      unfold accesses. rewrite omap_app. fold (accesses ev) (accesses evs).
      rewrite (Hall eq_refl). cbn [flat_map].
      repeat split.
      * now apply prefix_app.
      * intros Hr. now rewrite (Hall' Hr).
      * now apply Forall_app.
    + injection H as <- <-. exists ev. split; [reflexivity|].
      cbn [flat_map]. repeat split;
        [now apply prefix_of_app_l|discriminate|exact Hwf].
Qed.

(** A whole run. *)
Lemma write_toms_plan (self : MSNoise) (data : list float)
    (columns : list string) (stat : string) (rowchunk : option Z)
    (tr : list call) (r : result unit) :
  write_toms self data columns stat rowchunk [] = (r, tr) ->
  accesses tr `prefix_of` plan self stat rowchunk /\
  (r = Ok tt -> accesses tr = plan self stat rowchunk) /\
  Forall (call_wf self data columns) tr.
Proof.
  unfold_run. unfold plan, offsets_of. unfold mbind at 1.
  destruct (init_columns _ _ []) as [r0 tr1] eqn:Hinit.
  apply init_columns_calls in Hinit as (adds & Heq & Hacc & Hadds).
  cbn [app] in Heq. subst tr1.
  assert (Hwf : Forall (call_wf self data columns) adds).
  { eapply Forall_impl; [exact Hadds|].
    intros c (name & shape & -> & Hin). cbn [call_wf].
    split; [reflexivity|]. now apply zip_shapes. }
  destruct r0 as [[]|e].
  2:{ intros [= <- <-]. rewrite Hacc.
      split; [apply prefix_nil|split; [discriminate|exact Hwf]]. }
  unfold mbind at 1, table_open.
  assert (Hwf' : Forall (call_wf self data columns)
                   (adds ++ [Open (ms self)])).
  { apply Forall_app. split; [exact Hwf|]. repeat constructor. }
  assert (Hacc' : accesses (adds ++ [Open (ms self)]) = []).
  { unfold accesses. rewrite omap_app. fold (accesses adds).
    now rewrite Hacc. }
  destruct (table adds (ms self)) as [[]|e].
  2:{ intros [= <- <-]. rewrite Hacc'.
      split; [apply prefix_nil|split; [discriminate|exact Hwf']]. }
  unfold mbind at 1, lift at 1.
  destruct (py_range 0 (nrows self) (chunk_size self rowchunk))
    as [offsets|e].
  2:{ intros [= <- <-]. rewrite Hacc'.
      split; [apply prefix_nil|split; [discriminate|exact Hwf']]. }
  unfold mbind at 1.
  destruct (write_chunks _ _ _ _ _ offsets _) as [r1 tr2] eqn:Hloop.
  apply write_chunks_plan in Hloop as (evs & -> & Hpre & Hall & Hwfl).
  assert (Hacc2 : accesses ((adds ++ [Open (ms self)]) ++ evs)
                  = accesses evs).
  { unfold accesses at 1. rewrite omap_app.
    fold (accesses (adds ++ [Open (ms self)])) (accesses evs).
    now rewrite Hacc'. }
  destruct r1 as [[]|e].
  - unfold tab_close. intros [= <- <-].
    assert (Hacc3 : accesses (((adds ++ [Open (ms self)]) ++ evs) ++ [Close])
                    = accesses evs).
    { unfold accesses at 1. rewrite omap_app.
      fold (accesses ((adds ++ [Open (ms self)]) ++ evs)).
      rewrite Hacc2. cbn. now rewrite app_nil_r. }
    rewrite Hacc3. split; [exact Hpre|split].
    + intros _. now apply Hall.
    + apply Forall_app. split; [now apply Forall_app|].
      constructor; [exact I|constructor].
  - intros [= <- <-]. rewrite Hacc2. split; [exact Hpre|split].
    + discriminate.
    + now apply Forall_app.
Qed.

End WriterEdges.

Lemma map_nth_seq {A B : Type} (f : A -> B) (d : A) (l : list A) :
  map (fun j => f (nth j l d)) (seq 0 (length l)) = map f l.
Proof.
  induction l as [|a l IH]; [reflexivity|].
  cbn [length seq map nth]. f_equal.
  rewrite <- seq_shift, map_map. exact IH.
Qed.

(** The cube of line 187 for a weight vector as long as the channel axis:
    every row holds, for every channel, the weight of the channel (times
    1.0) at every correlation. *)
Lemma ones_times_weights (nr nchan ncor : Z) (data : list float)
    (d : cube float) :
  length data = Z.to_nat nchan ->
  ones_times nr nchan ncor data = Ok d ->
  d = replicate (Z.to_nat nr)
        (map (fun w => replicate (Z.to_nat ncor) (fmul fone w)) data).
Proof.
  intros Hlen. unfold ones_times.
  destruct ((nr <? 0) || (nchan <? 0) || (ncor <? 0)); [discriminate|].
  rewrite <- Hlen. unfold broadcast. rewrite Nat.eqb_refl. cbn [rbind].
  intros [= <-]. f_equal.
  destruct (Nat.eqb_spec (length data) 1) as [Hone|_].
  - destruct data as [|w [|w' data]]; try discriminate. reflexivity.
  - apply (map_nth_seq
             (fun w => replicate (Z.to_nat ncor) (fmul fone w)) fzero data).
Qed.

Lemma ones_times_needs_broadcast (nr nchan ncor : Z) (data : list float)
    (d : cube float) (e : exn) :
  broadcast (Z.to_nat nchan) (length data) = Error e ->
  ones_times nr nchan ncor data <> Ok d.
Proof.
  intros Hb. unfold ones_times.
  destruct ((nr <? 0) || (nchan <? 0) || (ncor <? 0)); [discriminate|].
  rewrite Hb. discriminate.
Qed.

Lemma no_access_of_phase (self : MSNoise) (stat : string) (k : Z)
    (offsets : list Z) :
  known_stat stat = false ->
  Forall (fun a : access => snd a <> WriteScalar)
         (flat_map (chunk_plan self stat k) offsets).
Proof.
  intros Hstat. induction offsets as [|row0 rest IH]; [constructor|].
  cbn [flat_map]. apply Forall_app. split; [|exact IH].
  unfold chunk_plan. rewrite Hstat. repeat constructor; discriminate.
Qed.

Lemma spectral_rows_of_plan (self : MSNoise) (stat : string) (k : Z)
    (offsets : list Z) (tr : list call) :
  accesses tr = flat_map (chunk_plan self stat k) offsets ->
  rows_accessed WriteSpectral tr
  = flat_map (fun row0 => row_range row0 (Z.min k (nrows self - row0)))
             offsets.
Proof.
  unfold rows_accessed. intros ->.
  induction offsets as [|row0 rest IH]; [reflexivity|].
  cbn [flat_map]. rewrite flat_map_app, IH. f_equal.
  unfold chunk_plan. destruct (known_stat stat); cbn; now rewrite app_nil_r.
Qed.

Section WriterEdgeTheorems.

Context (addcol : list call -> string -> string -> list Z -> result unit)
        (table : list call -> string -> result unit)
        (getcol : list call -> string -> Z -> Z -> result (cube bool))
        (putcol : list call -> string -> coldata -> Z -> Z -> result unit)
        (close : list call -> result unit)
        (masked_std : cube float -> cube bool -> list (list float)).

Local Abbreviation plan_lemma :=
  (write_toms_plan addcol table getcol putcol close masked_std).
Local Abbreviation trace_lemma :=
  (write_toms_trace addcol table getcol putcol close masked_std).
Local Abbreviation write_toms :=
  (write_toms addcol table getcol putcol close masked_std).

(** X10. No rollback and no skipping: whatever fails, the reads and writes a run
    has made are the first ones of its plan (chunk after chunk from row 0:
    read the flags, write the spectral column, write the scalar column), so
    the chunks before the failure are written in full and those after it
    are untouched; a run that returns has carried out the whole plan. *)
Theorem accesses_follow_plan (self : MSNoise) (data : list float)
    (columns : list string) (stat : string) (rowchunk : option Z) :
  accesses (snd (write_toms self data columns stat rowchunk []))
  `prefix_of` plan self stat rowchunk /\
  (fst (write_toms self data columns stat rowchunk []) = Ok tt ->
   accesses (snd (write_toms self data columns stat rowchunk []))
   = plan self stat rowchunk).
Proof.
  destruct (write_toms self data columns stat rowchunk []) as [r tr] eqn:H.
  apply plan_lemma in H as (Hpre & Hall & _). cbn [fst snd]. auto.
Qed.

(** X11. Every call a run makes on the store is well formed: the columns created
    are [columns[0]] with shape [[ncor]] and [columns[1]] with shape
    [[nchan, ncor]], flags are read from [FLAG], cubes go to [columns[1]]
    and matrices to [columns[0]]. *)
Theorem calls_well_formed (self : MSNoise) (data : list float)
    (columns : list string) (stat : string) (rowchunk : option Z) :
  Forall (call_wf self data columns)
         (snd (write_toms self data columns stat rowchunk [])).
Proof.
  destruct (write_toms self data columns stat rowchunk []) as [r tr] eqn:H.
  apply plan_lemma in H as (_ & _ & Hwf). exact Hwf.
Qed.

(** X12. What is written to the spectral column does not depend on the flags:
    for a weight vector as long as the channel axis, each of the [nr] rows
    gets, at every channel and correlation, the weight of the channel. *)
Theorem spectral_cube_is_weights (self : MSNoise) (data : list float)
    (columns : list string) (stat : string) (rowchunk : option Z)
    (i : nat) (c : string) (d : cube float) (row0 nr : Z) :
  snd (write_toms self data columns stat rowchunk []) !! i
    = Some (Putcol c (Spectral d) row0 nr) ->
  length data = Z.to_nat (nchan self) ->
  getitem columns 1 = Ok c /\
  d = replicate (Z.to_nat nr)
        (map (fun w => replicate (Z.to_nat (ncor self)) (fmul fone w)) data).
Proof.
  intros Hi Hlen.
  destruct (write_toms self data columns stat rowchunk []) as [r tr] eqn:H.
  apply plan_lemma in H as (_ & _ & Hwf). cbn [snd] in Hi.
  rewrite List.Forall_forall in Hwf.
  assert (Hin : In (Putcol c (Spectral d) row0 nr) tr)
    by (apply list_elem_of_In; eapply list_elem_of_lookup_2; eauto).
  destruct (Hwf _ Hin) as [Hc Hd].
  split; [exact Hc|]. exact (ones_times_weights _ _ _ _ _ Hlen Hd).
Qed.

(** X13. A statistic other than ['sum'] and ['stddev'] is not refused: the
    scalar column is never written, and a run that returns has still written
    every row of the spectral column. *)
Theorem unknown_stat_skips_scalar (self : MSNoise) (data : list float)
    (columns : list string) (stat : string) (rowchunk : option Z) :
  known_stat stat = false ->
  rows_accessed WriteScalar
    (snd (write_toms self data columns stat rowchunk [])) = [] /\
  (fst (write_toms self data columns stat rowchunk []) = Ok tt ->
   0 <= nrows self -> 0 < chunk_size self rowchunk ->
   rows_accessed WriteSpectral
     (snd (write_toms self data columns stat rowchunk []))
   = row_range 0 (nrows self)).
Proof.
  intros Hstat.
  destruct (write_toms self data columns stat rowchunk []) as [r tr] eqn:H.
  apply plan_lemma in H as (Hpre & Hall & _). cbn [fst snd]. split.
  - apply rows_accessed_none.
    eapply Forall_prefix; [exact Hpre|]. now apply no_access_of_phase.
  - intros Hr Hrows Hsize. specialize (Hall Hr). unfold plan in Hall.
    rewrite (spectral_rows_of_plan _ _ _ _ _ Hall).
    apply chunks_partition_rows; [exact Hrows|exact Hsize|].
    unfold offsets_of.
    destruct (py_range 0 (nrows self) (chunk_size self rowchunk))
      as [offsets|e] eqn:Hrange; [reflexivity|].
    unfold py_range in Hrange.
    destruct (Z.eqb_spec (chunk_size self rowchunk) 0); [lia|discriminate].
Qed.


Lemma loop_trace_no_cube (self : MSNoise) (data : list float)
    (stat : string) (rowchunk : Z) (tr : list call) (offsets : list Z)
    (evs : list call) :
  (forall nr d, ones_times nr (nchan self) (ncor self) data <> Ok d) ->
  loop_trace getcol masked_std self data stat rowchunk tr offsets evs ->
  evs = [].
Proof.
  intros Hno.
  assert (Hchunk : forall tr r0 ev,
             chunk_trace getcol masked_std self data stat rowchunk tr r0 ev ->
             ev = []).
  { intros tr1 r0 ev [|d Hd|d c1 Hd|d c1 c2 flags mask Hd _ _];
      [reflexivity|..]; now apply Hno in Hd. }
  induction 1 as [tr|tr r0 rest ev Hev|tr r0 rest ev evs Hev _ IH].
  - reflexivity.
  - eapply Hchunk; eauto.
  - rewrite IH. rewrite (Hchunk _ _ _ Hev). reflexivity.
Qed.

(** X15. A weight vector that cannot be broadcast along the channel axis (its
    length is neither the channel count nor 1, and the channel count is not
    1) is refused before any row is read or written; the run raises if
    there is a chunk at all. *)
Theorem mismatched_weights_refused (self : MSNoise) (data : list float)
    (columns : list string) (stat : string) (rowchunk : option Z)
    (e : exn) :
  broadcast (Z.to_nat (nchan self)) (length data) = Error e ->
  accesses (snd (write_toms self data columns stat rowchunk [])) = [] /\
  (offsets_of self rowchunk <> [] ->
   fst (write_toms self data columns stat rowchunk []) <> Ok tt).
Proof.
  intros Hb.
  destruct (write_toms self data columns stat rowchunk []) as [r tr] eqn:H.
  pose proof (plan_lemma _ _ _ _ _ _ _ H) as (_ & Hall & _).
  apply trace_lemma in H
    as (pre & evs & post & offsets & -> & Hpre & Hloop & _ & Hpost).
  cbn [fst snd].
  assert (Hevs : evs = []).
  { eapply loop_trace_no_cube; [|exact Hloop].
    intros nr d. eapply ones_times_needs_broadcast; eauto. }
  subst evs.
  assert (Hacc : accesses (pre ++ [] ++ post) = []).
  { unfold accesses. rewrite !omap_app. fold (accesses pre).
    rewrite (accesses_setup _ Hpre).
    destruct Hpost as [[-> _] | [-> _]]; reflexivity. }
  split; [exact Hacc|].
  intros Hoff Hr. specialize (Hall Hr). rewrite Hacc in Hall.
  unfold plan in Hall.
  destruct (offsets_of self rowchunk) as [|row0 rest]; [now apply Hoff|].
  discriminate.
Qed.

(** X16. A negative chunk size is not refused either: the loop has no chunk to
    go through, and no row is read or written. *)
Theorem negative_rowchunk_touches_nothing (self : MSNoise)
    (data : list float) (columns : list string) (stat : string) (k : Z) :
  k < 0 ->
  accesses (snd (write_toms self data columns stat (Some k) [])) = [].
Proof.
  intros Hk.
  destruct (write_toms self data columns stat (Some k) []) as [r tr] eqn:H.
  apply trace_lemma in H
    as (pre & evs & post & offsets & -> & Hpre & Hloop & _ & Hpost).
  cbn [snd].
  assert (Hsize : chunk_size self (Some k) = k).
  { unfold chunk_size. destruct (Z.eqb_spec k 0); [lia|reflexivity]. }
  rewrite Hsize in Hloop.
  rewrite (loop_trace_negative _ _ _ _ _ _ _ _ _ Hk Hloop).
  unfold accesses. rewrite !omap_app. fold (accesses pre).
  rewrite (accesses_setup _ Hpre).
  destruct Hpost as [[-> _] | [-> _]]; reflexivity.
Qed.

End WriterEdgeTheorems.

(** ** The writer: the scalar weight of rows without flags *)






Section UnflaggedRows.

Context (addcol : list call -> string -> string -> list Z -> result unit)
        (table : list call -> string -> result unit)
        (getcol : list call -> string -> Z -> Z -> result (cube bool))
        (putcol : list call -> string -> coldata -> Z -> Z -> result unit)
        (close : list call -> result unit)
        (masked_std : cube float -> cube bool -> list (list float)).

Local Abbreviation scalar_lemma :=
  (write_toms_scalar addcol table getcol putcol close masked_std).
Local Abbreviation write_toms :=
  (write_toms addcol table getcol putcol close masked_std).


End UnflaggedRows.

(** *** On the small measurement set *)

Section WriterEdgesScenario.

Import SmallMS.

Local Abbreviation store := (Store.write_toms 2 1 2 None).

Lemma small_ms_run :
  store self weights columns "sum" (Some 2) [] = (Ok tt, calls).
Proof. vm_compute; reflexivity. Defined.

Lemma rows_written_once_witness :
  (("sum"%string = "sum"%string \/ "sum"%string = "stddev"%string) /\
   0 <= nrows self /\ 0 < chunk_size self (Some 2) /\
   store self weights columns "sum" (Some 2) [] = (Ok tt, calls)) /\
  (rows_accessed WriteSpectral calls = row_range 0 (nrows self) /\
   rows_accessed WriteScalar calls = row_range 0 (nrows self)).
Proof.
  assert (Hstat : "sum"%string = "sum"%string \/
                  "sum"%string = "stddev"%string)
    by (left; reflexivity).
  assert (Hrows : 0 <= nrows self) by (cbn; lia).
  assert (Hsize : 0 < chunk_size self (Some 2)) by (cbn; lia).
  split; [repeat split; try assumption; exact small_ms_run|].
  exact (rows_written_once Store.addcol Store.table (Store.getcol 2 1 2)
           (Store.putcol None) Store.close Store.masked_std self weights
           columns "sum" (Some 2) calls Hstat Hrows Hsize small_ms_run).
Defined.

Lemma spectral_cube_is_weights_witness :
  (snd (store self weights columns "sum" (Some 2) []) !! 4%nat
   = Some (Putcol "WEIGHT_SPECTRUM" (Spectral cube2) 0 2) /\
   length weights = Z.to_nat (nchan self)) /\
  (getitem columns 1 = Ok "WEIGHT_SPECTRUM"%string /\
   cube2 = replicate (Z.to_nat 2)
             (map (fun w => replicate (Z.to_nat (ncor self)) (fmul fone w))
                  weights)).
Proof.
  assert (Hi : snd (store self weights columns "sum" (Some 2) []) !! 4%nat
               = Some (Putcol "WEIGHT_SPECTRUM" (Spectral cube2) 0 2))
    by (vm_compute; reflexivity).
  split; [split; [exact Hi|reflexivity]|].
  exact (spectral_cube_is_weights Store.addcol Store.table
           (Store.getcol 2 1 2) (Store.putcol None) Store.close
           Store.masked_std self weights columns "sum" (Some 2) 4%nat
           "WEIGHT_SPECTRUM" cube2 0 2 Hi eq_refl).
Defined.

Lemma unknown_stat_skips_scalar_witness :
  known_stat "mean" = false /\
  (rows_accessed WriteScalar
     (snd (store self weights columns "mean" (Some 2) [])) = [] /\
   (fst (store self weights columns "mean" (Some 2) []) = Ok tt ->
    0 <= nrows self -> 0 < chunk_size self (Some 2) ->
    rows_accessed WriteSpectral
      (snd (store self weights columns "mean" (Some 2) []))
    = row_range 0 (nrows self))).
Proof.
  split; [reflexivity|].
  exact (unknown_stat_skips_scalar Store.addcol Store.table
           (Store.getcol 2 1 2) (Store.putcol None) Store.close
           Store.masked_std self weights columns "mean" (Some 2) eq_refl).
Defined.


Lemma mismatched_weights_refused_witness :
  broadcast (Z.to_nat (nchan self)) (length [Fin 1; Fin 2; Fin 3])
  = Error ValueError /\
  (accesses (snd (store self [Fin 1; Fin 2; Fin 3] columns "sum" (Some 2) []))
   = [] /\
   (offsets_of self (Some 2) <> [] ->
    fst (store self [Fin 1; Fin 2; Fin 3] columns "sum" (Some 2) [])
    <> Ok tt)).
Proof.
  split; [reflexivity|].
  exact (mismatched_weights_refused Store.addcol Store.table
           (Store.getcol 2 1 2) (Store.putcol None) Store.close
           Store.masked_std self [Fin 1; Fin 2; Fin 3] columns "sum"
           (Some 2) ValueError eq_refl).
Defined.

Lemma negative_rowchunk_touches_nothing_witness :
  -2 < 0 /\
  accesses (snd (store self weights columns "sum" (Some (-2)) [])) = [].
Proof.
  assert (Hk : -2 < 0) by lia.
  split; [exact Hk|].
  exact (negative_rowchunk_touches_nothing Store.addcol Store.table
           (Store.getcol 2 1 2) (Store.putcol None) Store.close
           Store.masked_std self weights columns "sum" (-2) Hk).
Defined.

(** With a negative chunk size the run returns all the same. *)
Example negative_rowchunk_returns :
  store self weights columns "sum" (Some (-2)) [] = (Ok tt, setup ++ [Close]).
Proof. vm_compute; reflexivity. Qed.


End WriterEdgesScenario.
